(** * Neo4j graph loader ([utils/neo4j_loader.py])

    A shallow embedding of [Neo4jLoader] and of [load_graph_to_neo4j]:
    decoded JSON documents, the property-graph store behind the session,
    the four Cypher statements the loader issues, and the Python control
    flow (loops with [continue], [try]/[except]/[finally], [with]) around
    them.  The database is an external collaborator: what it stores is
    modelled by [Store], and whether it refuses a statement is left to a
    section variable, so that every theorem holds for every failure
    behaviour of the server. *)

From Stdlib Require Import List String Ascii ZArith Bool Lia.
From Stdlib Require Import Floats.SpecFloat.
Import ListNotations.

Local Open Scope string_scope.
Local Open Scope Z_scope.
Local Open Scope list_scope.

(** ** Decoded JSON, as [json.load] returns it *)

(** [None], [bool], [int], [float], [str], [list] and [dict].  A [dict] is
    kept as its items; lookups take the first entry of a key, and a decoded
    object has one entry per key. *)
#[warnings="-register-all"]
Inductive json : Type :=
| JNull
| JBool (b : bool)
| JInt (z : Z)
| JFloat (f : spec_float)
| JStr (s : string)
| JList (l : list json)
| JDict (d : list (string * json)).

Definition items := list (string * json).

(** [isinstance(x, dict)] and [isinstance(x, list)]. *)
Definition is_dict (x : json) : bool :=
  match x with JDict _ => true | _ => false end.

Definition is_list (x : json) : bool :=
  match x with JList _ => true | _ => false end.

(** Python truth value: [not x] is [negb (truthy x)]. *)
Definition truthy (x : json) : bool :=
  match x with
  | JNull => false
  | JBool b => b
  | JInt z => negb (z =? 0)
  | JFloat (S754_zero _) => false
  | JFloat _ => true
  | JStr s => negb (String.eqb s "")
  | JList l => match l with [] => false | _ => true end
  | JDict d => match d with [] => false | _ => true end
  end.

(** [d.get(k)] on the items of a dict. *)
Fixpoint assoc (k : string) (d : items) : option json :=
  match d with
  | [] => None
  | (k', v) :: d' => if String.eqb k k' then Some v else assoc k d'
  end.

(** [d.get(k, default)]. *)
Definition dict_get (d : items) (k : string) (default : json) : json :=
  match assoc k d with Some v => v | None => default end.

(** [k in d]. *)
Definition dict_mem (k : string) (d : items) : bool :=
  match assoc k d with Some _ => true | None => false end.

(** ** Property values and their comparison in the store *)

(** Equality of two stored values, as a pattern [{key: $value}] tests it.
    [null] is equal to nothing; numbers compare by value; the rest is
    structural. *)
Definition float_is_Z (f : spec_float) (z : Z) : bool :=
  match f with
  | S754_zero _ => z =? 0
  | S754_finite s m e =>
      let v := if s then Z.neg m else Z.pos m in
      if 0 <=? e then v * 2 ^ e =? z else v =? z * 2 ^ (- e)
  | _ => false
  end.

Fixpoint json_eqb (a b : json) {struct a} : bool :=
  match a, b with
  | JBool x, JBool y => Bool.eqb x y
  | JInt x, JInt y => x =? y
  | JFloat x, JFloat y => SFeqb x y
  | JInt x, JFloat y => float_is_Z y x
  | JFloat x, JInt y => float_is_Z x y
  | JStr x, JStr y => String.eqb x y
  | JList l, JList l' =>
      (fix go (l l' : list json) : bool :=
         match l, l' with
         | [], [] => true
         | x :: r, y :: r' => json_eqb x y && go r r'
         | _, _ => false
         end) l l'
  | JDict d, JDict d' =>
      (fix go (d d' : items) : bool :=
         match d, d' with
         | [], [] => true
         | (k, x) :: r, (k', y) :: r' =>
             String.eqb k k' && json_eqb x y && go r r'
         | _, _ => false
         end) d d'
  | _, _ => false
  end.

(** A property map of a stored node or relationship. *)
Definition props := list (string * json).

Definition pget (k : string) (p : props) : option json := assoc k p.

Definition premove (k : string) (p : props) : props :=
  filter (fun kv => negb (String.eqb k (fst kv))) p.

(** [SET x.k = v]: a [null] value removes the property. *)
Definition pset (k : string) (v : json) (p : props) : props :=
  match v with
  | JNull => premove k p
  | _ => (k, v) :: premove k p
  end.

(** [SET x += $map]: every entry of the map is set (or removed, for
    [null]); properties the map does not name are left alone.  The fold
    runs from the right so that, like [dict_get], the first entry of a key
    is the one that counts. *)
Definition pupdate (m : items) (p : props) : props :=
  fold_right (fun kv acc => pset (fst kv) (snd kv) acc) p m.

(** The pattern test [{k: $v}]. *)
Definition prop_is (k : string) (v : json) (p : props) : bool :=
  match pget k p with
  | Some w => json_eqb w v
  | None => false
  end.

(** ** The property graph behind the session *)

Record node : Type := mkNode {
  n_id : nat;
  n_labels : list string;
  n_props : props
}.

Record rel : Type := mkRel {
  r_id : nat;
  r_src : nat;
  r_dst : nat;
  r_type : string;
  r_props : props
}.

Record Store : Type := mkStore {
  st_nodes : list node;
  st_rels : list rel;
  st_next : nat
}.

Definition empty_store : Store := mkStore [] [] 0.

(** The statements the loader sends, with their parameters. *)
Inductive query : Type :=
| QPing
| QClear (dataset : string)
| QMergeRelationship (start_name end_name : json) (dataset : string)
    (start_type end_type : json) (start_props end_props : json)
    (relation : json)
| QMergeNode (id name type attributes : json) (dataset : string)
| QMatchMergeEdge (source target relation weight : json) (dataset : string).

Definition has_label (l : string) (n : node) : bool :=
  existsb (String.eqb l) (n_labels n).

(** The node pattern [(:Entity {key: $v, dataset: $dataset})]. *)
Definition entity_matches (key : string) (v : json) (dataset : string)
    (n : node) : bool :=
  has_label "Entity" n && prop_is key v (n_props n)
  && prop_is "dataset" (JStr dataset) (n_props n).

Definition set_node_props (f : props -> props) (n : node) : node :=
  mkNode (n_id n) (n_labels n) (f (n_props n)).

(** [MERGE (x:Entity {key: $v, dataset: $dataset}) ON CREATE SET ...
    ON MATCH SET ...] for one incoming row: the nodes the pattern matches
    are updated by [on_match] and returned; when there is none, one node
    is created with the pattern's label and properties and updated by
    [on_create]. *)
Definition merge_entity (key : string) (v : json) (dataset : string)
    (on_create on_match : props -> props) (s : Store) : Store * list nat :=
  let hit := entity_matches key v dataset in
  if existsb hit (st_nodes s) then
    (mkStore
       (map (fun n => if hit n then set_node_props on_match n else n)
            (st_nodes s))
       (st_rels s) (st_next s),
     map n_id (filter hit (st_nodes s)))
  else
    let n := mkNode (st_next s) ["Entity"]
               (on_create (pset "dataset" (JStr dataset) (pset key v []))) in
    (mkStore (st_nodes s ++ [n]) (st_rels s) (S (st_next s)), [st_next s]).

(** The relationship pattern
    [(a)-[:RELATES {type: $relation, dataset: $dataset}]->(b)]. *)
Definition relates_matches (a b : nat) (relation : json) (dataset : string)
    (r : rel) : bool :=
  Nat.eqb (r_src r) a && Nat.eqb (r_dst r) b
  && String.eqb (r_type r) "RELATES"
  && prop_is "type" relation (r_props r)
  && prop_is "dataset" (JStr dataset) (r_props r).

(** [MERGE (a)-[r:RELATES {type: $relation, dataset: $dataset}]->(b)] for
    one row [(a, b)]. *)
Definition merge_relates (a b : nat) (relation : json) (dataset : string)
    (s : Store) : Store * list nat :=
  let hit := relates_matches a b relation dataset in
  if existsb hit (st_rels s) then
    (s, map r_id (filter hit (st_rels s)))
  else
    let r := mkRel (st_next s) a b "RELATES"
               (pset "dataset" (JStr dataset) (pset "type" relation [])) in
    (mkStore (st_nodes s) (st_rels s ++ [r]) (S (st_next s)), [st_next s]).

(** A clause run once per incoming row, the store threaded from row to
    row, the rows it produces concatenated. *)
Fixpoint per_row {A B : Type} (f : A -> Store -> Store * list B)
    (rows : list A) (s : Store) : Store * list B :=
  match rows with
  | [] => (s, [])
  | x :: rest =>
      let (s1, out) := f x s in
      let (s2, out') := per_row f rest s1 in
      (s2, out ++ out')
  end.

(** The statement of [_load_relationship_list_format]:
[[
  MERGE (a:Entity {name: $start_name, dataset: $dataset})
  ON CREATE SET a.type = $start_type, a += $start_props
  ON MATCH SET a += $start_props
  MERGE (b:Entity {name: $end_name, dataset: $dataset})
  ON CREATE SET b.type = $end_type, b += $end_props
  ON MATCH SET b += $end_props
  MERGE (a)-[r:RELATES {type: $relation, dataset: $dataset}]->(b)
  RETURN a, b, r
]] *)
Definition exec_merge_relationship (start_name end_name : json)
    (dataset : string) (start_type end_type : json)
    (start_props end_props : items) (relation : json) (s : Store)
    : Store * list (nat * nat * nat) :=
  let (s1, rows_a) :=
    merge_entity "name" start_name dataset
      (fun p => pupdate start_props (pset "type" start_type p))
      (pupdate start_props) s in
  let (s2, rows_ab) :=
    per_row (fun a s =>
               let (s', bs) :=
                 merge_entity "name" end_name dataset
                   (fun p => pupdate end_props (pset "type" end_type p))
                   (pupdate end_props) s in
               (s', map (pair a) bs))
            rows_a s1 in
  per_row (fun ab s =>
             let (s', rs) :=
               merge_relates (fst ab) (snd ab) relation dataset s in
             (s', map (pair ab) rs))
          rows_ab s2.

(** The node statement of [_load_standard_format]:
[[
  MERGE (n:Entity {id: $id, dataset: $dataset})
  SET n.name = $name, n.type = $type, n.attributes = $attributes
]] *)
Definition exec_merge_node (id name type attributes : json)
    (dataset : string) (s : Store) : Store :=
  let set := fun p =>
    pset "attributes" attributes (pset "type" type (pset "name" name p)) in
  fst (merge_entity "id" id dataset set set s).

Definition set_rel_props (f : props -> props) (r : rel) : rel :=
  mkRel (r_id r) (r_src r) (r_dst r) (r_type r) (f (r_props r)).

(** [SET r.weight = $weight] on the relationships of the given ids. *)
Definition set_weight (weight : json) (ids : list nat) (s : Store) : Store :=
  mkStore (st_nodes s)
    (map (fun r => if existsb (Nat.eqb (r_id r)) ids
                   then set_rel_props (pset "weight" weight) r else r)
         (st_rels s))
    (st_next s).

(** The edge statement of [_load_standard_format]:
[[
  MATCH (a:Entity {id: $source, dataset: $dataset})
  MATCH (b:Entity {id: $target, dataset: $dataset})
  MERGE (a)-[r:RELATES {type: $relation, dataset: $dataset}]->(b)
  SET r.weight = $weight
]]
    The two [MATCH] clauses only read; every pair of matched nodes is a
    row of the [MERGE], and there is no row when either has no match. *)
Definition exec_match_merge_edge (source target relation weight : json)
    (dataset : string) (s : Store) : Store :=
  let rows_a := map n_id (filter (entity_matches "id" source dataset)
                                 (st_nodes s)) in
  let rows_b := map n_id (filter (entity_matches "id" target dataset)
                                 (st_nodes s)) in
  let rows_ab := list_prod rows_a rows_b in
  fst (per_row (fun ab s =>
                  let (s', rs) :=
                    merge_relates (fst ab) (snd ab) relation dataset s in
                  (set_weight weight rs s', rs))
               rows_ab s).

(** The statement of [clear_graph]:
    [MATCH (n {dataset: $dataset}) DETACH DELETE n]. *)
Definition tagged (dataset : string) (p : props) : bool :=
  prop_is "dataset" (JStr dataset) p.

Definition mem_nat (i : nat) (l : list nat) : bool := existsb (Nat.eqb i) l.

Definition exec_clear (dataset : string) (s : Store) : Store :=
  let dead := map n_id (filter (fun n => tagged dataset (n_props n))
                               (st_nodes s)) in
  mkStore
    (filter (fun n => negb (tagged dataset (n_props n))) (st_nodes s))
    (filter (fun r => negb (mem_nat (r_src r) dead || mem_nat (r_dst r) dead))
            (st_rels s))
    (st_next s).

(** The entries of a map parameter. *)
Definition items_of (x : json) : items :=
  match x with JDict d => d | _ => [] end.

(** What a statement does to the store when the server accepts it, and
    how many rows it returns to the caller (the loader only ever asks
    whether there is one, through [result.peek()]). *)
Definition exec (q : query) (s : Store) : Store * nat :=
  match q with
  | QPing => (s, 1%nat)
  | QClear d => (exec_clear d s, 0%nat)
  | QMergeRelationship sn en d st et sp ep r =>
      let (s', rows) :=
        exec_merge_relationship sn en d st et
          (items_of sp) (items_of ep) r s in
      (s', List.length rows)
  | QMergeNode i n t a d => (exec_merge_node i n t a d s, 0%nat)
  | QMatchMergeEdge a b r w d => (exec_match_merge_edge a b r w d s, 0%nat)
  end.

(** ** Python control flow: state, exceptions and a trace *)

(** The exceptions the loader can meet; all are subclasses of
    [Exception]. *)
Inductive exn : Type :=
| RuntimeError
| FileNotFoundError
| JSONDecodeError
| ValueError
| AttributeError
| TypeError
| Neo4jError
| OSError
| UnicodeDecodeError.

Inductive result (A : Type) : Type :=
| Ok (a : A)
| Raise (e : exn).
Arguments Ok {A} a.
Arguments Raise {A} e.

(** The lines [logger.warning] and [logger.error] write.  The
    informational lines are not part of the model. *)
Inductive log_line : Type :=
| ErrorConnect
| ErrorClearing
| ErrorLoad
| WarnRelationship
| WarnNode (node_id : json)
| WarnEdge (source target : json).

(** What a run does, in order: the driver and its sessions opened and
    closed, each statement sent with the store before and after it (or
    the store at which the server refused it), and the log. *)
Inductive event : Type :=
| EvDriverOpen
| EvDriverClose
| EvSessionOpen
| EvSessionClose
| EvRun (q : query) (before after : Store)
| EvRefused (q : query) (at_store : Store)
| EvLog (l : log_line).

(** [Neo4jLoader]: the connection settings and the [driver] attribute,
    [None] until [connect] sets it. *)
Record Neo4jLoader : Type := mkLoader {
  uri : string;
  user : string;
  password : string;
  database : string;
  driver : bool
}.

(** The mutable state a call works on: the loader object and the
    database. *)
Record World : Type := mkWorld {
  self : Neo4jLoader;
  db : Store
}.

Definition M (A : Type) : Type := World -> result A * World * list event.

Definition ret {A : Type} (a : A) : M A := fun w => (Ok a, w, []).

Definition raise {A : Type} (e : exn) : M A := fun w => (Raise e, w, []).

Definition bind {A B : Type} (m : M A) (k : A -> M B) : M B :=
  fun w =>
    match m w with
    | (Ok a, w1, t1) => let '(r, w2, t2) := k a w1 in (r, w2, t1 ++ t2)
    | (Raise e, w1, t1) => (Raise e, w1, t1)
    end.

Declare Scope py_scope.
Delimit Scope py_scope with py.
Notation "x <- m ;; k" := (bind m (fun x => k))
  (at level 100, m at next level, right associativity) : py_scope.
Notation "m ;; k" := (bind m (fun _ => k))
  (at level 100, right associativity) : py_scope.
Local Open Scope py_scope.

Definition emit (e : event) : M unit := fun w => (Ok tt, w, [e]).

Definition log (l : log_line) : M unit := emit (EvLog l).

(** [try: body except Exception as e: handler(e)]. *)
Definition try_except {A : Type} (body : M A) (handler : exn -> M A) : M A :=
  fun w =>
    match body w with
    | (Ok a, w1, t1) => (Ok a, w1, t1)
    | (Raise e, w1, t1) =>
        let '(r, w2, t2) := handler e w1 in (r, w2, t1 ++ t2)
    end.

(** [try: body finally: cleanup]: the cleanup runs on every exit of the
    body; the body's outcome stands unless the cleanup itself raises. *)
Definition try_finally {A : Type} (body : M A) (cleanup : M unit) : M A :=
  fun w =>
    let '(r, w1, t1) := body w in
    match cleanup w1 with
    | (Ok _, w2, t2) => (r, w2, t1 ++ t2)
    | (Raise e, w2, t2) => (Raise e, w2, t1 ++ t2)
    end.

(** [for x in xs: acc = body(x, acc)], where [continue] is [ret acc]. *)
Fixpoint for_each {A C : Type} (body : A -> C -> M C) (xs : list A) (acc : C)
    : M C :=
  match xs with
  | [] => ret acc
  | x :: rest => acc' <- body x acc ;; for_each body rest acc'
  end.

(** [x.get(k, default)]: only a dict has the method. *)
Definition py_get (x : json) (k : string) (default : json) : M json :=
  match x with
  | JDict d => ret (dict_get d k default)
  | _ => raise AttributeError
  end.

(** [len(x)]. *)
Definition py_len (x : json) : M Z :=
  match x with
  | JList l => ret (Z.of_nat (List.length l))
  | JDict d => ret (Z.of_nat (List.length d))
  | JStr s => ret (Z.of_nat (String.length s))
  | _ => raise TypeError
  end.

(** The elements [for x in xs] visits: the items of a list, the keys of a
    dict, the characters of a string. *)
Definition py_iter (xs : json) : M (list json) :=
  match xs with
  | JList l => ret l
  | JDict d => ret (map (fun kv => JStr (fst kv)) d)
  | JStr s => ret (map (fun c => JStr (String c "")) (list_ascii_of_string s))
  | _ => raise TypeError
  end.

(** The float [1.0]. *)
Definition float_one : spec_float := S754_finite false 4503599627370496 (-52).

(** The dict the two ingesters return. *)
Definition stats (nodes_created relationships_created : Z) (format : string)
    : json :=
  JDict [("nodes_created", JInt nodes_created);
         ("relationships_created", JInt relationships_created);
         ("format", JStr format)].

(** ** The loader *)

(** What [os.path.exists], [open] and [json.load] find at a path: nothing;
    text that is not JSON; a JSON document; or a file that exists and
    whose opening or reading raises [e] ([OSError] for a directory or a
    file without read permission, [UnicodeDecodeError] for bytes that are
    not UTF-8). *)
Inductive file_state : Type :=
| FileAbsent
| FileMalformed
| FileDecoded (graph_data : json)
| FileUnreadable (e : exn).

Section Loader.

(** The collaborators: whether the server refuses a statement at a given
    store (a constraint violation, a value it cannot store, a lost
    connection), whether [GraphDatabase.driver] raises for the loader's
    settings, and the file system. *)
Variable storage_refuses : Store -> query -> bool.
Variable driver_fails : Neo4jLoader -> bool.
Variable read_file : string -> file_state.

(** [session.run(statement, parameters)].  A refused statement raises and
    leaves the store as it was (each [run] is its own transaction). *)
Definition session_run (q : query) : M nat :=
  fun w =>
    if storage_refuses (db w) q then
      (Raise Neo4jError, w, [EvRefused q (db w)])
    else
      let (s', rows) := exec q (db w) in
      (Ok rows, mkWorld (self w) s', [EvRun q (db w) s']).

(** [with self.driver.session(database=self.database) as session: body].
    The session is closed when the block is left, normally or by an
    exception; [None] has no [session] attribute. *)
Definition with_session {A : Type} (body : M A) : M A :=
  fun w =>
    if driver (self w) then
      let '(r, w1, t) := body w in
      (r, w1, EvSessionOpen :: t ++ [EvSessionClose])
    else (Raise AttributeError, w, []).

(** [self.driver = GraphDatabase.driver(self.uri, auth=...)]. *)
Definition new_driver : M unit :=
  fun w =>
    if driver_fails (self w) then (Raise Neo4jError, w, [])
    else
      let l := self w in
      (Ok tt,
       mkWorld (mkLoader (uri l) (user l) (password l) (database l) true)
               (db w),
       [EvDriverOpen]).

Definition connect : M bool :=
  try_except
    (new_driver ;;
     with_session (session_run QPing) ;;
     ret true)
    (fun _ => log ErrorConnect ;; ret false).

Definition close : M unit :=
  fun w => if driver (self w) then emit EvDriverClose w else ret tt w.

Definition require_driver : M unit :=
  fun w => if driver (self w) then ret tt w else raise RuntimeError w.

Definition clear_graph (dataset_name : string) : M unit :=
  require_driver ;;
  try_except
    (with_session (session_run (QClear dataset_name)) ;; ret tt)
    (fun e => log ErrorClearing ;; raise e).

(** The body of the loop of [_load_relationship_list_format]; the
    accumulator is [(nodes_created, relationships_created)]. *)
Definition relationship_item (dataset_name : string) (item : json)
    (acc : Z * Z) : M (Z * Z) :=
  if negb (is_dict item) then ret acc
  else
    start_node <- py_get item "start_node" (JDict []) ;;
    end_node <- py_get item "end_node" (JDict []) ;;
    relation <- py_get item "relation" (JStr "RELATED_TO") ;;
    start_props <- py_get start_node "properties" (JDict []) ;;
    end_props <- py_get end_node "properties" (JDict []) ;;
    start_name <- py_get start_props "name" (JStr "") ;;
    end_name <- py_get end_props "name" (JStr "") ;;
    if negb (truthy start_name) || negb (truthy end_name) then ret acc
    else
      start_label <- py_get start_node "label" (JStr "Entity") ;;
      start_type <- py_get start_props "schema_type" start_label ;;
      end_label <- py_get end_node "label" (JStr "Entity") ;;
      end_type <- py_get end_props "schema_type" end_label ;;
      try_except
        (rows <- session_run
                   (QMergeRelationship start_name end_name dataset_name
                      start_type end_type start_props end_props relation) ;;
         if (0 <? rows)%nat then ret (fst acc + 2, snd acc + 1)
         else ret acc)
        (fun _ => log WarnRelationship ;; ret acc).

Definition _load_relationship_list_format (graph_data : list json)
    (dataset_name : string) : M json :=
  acc <- with_session
           (for_each (relationship_item dataset_name) graph_data (0, 0)) ;;
  ret (stats (fst acc) (snd acc) "relationship_list").

(** The bodies of the two loops of [_load_standard_format]. *)
Definition node_item (dataset_name : string) (node : json)
    (nodes_created : Z) : M Z :=
  node_id <- py_get node "id" (JStr "") ;;
  name <- py_get node "name" node_id ;;
  node_type <- py_get node "type" (JStr "Entity") ;;
  attributes <- py_get node "attributes" (JList []) ;;
  if negb (truthy node_id) then ret nodes_created
  else
    try_except
      (session_run
         (QMergeNode node_id name node_type attributes dataset_name) ;;
       ret (nodes_created + 1))
      (fun _ => log (WarnNode node_id) ;; ret nodes_created).

Definition edge_item (dataset_name : string) (edge : json)
    (relationships_created : Z) : M Z :=
  source <- py_get edge "source" (JStr "") ;;
  target <- py_get edge "target" (JStr "") ;;
  relation <- py_get edge "relation" (JStr "RELATED_TO") ;;
  weight <- py_get edge "weight" (JFloat float_one) ;;
  if negb (truthy source) || negb (truthy target) then ret relationships_created
  else
    try_except
      (session_run
         (QMatchMergeEdge source target relation weight dataset_name) ;;
       ret (relationships_created + 1))
      (fun _ => log (WarnEdge source target) ;; ret relationships_created).

Definition _load_standard_format (graph_data : items) (dataset_name : string)
    : M json :=
  let nodes := dict_get graph_data "nodes" (JList []) in
  let edges := dict_get graph_data "edges" (JList []) in
  py_len nodes ;;
  py_len edges ;;
  acc <- with_session
           (node_list <- py_iter nodes ;;
            nodes_created <- for_each (node_item dataset_name) node_list 0 ;;
            edge_list <- py_iter edges ;;
            relationships_created <-
              for_each (edge_item dataset_name) edge_list 0 ;;
            ret (nodes_created, relationships_created)) ;;
  ret (stats (fst acc) (snd acc) "standard").

Definition load_graph_from_json (graph_path dataset_name : string)
    (clear_existing : bool) : M json :=
  require_driver ;;
  match read_file graph_path with
  | FileAbsent => raise FileNotFoundError
  | FileMalformed => raise JSONDecodeError
  | FileUnreadable e => raise e
  | FileDecoded graph_data =>
      (if clear_existing then clear_graph dataset_name else ret tt) ;;
      match graph_data with
      | JList l => _load_relationship_list_format l dataset_name
      | JDict d =>
          if dict_mem "nodes" d then _load_standard_format d dataset_name
          else raise ValueError
      | _ => raise ValueError
      end
  end.

(** The module-level function.  It builds its own loader, so that a call
    is a function of the database alone. *)
Definition load_graph_to_neo4j (graph_path dataset_name : string)
    (uri user password database : string) (clear_existing : bool)
    (s : Store) : result (option json) * Store * list event :=
  let loader := mkLoader uri user password database false in
  let '(r, w, t) :=
    try_finally
      (try_except
         (connected <- connect ;;
          if negb connected then ret None
          else
            stats <- load_graph_from_json graph_path dataset_name
                       clear_existing ;;
            ret (Some stats))
         (fun _ => log ErrorLoad ;; ret None))
      close
      (mkWorld loader s) in
  (r, db w, t).

End Loader.

(** ** Vocabulary of the properties *)

(** A server that accepts every statement, a driver that always opens. *)
Definition accepts_all (s : Store) (q : query) : bool := false.

Definition driver_opens (l : Neo4jLoader) : bool := false.

(** The node descriptors of a relationship record, as the loop reads
    them, and what makes the record one of the data model: both
    descriptors (when given) are mappings whose [properties] (when given)
    is a mapping. *)
Definition start_of (d : items) : json := dict_get d "start_node" (JDict []).

Definition end_of (d : items) : json := dict_get d "end_node" (JDict []).

Definition properties_of (descriptor : json) : json :=
  dict_get (items_of descriptor) "properties" (JDict []).

Definition name_of (descriptor : json) : json :=
  dict_get (items_of (properties_of descriptor)) "name" (JStr "").

Definition is_descriptor (x : json) : bool :=
  is_dict x && is_dict (properties_of x).

(** A loop survives refused statements: it never raises the server's
    error, and a record whose statement is refused after the batch [xs]
    leaves accumulator and world as they were, adds the refusal and one
    warning to the trace, and is followed by the rest of the batch. *)
Definition survives_refusals {A C : Type} (body : A -> C -> M C)
    (warns : log_line -> Prop) : Prop :=
  (forall xs acc w, fst (fst (for_each body xs acc w)) <> Raise Neo4jError)
  /\
  (forall xs x ys acc w acc1 w1 t1 q s,
     for_each body xs acc w = (Ok acc1, w1, t1) ->
     In (EvRefused q s) (snd (body x acc1 w1)) ->
     exists l,
       warns l
       /\ body x acc1 w1 = (Ok acc1, w1, [EvRefused q (db w1); EvLog l])
       /\ for_each body (xs ++ x :: ys) acc w
          = (let '(r, w2, t2) := for_each body ys acc1 w1 in
             (r, w2, t1 ++ [EvRefused q (db w1); EvLog l] ++ t2))).

(** A loader object after a successful [connect]. *)
Definition connected_loader : Neo4jLoader :=
  mkLoader "bolt://localhost:7687" "neo4j" "password" "neo4j" true.

(** The documents of the scenarios. *)
Definition alice : json :=
  JDict [("id", JStr "1"); ("name", JStr "Alice")].

Definition alice_knows_99 : json :=
  JDict [("source", JStr "1"); ("target", JStr "99");
         ("relation", JStr "knows")].

Definition alice_graph : json :=
  JDict [("nodes", JList [alice]); ("edges", JList [alice_knows_99])].

(** The standard-format scenario with both endpoints present. *)
Definition friends : items :=
  [("nodes",
    JList [JDict [("id", JStr "1"); ("name", JStr "Alice");
                  ("type", JStr "person")];
           JDict [("id", JStr "2"); ("name", JStr "Bob");
                  ("type", JStr "person")]]);
   ("edges",
    JList [JDict [("source", JStr "1"); ("target", JStr "2");
                  ("relation", JStr "knows");
                  ("weight",
                   JFloat (S754_finite false 4503599627370496 (-51)))]])].

(** A server that refuses the node statement for id ["1"] and nothing
    else. *)
Definition refuses_node_1 (s : Store) (q : query) : bool :=
  match q with
  | QMergeNode (JStr "1") _ _ _ _ => true
  | _ => false
  end.

Definition bob : json := JDict [("id", JStr "2"); ("name", JStr "Bob")].

Definition nameless_start : items :=
  [("start_node", JDict [("properties", JDict [("name", JStr "")])]);
   ("end_node", JDict [("properties", JDict [("name", JStr "B")])])].

(** A relationship record whose start name is empty and whose [end_node]
    is [null]. *)
Definition empty_start_null_end : items :=
  [("start_node", JDict [("properties", JDict [("name", JStr "")])]);
   ("end_node", JNull)].

Definition a_in_b : json :=
  JDict [("start_node",
          JDict [("label", JStr "entity");
                 ("properties",
                  JDict [("name", JStr "A"); ("schema_type", JStr "person")])]);
         ("end_node",
          JDict [("label", JStr "entity");
                 ("properties",
                  JDict [("name", JStr "B");
                         ("schema_type", JStr "location")])]);
         ("relation", JStr "located_in")].

(** A decoded document of neither known shape. *)
Definition unknown_format (graph_data : json) : bool :=
  match graph_data with
  | JList _ => false
  | JDict d => negb (dict_mem "nodes" d)
  | _ => true
  end.

(** A database holding one node of dataset ["demo"]. *)
Definition demo_store : Store :=
  mkStore [mkNode 0 ["Entity"] [("name", JStr "A"); ("dataset", JStr "demo")]]
          [] 1.

(** A relationship record whose start properties carry a [dataset] key of
    their own. *)
Definition retagging_record : json :=
  JDict [("start_node",
          JDict [("properties",
                  JDict [("name", JStr "x"); ("dataset", JStr "A")])]);
         ("end_node", JDict [("properties", JDict [("name", JStr "y")])]);
         ("relation", JStr "r")].

(** Two nodes with the same name, one in dataset ["A"], one in ["B"]. *)
Definition two_dataset_store : Store :=
  mkStore
    [mkNode 0 ["Entity"] [("name", JStr "x"); ("dataset", JStr "A")];
     mkNode 1 ["Entity"] [("name", JStr "x"); ("dataset", JStr "B")]]
    [] 2.

(** The database after [retagging_record] has been loaded, from empty,
    into dataset ["B"]. *)
Definition retagged_store : Store :=
  db (snd (fst (_load_relationship_list_format accepts_all
                  [retagging_record] "B"
                  (mkWorld connected_loader empty_store)))).

(** The connection as a trace drives it: whether the driver is open and
    how many sessions are.  A driver is opened when none is, sessions are
    opened on an open driver and closed when open, statements are sent in
    an open session, and the driver is closed with no session left; any
    other event order has no next state. *)
Definition conn_step (c : bool * nat) (e : event) : option (bool * nat) :=
  match e, c with
  | EvDriverOpen, (false, O) => Some (true, O)
  | EvDriverClose, (true, O) => Some (false, O)
  | EvSessionOpen, (true, n) => Some (true, S n)
  | EvSessionClose, (true, S n) => Some (true, n)
  | EvRun _ _ _, (true, S n) => Some (true, S n)
  | EvRefused _ _, (true, S n) => Some (true, S n)
  | EvLog _, _ => Some c
  | _, _ => None
  end.

Fixpoint conn_run (c : bool * nat) (t : list event) : option (bool * nat) :=
  match t with
  | [] => Some c
  | e :: t' =>
      match conn_step c e with
      | Some c' => conn_run c' t'
      | None => None
      end
  end.

(** Traces that leave an open driver as they found it: [inside] a
    session, and [neutral] between sessions. *)
Definition inside (t : list event) : Prop :=
  forall n, conn_run (true, S n) t = Some (true, S n).

Definition neutral (t : list event) : Prop :=
  forall n, conn_run (true, n) t = Some (true, n).

(** A computation that leaves the loader object alone and whose trace
    satisfies [P]. *)
Definition keeps {A : Type} (P : list event -> Prop) (m : M A) : Prop :=
  forall w, self (snd (fst (m w))) = self w /\ P (snd (m w)).

(** What an edge statement may leave in the store [s'] when run at [s]:
    the nodes are those of [s], and every relationship either was in [s]
    (its properties apart) or joins two nodes stored in [s] that match the
    statement's source and target patterns for the dataset. *)
Definition same_edge (r0 r : rel) : Prop :=
  r_id r0 = r_id r /\ r_src r0 = r_src r /\ r_dst r0 = r_dst r
  /\ r_type r0 = r_type r.

Definition edge_joins_stored_nodes (source target : json) (dataset : string)
    (s s' : Store) : Prop :=
  st_nodes s' = st_nodes s
  /\ forall r, In r (st_rels s') ->
       (exists r0, In r0 (st_rels s) /\ same_edge r0 r)
       \/ (exists a b,
              In a (st_nodes s) /\ In b (st_nodes s)
              /\ n_id a = r_src r /\ n_id b = r_dst r
              /\ entity_matches "id" source dataset a = true
              /\ entity_matches "id" target dataset b = true).

(** The values [len] and [for] accept. *)
Definition sized (x : json) : bool :=
  match x with
  | JList _ | JDict _ | JStr _ => true
  | _ => false
  end.

(** A well-formed relationship record, after the data model: the two node
    descriptors and their property maps are mappings (when given), the
    names and the relation are strings (when given).  Elements that are
    not mappings are passed over by the loop and need no shape. *)
Definition is_str (x : json) : bool :=
  match x with JStr _ => true | _ => false end.

Definition well_formed_record (item : json) : bool :=
  match item with
  | JDict d =>
      is_descriptor (start_of d) && is_descriptor (end_of d)
      && is_str (name_of (start_of d)) && is_str (name_of (end_of d))
      && is_str (dict_get d "relation" (JStr "RELATED_TO"))
  | _ => true
  end.

(** A property map that leaves the dataset tag of a node of [dataset]
    alone: it has no [dataset] key, or maps it to [dataset] itself. *)
Definition keeps_tag (dataset : string) (m : items) : bool :=
  match assoc "dataset" m with
  | None => true
  | Some v => json_eqb v (JStr dataset)
  end.

Definition keeps_tags (dataset : string) (item : json) : bool :=
  match item with
  | JDict d =>
      keeps_tag dataset (items_of (properties_of (start_of d)))
      && keeps_tag dataset (items_of (properties_of (end_of d)))
  | _ => true
  end.

(** The statement a well-formed record sends, if it is not passed over. *)
Definition query_of (dataset_name : string) (item : json) : option query :=
  match item with
  | JDict d =>
      let start_node := start_of d in
      let end_node := end_of d in
      let start_props := properties_of start_node in
      let end_props := properties_of end_node in
      if negb (truthy (name_of start_node)) || negb (truthy (name_of end_node))
      then None
      else
        Some (QMergeRelationship (name_of start_node) (name_of end_node)
                dataset_name
                (dict_get (items_of start_props) "schema_type"
                   (dict_get (items_of start_node) "label" (JStr "Entity")))
                (dict_get (items_of end_props) "schema_type"
                   (dict_get (items_of end_node) "label" (JStr "Entity")))
                start_props end_props
                (dict_get d "relation" (JStr "RELATED_TO")))
  | _ => None
  end.

(** The statements of well-formed, tag-keeping records: string names that
    are also the [name] entries of the two property maps, a string
    relation. *)
Inductive good_query (dataset : string)
    : query -> string -> string -> string -> Prop :=
| good_query_intro (a b r : string) (st et : json) (sp ep : items) :
    assoc "name" sp = Some (JStr a) ->
    assoc "name" ep = Some (JStr b) ->
    keeps_tag dataset sp = true ->
    keeps_tag dataset ep = true ->
    good_query dataset
      (QMergeRelationship (JStr a) (JStr b) dataset st et
         (JDict sp) (JDict ep) (JStr r))
      a b r.

(** The ids of the nodes the pattern
    [(:Entity {name: $name, dataset: $dataset})] matches. *)
Definition named_ids (dataset name : string) (s : Store) : list nat :=
  map n_id (filter (entity_matches "name" (JStr name) dataset) (st_nodes s)).

(** A relationship record is settled in a store when both its endpoints
    have matching nodes and every pair of them is joined by a matching
    relationship: merging it again finds everything in place. *)
Definition settled (dataset a b r : string) (s : Store) : Prop :=
  named_ids dataset a s <> []
  /\ named_ids dataset b s <> []
  /\ forall i j,
       In i (named_ids dataset a s) -> In j (named_ids dataset b s) ->
       existsb (relates_matches i j (JStr r) dataset) (st_rels s) = true.

(** ** What one iteration can do *)

Section Outcome.

Variable storage_refuses : Store -> query -> bool.
Variable dataset_name : string.

(** The four ways an iteration of any of the three loops ends: it passes
    over the record, it raises while reading it, its statement is refused
    (caught, logged, accumulator kept), or its statement is run. *)
Inductive item_outcome {C : Type} (sends : query -> Prop)
    (warns : log_line -> Prop) (acc : C) (w : World)
    : result C * World * list event -> Prop :=
| out_skip : item_outcome sends warns acc w (Ok acc, w, [])
| out_raise (e : exn) :
    e <> Neo4jError -> item_outcome sends warns acc w (Raise e, w, [])
| out_refused (q : query) (l : log_line) :
    sends q -> warns l -> storage_refuses (db w) q = true ->
    item_outcome sends warns acc w
      (Ok acc, w, [EvRefused q (db w); EvLog l])
| out_run (q : query) (acc' : C) :
    sends q -> storage_refuses (db w) q = false ->
    item_outcome sends warns acc w
      (Ok acc', mkWorld (self w) (fst (exec q (db w))),
       [EvRun q (db w) (fst (exec q (db w)))]).

Definition is_merge_relationship (q : query) : Prop :=
  match q with
  | QMergeRelationship _ _ d _ _ _ _ _ => d = dataset_name
  | _ => False
  end.

Definition is_merge_node (q : query) : Prop :=
  match q with QMergeNode _ _ _ _ d => d = dataset_name | _ => False end.

Definition is_match_merge_edge (q : query) : Prop :=
  match q with
  | QMatchMergeEdge _ _ _ _ d => d = dataset_name
  | _ => False
  end.

Definition is_warn_node (l : log_line) : Prop :=
  match l with WarnNode _ => True | _ => False end.

Definition is_warn_edge (l : log_line) : Prop :=
  match l with WarnEdge _ _ => True | _ => False end.

(** The three ways the iteration of a well-formed record ends. *)
Inductive record_step (item : json) (acc : Z * Z) (w : World)
    : result (Z * Z) * World * list event -> Prop :=
| step_skip :
    query_of dataset_name item = None ->
    record_step item acc w (Ok acc, w, [])
| step_refused (q : query) :
    query_of dataset_name item = Some q ->
    record_step item acc w
      (Ok acc, w, [EvRefused q (db w); EvLog WarnRelationship])
| step_run (q : query) (a b r : string) (acc' : Z * Z) :
    query_of dataset_name item = Some q ->
    good_query dataset_name q a b r ->
    record_step item acc w
      (Ok acc', mkWorld (self w) (fst (exec q (db w))),
       [EvRun q (db w) (fst (exec q (db w)))]).

End Outcome.

(** An event a loop body may produce: a statement of the loop's kind, run
    or refused, or a log line. *)
Definition statement_event (sends : query -> Prop) (e : event) : Prop :=
  match e with
  | EvRun q s s' => sends q /\ s' = fst (exec q s)
  | EvRefused q _ => sends q
  | EvLog _ => True
  | _ => False
  end.

(** A record the idempotence theorem is about. *)
Definition loadable (dataset_name : string) (item : json) : Prop :=
  well_formed_record item = true /\ keeps_tags dataset_name item = true.

(** ** The clauses of the relationship statement, one by one *)

(** [MERGE (x:Entity {name: $a, dataset: $dataset}) ON CREATE SET
    x.type = $t, x += $m ON MATCH SET x += $m]. *)
Definition merge_named (dataset a : string) (t : json) (m : items)
    (s : Store) : Store * list nat :=
  merge_entity "name" (JStr a) dataset
    (fun p => pupdate m (pset "type" t p)) (pupdate m) s.

(** The second [MERGE], run for the row of one start node. *)
Definition merge_end_row (dataset b : string) (t : json) (m : items)
    (a : nat) (s : Store) : Store * list (nat * nat) :=
  let (s', bs) := merge_named dataset b t m s in (s', map (pair a) bs).

(** The third [MERGE], run for one row. *)
Definition merge_relates_row (dataset r : string) (ab : nat * nat)
    (s : Store) : Store * list (nat * nat * nat) :=
  let (s', rs) := merge_relates (fst ab) (snd ab) (JStr r) dataset s in
  (s', map (pair ab) rs).

(** The [MERGE ... SET r.weight] of the edge statement, run for one row,
    and what its rows leave: the nodes of [s0], and relationships that
    were in [s0] or join the endpoints of a row. *)
Definition merge_edge_row (relation weight : json) (dataset : string)
    (ab : nat * nat) (s : Store) : Store * list nat :=
  let (s', rs) := merge_relates (fst ab) (snd ab) relation dataset s in
  (set_weight weight rs s', rs).

Definition rows_invariant (s0 : Store) (rows : list (nat * nat)) (s : Store)
    : Prop :=
  st_nodes s = st_nodes s0
  /\ forall r, In r (st_rels s) ->
       (exists r0, In r0 (st_rels s0) /\ same_edge r0 r)
       \/ In (r_src r, r_dst r) rows.

(** ** The command-line entry point *)


Section Main.

Variable storage_refuses : Store -> query -> bool.
Variable driver_fails : Neo4jLoader -> bool.
Variable read_file : string -> file_state.

(** The environment after [load_dotenv()]. *)
Variable environ : string -> option string.




End Main.

(** ** Vocabulary of the further properties *)

(** The dataset a statement is scoped to; the test statement has none. *)
Definition query_dataset (q : query) : option string :=
  match q with
  | QPing => None
  | QClear d => Some d
  | QMergeRelationship _ _ d _ _ _ _ _ => Some d
  | QMergeNode _ _ _ _ d => Some d
  | QMatchMergeEdge _ _ _ _ d => Some d
  end.

Definition is_clear (q : query) : bool :=
  match q with QClear _ => true | _ => false end.

(** The store a trace leads to: each statement that ran, run again in
    order; refusals, log lines and connection events change nothing. *)
Fixpoint replay (s : Store) (t : list event) : Store :=
  match t with
  | [] => s
  | EvRun q _ _ :: t' => replay (fst (exec q s)) t'
  | _ :: t' => replay s t'
  end.

(** A trace whose statements were each sent at the store the trace had
    reached, and recorded with the store they produced. *)
Fixpoint faithful (s : Store) (t : list event) : Prop :=
  match t with
  | [] => True
  | EvRun q before after :: t' =>
      before = s /\ after = fst (exec q s) /\ faithful after t'
  | EvRefused q at_store :: t' => at_store = s /\ faithful s t'
  | _ :: t' => faithful s t'
  end.

(** The statements of a trace, sent or refused. *)
Definition event_query (e : event) : option query :=
  match e with
  | EvRun q _ _ => Some q
  | EvRefused q _ => Some q
  | _ => None
  end.

(** Every statement of the trace satisfies [allowed]. *)
Definition sends_only (allowed : query -> Prop) (t : list event) : Prop :=
  Forall (fun e => match event_query e with
                   | Some q => allowed q
                   | None => True
                   end) t.

(** A statement scoped to [dataset], or to nothing. *)
Definition scoped_to (dataset : string) (q : query) : Prop :=
  match query_dataset q with
  | Some d => d = dataset
  | None => True
  end.

(** A computation whose trace is faithful, leads to the store the
    computation leaves, and holds only [allowed] statements. *)
Definition tracks {A : Type} (allowed : query -> Prop) (m : M A) : Prop :=
  forall w,
    faithful (db w) (snd (m w))
    /\ replay (db w) (snd (m w)) = db (snd (fst (m w)))
    /\ sends_only allowed (snd (m w)).

(** The statements a call of [load_graph_from_json] may send: scoped to
    its dataset, and a clear only when [clear_existing] is set. *)
Definition load_statement (dataset : string) (clear_existing : bool)
    (q : query) : Prop :=
  query_dataset q = Some dataset
  /\ (is_clear q = true -> clear_existing = true).

(** The number of statements of a kind that ran. *)
Fixpoint count_runs (kind : query -> bool) (t : list event) : nat :=
  match t with
  | [] => O
  | EvRun q _ _ :: t' =>
      if kind q then S (count_runs kind t') else count_runs kind t'
  | _ :: t' => count_runs kind t'
  end.

Definition is_relationship_query (q : query) : bool :=
  match q with QMergeRelationship _ _ _ _ _ _ _ _ => true | _ => false end.

Definition is_node_query (q : query) : bool :=
  match q with QMergeNode _ _ _ _ _ => true | _ => false end.

Definition is_edge_query (q : query) : bool :=
  match q with QMatchMergeEdge _ _ _ _ _ => true | _ => false end.

(** A computation that, when it returns, has added to the accumulator the
    number of statements of a kind it ran, at most [bound]. *)
Definition counts_step {C : Type} (kind : query -> bool)
    (add : C -> nat -> C) (acc : C) (out : result C * World * list event)
    (bound : nat) : Prop :=
  match out with
  | (Ok acc', _, t) =>
      acc' = add acc (count_runs kind t) /\ (count_runs kind t <= bound)%nat
  | (Raise _, _, _) => True
  end.

(** How the two ingesters advance their counters. *)
Definition add_pair (acc : Z * Z) (n : nat) : Z * Z :=
  (fst acc + 2 * Z.of_nat n, snd acc + Z.of_nat n).

Definition add_one (acc : Z) (n : nat) : Z := acc + Z.of_nat n.

(** What [SET x.k = v] leaves under [k]. *)
Definition stored (v : json) : option json :=
  match v with JNull => None | _ => Some v end.

(** The ids of the nodes the pattern
    [(:Entity {id: $id, dataset: $dataset})] matches. *)
Definition id_ids (dataset id : string) (s : Store) : list nat :=
  map n_id (filter (entity_matches "id" (JStr id) dataset) (st_nodes s)).

(** The [SET] clause of the node statement. *)
Definition set_node (name type attributes : json) (p : props) : props :=
  pset "attributes" attributes (pset "type" type (pset "name" name p)).

(** Whether a relationship matching
    [(x)-[:RELATES {type: $r, dataset: $dataset}]->(y)] is stored. *)
Definition has_rel (dataset : string) (x y : nat) (r : string) (s : Store)
    : bool :=
  existsb (relates_matches x y (JStr r) dataset) (st_rels s).

(** An edge record is settled in a store when every pair of nodes its
    two [MATCH] clauses find is joined by a matching relationship. *)
Definition edge_settled (dataset a b r : string) (s : Store) : Prop :=
  forall x y,
    In x (id_ids dataset a s) -> In y (id_ids dataset b s) ->
    has_rel dataset x y r s = true.

(** Two stores in which the statements of the standard ingester find the
    same nodes and the same relationships, and which hold as many of
    each. *)
Definition steady (dataset : string) (s s' : Store) : Prop :=
  (forall j, id_ids dataset j s' = id_ids dataset j s)
  /\ List.length (st_nodes s') = List.length (st_nodes s)
  /\ (forall x y r, has_rel dataset x y r s' = has_rel dataset x y r s)
  /\ List.length (st_rels s') = List.length (st_rels s).

(** The statements a well-formed node or edge record sends, if it is not
    passed over. *)
Definition node_query (dataset_name : string) (node : json) : option query :=
  match node with
  | JDict d =>
      let node_id := dict_get d "id" (JStr "") in
      if negb (truthy node_id) then None
      else Some (QMergeNode node_id (dict_get d "name" node_id)
                   (dict_get d "type" (JStr "Entity"))
                   (dict_get d "attributes" (JList [])) dataset_name)
  | _ => None
  end.

Definition edge_query (dataset_name : string) (edge : json) : option query :=
  match edge with
  | JDict d =>
      let source := dict_get d "source" (JStr "") in
      let target := dict_get d "target" (JStr "") in
      if negb (truthy source) || negb (truthy target) then None
      else Some (QMatchMergeEdge source target
                   (dict_get d "relation" (JStr "RELATED_TO"))
                   (dict_get d "weight" (JFloat float_one)) dataset_name)
  | _ => None
  end.

(** Well-formed records of the standard shape: mappings whose identity
    fields and relation are strings (when given). *)
Definition well_formed_node (node : json) : bool :=
  match node with
  | JDict d => is_str (dict_get d "id" (JStr ""))
  | _ => false
  end.

Definition well_formed_edge (edge : json) : bool :=
  match edge with
  | JDict d =>
      is_str (dict_get d "source" (JStr ""))
      && is_str (dict_get d "target" (JStr ""))
      && is_str (dict_get d "relation" (JStr "RELATED_TO"))
  | _ => false
  end.

(** When a statement of the standard ingester is settled in a store:
    a node statement when its id is stored for the dataset, an edge
    statement when [edge_settled]. *)
Definition standard_settled (dataset : string) (q : query) (s : Store)
    : Prop :=
  match q with
  | QMergeNode (JStr i) _ _ _ d => d = dataset /\ id_ids dataset i s <> []
  | QMatchMergeEdge (JStr a) (JStr b) (JStr r) _ d =>
      d = dataset /\ edge_settled dataset a b r s
  | _ => False
  end.

(** The three ways the iteration of a well-formed record of either loop
    ends; [query_of] gives the record's statement. *)
Inductive phase_step {A C : Type} (query_of : A -> option query)
    (x : A) (acc : C) (w : World)
    : result C * World * list event -> Prop :=
| phase_skip :
    query_of x = None -> phase_step query_of x acc w (Ok acc, w, [])
| phase_refused (q : query) (l : log_line) :
    query_of x = Some q ->
    phase_step query_of x acc w
      (Ok acc, w, [EvRefused q (db w); EvLog l])
| phase_run (q : query) (acc' : C) :
    query_of x = Some q ->
    phase_step query_of x acc w
      (Ok acc', mkWorld (self w) (fst (exec q (db w))),
       [EvRun q (db w) (fst (exec q (db w)))]).

(** Every node of [s] that is not tagged with [dataset] is a node of
    [s'], unchanged. *)
Definition others_kept (dataset : string) (s s' : Store) : Prop :=
  forall n, In n (st_nodes s) -> tagged dataset (n_props n) = false ->
            In n (st_nodes s').

(** Nothing of [s] is deleted in [s']: its nodes and relationships are
    still there, in place, with their ids and endpoints; only properties
    may differ and new nodes and relationships may follow. *)
Definition rel_frame (r : rel) : nat * nat * nat * string :=
  (r_id r, r_src r, r_dst r, r_type r).

Definition grows (s s' : Store) : Prop :=
  (exists more, map n_id (st_nodes s') = map n_id (st_nodes s) ++ more)
  /\ (exists more,
        map rel_frame (st_rels s') = map rel_frame (st_rels s) ++ more).

(** ** The scenarios of the specification, run *)

Example relationship_list_scenario :
  let '(r, w, t) :=
    _load_relationship_list_format accepts_all [a_in_b] "demo"
      (mkWorld connected_loader empty_store) in
  r = Ok (stats 2 1 "relationship_list")
  /\ map (fun n => (pget "name" (n_props n), pget "type" (n_props n)))
         (st_nodes (db w))
     = [(Some (JStr "A"), Some (JStr "person"));
        (Some (JStr "B"), Some (JStr "location"))]
  /\ map (fun e => (r_src e, r_dst e, pget "type" (r_props e)))
         (st_rels (db w))
     = [(0%nat, 1%nat, Some (JStr "located_in"))].
Proof. vm_compute. repeat split. Qed.

Example standard_scenario :
  let '(r, w, t) :=
    _load_standard_format accepts_all friends "demo2"
      (mkWorld connected_loader empty_store) in
  r = Ok (stats 2 1 "standard")
  /\ List.length (st_nodes (db w)) = 2%nat
  /\ map (fun e => (r_src e, r_dst e, pget "type" (r_props e)))
         (st_rels (db w))
     = [(0%nat, 1%nat, Some (JStr "knows"))].
Proof. vm_compute. repeat split. Qed.

(** ** Laws of the control-flow combinators *)

Lemma bind_ret_l {A B : Type} (a : A) (k : A -> M B) (w : World) :
  bind (ret a) k w = k a w.
Proof.
  unfold bind, ret. destruct (k a w) as [[r w2] t2]. reflexivity.
Qed.

Lemma bind_assoc {A B C : Type} (m : M A) (k : A -> M B) (h : B -> M C)
    (w : World) :
  bind (bind m k) h w = bind m (fun a => bind (k a) h) w.
Proof.
  unfold bind. destruct (m w) as [[[a|e] w1] t1]; [|reflexivity].
  destruct (k a w1) as [[[b|e] w2] t2]; [|reflexivity].
  destruct (h b w2) as [[r w3] t3]. now rewrite app_assoc.
Qed.

Lemma bind_ext {A B : Type} (m : M A) (k1 k2 : A -> M B) (w : World) :
  (forall a w', k1 a w' = k2 a w') -> bind m k1 w = bind m k2 w.
Proof.
  intros H. unfold bind. destruct (m w) as [[[a|e] w1] t1]; [|reflexivity].
  now rewrite H.
Qed.

Lemma bind_cong_l {A B : Type} (m1 m2 : M A) (k : A -> M B) (w : World) :
  m1 w = m2 w -> bind m1 k w = bind m2 k w.
Proof. intros H. unfold bind. now rewrite H. Qed.

Lemma for_each_app {A C : Type} (body : A -> C -> M C) (xs ys : list A)
    (acc : C) (w : World) :
  for_each body (xs ++ ys) acc w
  = bind (for_each body xs acc) (for_each body ys) w.
Proof.
  revert acc w. induction xs as [|x xs IH]; intros acc w.
  - simpl. now rewrite bind_ret_l.
  - simpl. rewrite bind_assoc. apply bind_ext. intros c w'. apply IH.
Qed.

(** A record whose body is [continue] can be dropped from the batch. *)
Lemma for_each_skip {A C : Type} (body : A -> C -> M C) (x : A)
    (xs ys : list A) :
  (forall acc w, body x acc w = (Ok acc, w, [])) ->
  forall acc w,
    for_each body (xs ++ x :: ys) acc w = for_each body (xs ++ ys) acc w.
Proof.
  intros Hskip acc w. rewrite !for_each_app. apply bind_ext. intros c w1.
  simpl. unfold bind. rewrite Hskip.
  destruct (for_each body ys c w1) as [[r w2] t2]. reflexivity.
Qed.

(** When the record in the middle leaves accumulator and world alone and
    only adds [t] to the trace, the rest of the batch runs as if the record
    were absent. *)
Lemma for_each_through {A C : Type} (body : A -> C -> M C) (x : A)
    (xs ys : list A) (acc acc1 : C) (w w1 : World) (t1 t : list event) :
  for_each body xs acc w = (Ok acc1, w1, t1) ->
  body x acc1 w1 = (Ok acc1, w1, t) ->
  for_each body (xs ++ x :: ys) acc w
  = (let '(r, w2, t2) := for_each body ys acc1 w1 in
     (r, w2, t1 ++ t ++ t2)).
Proof.
  intros Hxs Hx. rewrite for_each_app. unfold bind at 1. rewrite Hxs.
  simpl for_each. unfold bind. rewrite Hx.
  destruct (for_each body ys acc1 w1) as [[r w2] t2]. reflexivity.
Qed.

(** ** Records the loops pass over *)

Section Skips.

Variable storage_refuses : Store -> query -> bool.
Variable dataset_name : string.

Lemma relationship_item_not_dict (item : json) (acc : Z * Z) (w : World) :
  is_dict item = false ->
  relationship_item storage_refuses dataset_name item acc w = (Ok acc, w, []).
Proof.
  intros H. unfold relationship_item. now rewrite H.
Qed.

Lemma is_descriptor_inv (x : json) :
  is_descriptor x = true ->
  exists d p, x = JDict d /\ properties_of x = JDict p.
Proof.
  unfold is_descriptor. intros H. apply andb_true_iff in H as [Hx Hp].
  destruct x; try discriminate.
  destruct (properties_of (JDict d)) eqn:E; try discriminate.
  eauto.
Qed.

Lemma relationship_item_empty_name (d : items) (acc : Z * Z) (w : World) :
  is_descriptor (start_of d) = true ->
  is_descriptor (end_of d) = true ->
  truthy (name_of (start_of d)) = false
  \/ truthy (name_of (end_of d)) = false ->
  relationship_item storage_refuses dataset_name (JDict d) acc w
  = (Ok acc, w, []).
Proof.
  intros Hs He Hname.
  destruct (is_descriptor_inv _ Hs) as (sd & sp & Es & Esp).
  destruct (is_descriptor_inv _ He) as (ed & ep & Ee & Eep).
  unfold name_of in Hname. rewrite Esp, Eep in Hname.
  unfold properties_of in Esp, Eep. rewrite Es in Esp. rewrite Ee in Eep.
  unfold start_of in Es. unfold end_of in Ee. simpl items_of in *.
  unfold relationship_item.
  change (negb (is_dict (JDict d))) with false. cbv iota.
  unfold py_get at 1. rewrite bind_ret_l, Es.
  unfold py_get at 1. rewrite bind_ret_l, Ee.
  unfold py_get at 1. rewrite bind_ret_l.
  unfold py_get at 1. rewrite bind_ret_l, Esp.
  unfold py_get at 1. rewrite bind_ret_l, Eep.
  unfold py_get at 1. rewrite bind_ret_l.
  unfold py_get at 1. rewrite bind_ret_l.
  destruct Hname as [H|H]; rewrite H; simpl; [reflexivity|].
  now rewrite orb_true_r.
Qed.

Lemma node_item_empty_id (d : items) (acc : Z) (w : World) :
  truthy (dict_get d "id" (JStr "")) = false ->
  node_item storage_refuses dataset_name (JDict d) acc w = (Ok acc, w, []).
Proof.
  intros H. unfold node_item.
  unfold py_get. rewrite !bind_ret_l, H. reflexivity.
Qed.

Lemma edge_item_empty_endpoint (d : items) (acc : Z) (w : World) :
  truthy (dict_get d "source" (JStr "")) = false
  \/ truthy (dict_get d "target" (JStr "")) = false ->
  edge_item storage_refuses dataset_name (JDict d) acc w = (Ok acc, w, []).
Proof.
  intros H. unfold edge_item.
  unfold py_get. rewrite !bind_ret_l.
  destruct H as [H|H]; rewrite H; simpl; [reflexivity|].
  now rewrite orb_true_r.
Qed.

End Skips.

(** ** What one iteration can do *)

Section Outcomes.

Variable storage_refuses : Store -> query -> bool.
Variable dataset_name : string.

Lemma bind_py_get {B : Type} (x : json) (k : string) (default : json)
    (K : json -> M B) (w : World) :
  bind (py_get x k default) K w
  = match x with
    | JDict d => K (dict_get d k default) w
    | _ => (Raise AttributeError, w, [])
    end.
Proof.
  destruct x; try reflexivity. unfold py_get. apply bind_ret_l.
Qed.

(** [try: session.run(q); acc = f(rows) except: warn], the shape the three
    loops share. *)
Lemma guarded_run_outcome {C : Type} (sends : query -> Prop)
    (warns : log_line -> Prop) (q : query) (l : log_line) (K : nat -> M C)
    (acc : C) (w : World) :
  sends q -> warns l ->
  (forall rows w', exists c, K rows w' = (Ok c, w', [])) ->
  item_outcome storage_refuses sends warns acc w
    (try_except
       (rows <- session_run storage_refuses q ;; K rows)
       (fun _ => log l ;; ret acc) w).
Proof.
  intros Hq Hl HK. unfold try_except, bind, session_run.
  destruct (storage_refuses (db w) q) eqn:R.
  - simpl. now apply out_refused.
  - destruct (exec q (db w)) as [s' rows] eqn:E.
    destruct (HK rows (mkWorld (self w) s')) as [c ->]. simpl.
    replace s' with (fst (exec q (db w))) by now rewrite E.
    now apply out_run.
Qed.

Ltac read_dict E :=
  rewrite bind_py_get;
  match goal with
  | |- context [match ?x with JDict _ => _ | _ => _ end] =>
      destruct x eqn:E; try (apply out_raise; discriminate)
  end.

Lemma relationship_item_outcome (item : json) (acc : Z * Z) (w : World) :
  item_outcome storage_refuses (is_merge_relationship dataset_name)
    (eq WarnRelationship) acc w
    (relationship_item storage_refuses dataset_name item acc w).
Proof.
  unfold relationship_item.
  destruct item; try apply out_skip.
  change (negb (is_dict (JDict d))) with false. cbv iota.
  do 3 (rewrite bind_py_get; cbv iota).
  read_dict Es. read_dict Ee. read_dict Esp. read_dict Eep.
  destruct (negb (truthy _) || negb (truthy _)); [apply out_skip|].
  do 4 (rewrite bind_py_get; cbv iota).
  apply guarded_run_outcome; try reflexivity.
  intros rows w'. destruct (0 <? rows)%nat; eexists; reflexivity.
Qed.

Lemma node_item_outcome (node : json) (acc : Z) (w : World) :
  item_outcome storage_refuses (is_merge_node dataset_name) is_warn_node acc w
    (node_item storage_refuses dataset_name node acc w).
Proof.
  unfold node_item.
  read_dict E. do 3 (rewrite bind_py_get; cbv iota).
  destruct (negb (truthy _)); [apply out_skip|].
  apply guarded_run_outcome; try exact I; try reflexivity.
  intros rows w'. eexists; reflexivity.
Qed.

Lemma edge_item_outcome (edge : json) (acc : Z) (w : World) :
  item_outcome storage_refuses (is_match_merge_edge dataset_name)
    is_warn_edge acc w
    (edge_item storage_refuses dataset_name edge acc w).
Proof.
  unfold edge_item.
  read_dict E. do 3 (rewrite bind_py_get; cbv iota).
  destruct (negb (truthy _) || negb (truthy _)); [apply out_skip|].
  apply guarded_run_outcome; try exact I; try reflexivity.
  intros rows w'. eexists; reflexivity.
Qed.

End Outcomes.

(** ** What a whole loop can do *)

Section Loops.

Variable storage_refuses : Store -> query -> bool.
Context {A C : Type}.
Variable body : A -> C -> M C.
Variable sends : query -> Prop.
Variable warns : log_line -> Prop.
Hypothesis body_outcome :
  forall x acc w, item_outcome storage_refuses sends warns acc w (body x acc w).

Lemma refused_item (x : A) (acc : C) (w : World) (q : query) (s : Store) :
  In (EvRefused q s) (snd (body x acc w)) ->
  exists l, warns l /\ storage_refuses (db w) q = true /\ s = db w
            /\ body x acc w = (Ok acc, w, [EvRefused q (db w); EvLog l]).
Proof.
  intros Hin. destruct (body_outcome x acc w) as [|e He|q' l Hq Hl R|q' c Hq R];
    simpl in Hin.
  - contradiction.
  - contradiction.
  - destruct Hin as [E|[E|[]]]; [|discriminate].
    injection E as -> <-. exists l. repeat split; assumption.
  - destruct Hin as [E|[]]. discriminate.
Qed.

Lemma loop_outcome (xs : list A) (acc : C) (w : World) :
  fst (fst (for_each body xs acc w)) <> Raise Neo4jError
  /\ self (snd (fst (for_each body xs acc w))) = self w
  /\ Forall (statement_event sends) (snd (for_each body xs acc w)).
Proof.
  revert acc w. induction xs as [|x xs IH]; intros acc w.
  - simpl. repeat split; [discriminate|constructor].
  - simpl. unfold bind.
    destruct (body_outcome x acc w) as [|e He|q l Hq Hl R|q c Hq R].
    + specialize (IH acc w).
      destruct (for_each body xs acc w) as [[r w2] t2]. exact IH.
    + simpl. repeat split; [congruence|constructor].
    + specialize (IH acc w).
      destruct (for_each body xs acc w) as [[r w2] t2]. simpl in *.
      destruct IH as (H1 & H2 & H3). repeat split; auto.
      constructor; [exact Hq|]. constructor; [exact I|]. exact H3.
    + specialize (IH c (mkWorld (self w) (fst (exec q (db w))))).
      destruct (for_each body xs c _) as [[r w2] t2]. simpl in *.
      destruct IH as (H1 & H2 & H3). repeat split; auto.
      constructor; [|exact H3]. simpl. auto.
Qed.

End Loops.

(** ** Skipped records and refused statements *)

Lemma with_session_ext {A : Type} (m1 m2 : M A) (w : World) :
  m1 w = m2 w -> with_session m1 w = with_session m2 w.
Proof. intros H. unfold with_session. now rewrite H. Qed.

Lemma load_relationship_list_skip (storage_refuses : Store -> query -> bool)
    (dataset_name : string) (item : json) (xs ys : list json) (w : World) :
  (forall acc w',
     relationship_item storage_refuses dataset_name item acc w'
     = (Ok acc, w', [])) ->
  _load_relationship_list_format storage_refuses (xs ++ item :: ys)
    dataset_name w
  = _load_relationship_list_format storage_refuses (xs ++ ys) dataset_name w.
Proof.
  intros H. unfold _load_relationship_list_format.
  apply bind_cong_l, with_session_ext.
  now apply for_each_skip.
Qed.

Lemma load_standard_skip_node (storage_refuses : Store -> query -> bool)
    (dataset_name : string) (node : json) (xs ys : list json)
    (g g' : items) (w : World) :
  (forall acc w',
     node_item storage_refuses dataset_name node acc w' = (Ok acc, w', [])) ->
  dict_get g "nodes" (JList []) = JList (xs ++ node :: ys) ->
  dict_get g' "nodes" (JList []) = JList (xs ++ ys) ->
  dict_get g' "edges" (JList []) = dict_get g "edges" (JList []) ->
  _load_standard_format storage_refuses g dataset_name w
  = _load_standard_format storage_refuses g' dataset_name w.
Proof.
  intros H Hg Hg' He. unfold _load_standard_format.
  rewrite Hg, Hg', He. unfold py_len at 1 3. rewrite !bind_ret_l.
  apply bind_ext. intros _ w1.
  apply bind_cong_l, with_session_ext.
  unfold py_iter at 1 3. rewrite !bind_ret_l.
  apply bind_cong_l. now apply for_each_skip.
Qed.

Lemma load_standard_skip_edge (storage_refuses : Store -> query -> bool)
    (dataset_name : string) (edge : json) (xs ys : list json)
    (g g' : items) (w : World) :
  (forall acc w',
     edge_item storage_refuses dataset_name edge acc w' = (Ok acc, w', [])) ->
  dict_get g "edges" (JList []) = JList (xs ++ edge :: ys) ->
  dict_get g' "edges" (JList []) = JList (xs ++ ys) ->
  dict_get g' "nodes" (JList []) = dict_get g "nodes" (JList []) ->
  _load_standard_format storage_refuses g dataset_name w
  = _load_standard_format storage_refuses g' dataset_name w.
Proof.
  intros H Hg Hg' Hn. unfold _load_standard_format.
  rewrite Hg, Hg', Hn. apply bind_ext. intros _ w1.
  unfold py_len. rewrite !bind_ret_l.
  apply bind_cong_l, with_session_ext.
  apply bind_ext. intros node_list w2. apply bind_ext. intros nc w3.
  unfold py_iter. rewrite !bind_ret_l.
  apply bind_cong_l. now apply for_each_skip.
Qed.

(** C10.  In relationship-list loading a list element that is not a
    mapping is passed over: its iteration returns normally with the
    counters and the world unchanged and sends nothing, and the load of a
    list containing it is the load of the list without it. *)
Theorem non_mapping_item_is_skipped :
  forall (storage_refuses : Store -> query -> bool) (dataset_name : string)
         (item : json),
    is_dict item = false ->
    (forall acc w,
       relationship_item storage_refuses dataset_name item acc w
       = (Ok acc, w, []))
    /\
    (forall xs ys w,
       _load_relationship_list_format storage_refuses (xs ++ item :: ys)
         dataset_name w
       = _load_relationship_list_format storage_refuses (xs ++ ys)
           dataset_name w).
Proof.
  intros refuses ds item H. split.
  - intros acc w. now apply relationship_item_not_dict.
  - intros xs ys w. apply load_relationship_list_skip.
    intros acc w'. now apply relationship_item_not_dict.
Qed.

Lemma non_mapping_item_is_skipped_witness :
  is_dict (JInt 42) = false
  /\ _load_relationship_list_format accepts_all ([] ++ JInt 42 :: [a_in_b])
       "demo" (mkWorld connected_loader empty_store)
     = _load_relationship_list_format accepts_all ([] ++ [a_in_b])
         "demo" (mkWorld connected_loader empty_store).
Proof.
  split; [reflexivity|].
  apply (non_mapping_item_is_skipped accepts_all "demo" (JInt 42)).
  reflexivity.
Defined.

(** C6, as the code has it.  A record with an empty required identity
    field is passed over without raising, writes nothing and increments
    no counter: a relationship record whose start or end name is empty,
    provided its two node descriptors (when given) are mappings whose
    [properties] (when given) is a mapping, which the loop reads before
    it tests the names; a node record whose id is empty; an edge record
    whose source or target is empty.  Each iteration returns the counters
    and the world as they were and sends nothing, and the load of a
    document containing the record is the load of the document without
    it. *)
Theorem empty_identity_is_skipped :
  forall (storage_refuses : Store -> query -> bool) (dataset_name : string),
    (forall d,
       is_descriptor (start_of d) = true ->
       is_descriptor (end_of d) = true ->
       truthy (name_of (start_of d)) = false
       \/ truthy (name_of (end_of d)) = false ->
       (forall acc w,
          relationship_item storage_refuses dataset_name (JDict d) acc w
          = (Ok acc, w, []))
       /\
       (forall xs ys w,
          _load_relationship_list_format storage_refuses
            (xs ++ JDict d :: ys) dataset_name w
          = _load_relationship_list_format storage_refuses (xs ++ ys)
              dataset_name w))
    /\
    (forall d,
       truthy (dict_get d "id" (JStr "")) = false ->
       (forall acc w,
          node_item storage_refuses dataset_name (JDict d) acc w
          = (Ok acc, w, []))
       /\
       (forall xs ys g g' w,
          dict_get g "nodes" (JList []) = JList (xs ++ JDict d :: ys) ->
          dict_get g' "nodes" (JList []) = JList (xs ++ ys) ->
          dict_get g' "edges" (JList []) = dict_get g "edges" (JList []) ->
          _load_standard_format storage_refuses g dataset_name w
          = _load_standard_format storage_refuses g' dataset_name w))
    /\
    (forall d,
       truthy (dict_get d "source" (JStr "")) = false
       \/ truthy (dict_get d "target" (JStr "")) = false ->
       (forall acc w,
          edge_item storage_refuses dataset_name (JDict d) acc w
          = (Ok acc, w, []))
       /\
       (forall xs ys g g' w,
          dict_get g "edges" (JList []) = JList (xs ++ JDict d :: ys) ->
          dict_get g' "edges" (JList []) = JList (xs ++ ys) ->
          dict_get g' "nodes" (JList []) = dict_get g "nodes" (JList []) ->
          _load_standard_format storage_refuses g dataset_name w
          = _load_standard_format storage_refuses g' dataset_name w)).
Proof.
  intros refuses ds. split; [|split].
  - intros d Hs He Hn.
    assert (Hskip : forall acc w,
               relationship_item refuses ds (JDict d) acc w = (Ok acc, w, []))
      by (intros; now apply relationship_item_empty_name).
    split; [exact Hskip|].
    intros xs ys w. now apply load_relationship_list_skip.
  - intros d Hid.
    assert (Hskip : forall acc w,
               node_item refuses ds (JDict d) acc w = (Ok acc, w, []))
      by (intros; now apply node_item_empty_id).
    split; [exact Hskip|].
    intros xs ys g g' w. now apply load_standard_skip_node.
  - intros d Hst.
    assert (Hskip : forall acc w,
               edge_item refuses ds (JDict d) acc w = (Ok acc, w, []))
      by (intros; now apply edge_item_empty_endpoint).
    split; [exact Hskip|].
    intros xs ys g g' w. now apply load_standard_skip_edge.
Qed.

Lemma empty_identity_is_skipped_witness :
  (is_descriptor (start_of nameless_start) = true
   /\ is_descriptor (end_of nameless_start) = true
   /\ truthy (name_of (start_of nameless_start)) = false)
  /\ relationship_item accepts_all "demo" (JDict nameless_start) (0, 0)
       (mkWorld connected_loader empty_store)
     = (Ok (0, 0), mkWorld connected_loader empty_store, []).
Proof.
  split; [repeat split|].
  apply (empty_identity_is_skipped accepts_all "demo");
    [reflexivity | reflexivity | left; reflexivity].
Defined.

(** C6, as stated, fails: a relationship record whose start name is empty
    and whose [end_node] is [null] is not passed over.  Reading the
    properties of its end node raises [AttributeError] before the names
    are tested and outside the loop's [try]: the load ends there, the
    well-formed record after it is never written, and
    [load_graph_to_neo4j] returns [None]. *)
Lemma empty_name_null_descriptor_counterexample :
  let w := mkWorld connected_loader empty_store in
  let l := [JDict empty_start_null_end; a_in_b] in
  truthy (name_of (start_of empty_start_null_end)) = false
  /\ relationship_item accepts_all "demo" (JDict empty_start_null_end)
       (0, 0) w
     = (Raise AttributeError, w, [])
  /\ _load_relationship_list_format accepts_all l "demo" w
     = (Raise AttributeError, w, [EvSessionOpen; EvSessionClose])
  /\ fst (load_graph_to_neo4j accepts_all driver_opens
            (fun _ => FileDecoded (JList l)) "graph.json" "demo"
            "bolt://localhost:7687" "neo4j" "password" "neo4j" false
            empty_store)
     = (Ok None, empty_store)
  /\ fst (fst (_load_relationship_list_format accepts_all [a_in_b] "demo" w))
     = Ok (stats 2 1 "relationship_list").
Proof. vm_compute. repeat split. Qed.

(** C7.  In both ingesters a statement the storage layer refuses is
    caught and logged as a warning, the record's counters are not
    incremented, and the loop goes on to the next record: the three loops
    never raise the server's error, and a refused record in the middle of
    a batch leaves counters and store as they were and is followed by the
    rest of the batch. *)
Theorem write_failure_is_survived :
  forall (storage_refuses : Store -> query -> bool) (dataset_name : string),
    survives_refusals (relationship_item storage_refuses dataset_name)
      (eq WarnRelationship)
    /\ survives_refusals (node_item storage_refuses dataset_name)
         is_warn_node
    /\ survives_refusals (edge_item storage_refuses dataset_name)
         is_warn_edge.
Proof.
  intros refuses ds. unfold survives_refusals. repeat split.
  - intros xs acc w.
    apply (loop_outcome refuses _ _ _ (relationship_item_outcome refuses ds)).
  - intros xs x ys acc w acc1 w1 t1 q s Hxs Hin.
    destruct (refused_item refuses _ _ _
                (relationship_item_outcome refuses ds) _ _ _ _ _ Hin)
      as (l & Hl & _ & _ & Hx).
    exists l. repeat split; auto. now apply for_each_through.
  - intros xs acc w.
    apply (loop_outcome refuses _ _ _ (node_item_outcome refuses ds)).
  - intros xs x ys acc w acc1 w1 t1 q s Hxs Hin.
    destruct (refused_item refuses _ _ _
                (node_item_outcome refuses ds) _ _ _ _ _ Hin)
      as (l & Hl & _ & _ & Hx).
    exists l. repeat split; auto. now apply for_each_through.
  - intros xs acc w.
    apply (loop_outcome refuses _ _ _ (edge_item_outcome refuses ds)).
  - intros xs x ys acc w acc1 w1 t1 q s Hxs Hin.
    destruct (refused_item refuses _ _ _
                (edge_item_outcome refuses ds) _ _ _ _ _ Hin)
      as (l & Hl & _ & _ & Hx).
    exists l. repeat split; auto. now apply for_each_through.
Qed.

Lemma write_failure_is_survived_witness :
  In (EvRefused (QMergeNode (JStr "1") (JStr "Alice") (JStr "Entity")
                   (JList []) "demo") empty_store)
     (snd (node_item refuses_node_1 "demo" alice 0
             (mkWorld connected_loader empty_store)))
  /\ fst (for_each (node_item refuses_node_1 "demo") ([] ++ alice :: [bob]) 0
            (mkWorld connected_loader empty_store))
     = fst (for_each (node_item refuses_node_1 "demo") [bob] 0
              (mkWorld connected_loader empty_store)).
Proof.
  assert (Hin : In (EvRefused (QMergeNode (JStr "1") (JStr "Alice")
                                 (JStr "Entity") (JList []) "demo")
                      empty_store)
                   (snd (node_item refuses_node_1 "demo" alice 0
                           (mkWorld connected_loader empty_store))))
    by (left; reflexivity).
  split; [exact Hin|].
  destruct (write_failure_is_survived refuses_node_1 "demo")
    as (_ & (_ & Hnode) & _).
  destruct (Hnode [] alice [bob] 0 (mkWorld connected_loader empty_store)
              0 (mkWorld connected_loader empty_store) [] _ _
              eq_refl Hin) as (l & _ & _ & ->).
  destruct (for_each (node_item refuses_node_1 "demo") [bob] 0
              (mkWorld connected_loader empty_store)) as [[r w2] t2].
  reflexivity.
Defined.

(** C1.  On the scenario with the edge 1 -> 99, whose target node does not
    exist, the load ends normally, no relationship is stored, and the code
    reports [relationships_created = 1] where the claim expects 0. *)
Theorem dangling_edge_is_counted :
  let '(r, s, t) :=
    load_graph_to_neo4j accepts_all driver_opens
      (fun _ => FileDecoded alice_graph) "alice.json" "demo"
      "bolt://localhost:7687" "neo4j" "password" "neo4j" true empty_store in
  r = Ok (Some (stats 1 1 "standard"))
  /\ List.length (st_nodes s) = 1%nat
  /\ st_rels s = [].
Proof. vm_compute. repeat split. Qed.

(** ** Classification and clearing *)

Lemma clear_graph_run (storage_refuses : Store -> query -> bool)
    (dataset_name : string) (w : World) :
  driver (self w) = true ->
  clear_graph storage_refuses dataset_name w
  = if storage_refuses (db w) (QClear dataset_name) then
      (Raise Neo4jError, w,
       [EvSessionOpen; EvRefused (QClear dataset_name) (db w);
        EvSessionClose; EvLog ErrorClearing])
    else
      (Ok tt, mkWorld (self w) (exec_clear dataset_name (db w)),
       [EvSessionOpen;
        EvRun (QClear dataset_name) (db w) (exec_clear dataset_name (db w));
        EvSessionClose]).
Proof.
  intros Hd.
  unfold clear_graph, require_driver, try_except, bind, with_session,
    session_run.
  rewrite Hd. cbn [ret]. rewrite Hd.
  destruct (storage_refuses (db w) (QClear dataset_name)); reflexivity.
Qed.

Lemma clear_graph_ok (storage_refuses : Store -> query -> bool)
    (dataset_name : string) (w w' : World) (t : list event) :
  clear_graph storage_refuses dataset_name w = (Ok tt, w', t) ->
  db w' = exec_clear dataset_name (db w).
Proof.
  intros H. destruct (driver (self w)) eqn:Hd.
  - rewrite (clear_graph_run _ _ _ Hd) in H.
    destruct (storage_refuses (db w) (QClear dataset_name));
      [discriminate|].
    injection H as <- _. reflexivity.
  - unfold clear_graph, require_driver, bind in H. rewrite Hd in H.
    discriminate.
Qed.

Lemma require_driver_ok {B : Type} (k : unit -> M B) (w : World) :
  driver (self w) = true -> bind require_driver k w = k tt w.
Proof.
  intros Hd. unfold bind, require_driver. rewrite Hd. simpl.
  destruct (k tt w) as [[r w2] t2]. reflexivity.
Qed.

Lemma unknown_format_raises (storage_refuses : Store -> query -> bool)
    (graph_data : json) (dataset_name : string) (w : World) :
  unknown_format graph_data = true ->
  match graph_data with
  | JList l => _load_relationship_list_format storage_refuses l dataset_name
  | JDict d =>
      if dict_mem "nodes" d
      then _load_standard_format storage_refuses d dataset_name
      else raise ValueError
  | _ => raise ValueError
  end w = (Raise ValueError, w, []).
Proof.
  destruct graph_data; simpl; intros H; try reflexivity; try discriminate.
  destruct (dict_mem "nodes" d); [discriminate|reflexivity].
Qed.

(** C2, as the code has it.  A document of neither shape makes
    [load_graph_from_json] raise and return no stats; the dataset is
    cleared first when [clear_existing] is set, so the call fails with
    [ValueError] after the clear has been run, with the server's error
    when the clear itself is refused, and without any statement only when
    [clear_existing] is off. *)
Theorem unknown_format_fails_after_clear :
  forall (storage_refuses : Store -> query -> bool)
         (read_file : string -> file_state)
         (graph_path dataset_name : string) (clear_existing : bool)
         (graph_data : json) (w : World),
    driver (self w) = true ->
    read_file graph_path = FileDecoded graph_data ->
    unknown_format graph_data = true ->
    load_graph_from_json storage_refuses read_file graph_path dataset_name
      clear_existing w
    = if clear_existing then
        if storage_refuses (db w) (QClear dataset_name) then
          (Raise Neo4jError, w,
           [EvSessionOpen; EvRefused (QClear dataset_name) (db w);
            EvSessionClose; EvLog ErrorClearing])
        else
          (Raise ValueError,
           mkWorld (self w) (exec_clear dataset_name (db w)),
           [EvSessionOpen;
            EvRun (QClear dataset_name) (db w)
              (exec_clear dataset_name (db w));
            EvSessionClose])
      else (Raise ValueError, w, []).
Proof.
  intros refuses read_file path ds clear j w Hd Hf Hu.
  unfold load_graph_from_json. rewrite Hf.
  rewrite (require_driver_ok _ _ Hd). destruct clear.
  - unfold bind. rewrite (clear_graph_run _ _ _ Hd).
    destruct (refuses (db w) (QClear ds)); [reflexivity|].
    now rewrite (unknown_format_raises _ _ _ _ Hu).
  - rewrite bind_ret_l.
    now rewrite (unknown_format_raises _ _ _ _ Hu).
Qed.

Lemma unknown_format_fails_after_clear_witness :
  (driver (self (mkWorld connected_loader demo_store)) = true
   /\ unknown_format (JInt 42) = true)
  /\ load_graph_from_json accepts_all (fun _ => FileDecoded (JInt 42))
       "graph.json" "demo" false (mkWorld connected_loader demo_store)
     = (Raise ValueError, mkWorld connected_loader demo_store, []).
Proof.
  split; [split; reflexivity|].
  apply (unknown_format_fails_after_clear accepts_all
           (fun _ => FileDecoded (JInt 42)) "graph.json" "demo" false
           (JInt 42) (mkWorld connected_loader demo_store));
    reflexivity.
Defined.

(** C2, as stated, fails: the document [42] loaded with
    [clear_existing = True] into a database holding a node of the dataset
    raises [ValueError], and by then the clear has been run and the node
    is gone. *)
Lemma classification_before_clear_counterexample :
  let '(r, w, t) :=
    load_graph_from_json accepts_all (fun _ => FileDecoded (JInt 42))
      "graph.json" "demo" true (mkWorld connected_loader demo_store) in
  r = Raise ValueError
  /\ db w <> demo_store
  /\ st_nodes (db w) = []
  /\ In (EvRun (QClear "demo") demo_store (mkStore [] [] 1)) t.
Proof.
  vm_compute. repeat split; [discriminate | auto].
Qed.

(** ** Dataset tags *)

Lemma json_eqb_str (v : json) (s : string) :
  json_eqb v (JStr s) = true -> v = JStr s.
Proof.
  destruct v; simpl; try discriminate.
  intros H. apply String.eqb_eq in H. now subst.
Qed.

Lemma tagged_inv (dataset : string) (p : props) :
  tagged dataset p = true -> pget "dataset" p = Some (JStr dataset).
Proof.
  unfold tagged, prop_is. destruct (pget "dataset" p) as [v|]; [|discriminate].
  intros H. now rewrite (json_eqb_str _ _ H).
Qed.

Lemma tagged_other (a b : string) (p : props) :
  a <> b -> tagged b p = true -> tagged a p = false.
Proof.
  intros Hab Hb. apply tagged_inv in Hb. unfold tagged, prop_is.
  rewrite Hb. simpl. apply String.eqb_neq. congruence.
Qed.

Lemma mem_nat_In (i : nat) (l : list nat) : mem_nat i l = true <-> In i l.
Proof.
  unfold mem_nat. rewrite existsb_exists. split.
  - intros (x & Hx & E). apply Nat.eqb_eq in E. now subst.
  - intros H. exists i. split; [exact H|apply Nat.eqb_refl].
Qed.

Lemma NoDup_map_eq {X Y : Type} (f : X -> Y) (l : list X) (x y : X) :
  NoDup (map f l) -> In x l -> In y l -> f x = f y -> x = y.
Proof.
  induction l as [|z l IH]; simpl; intros Hnd Hx Hy E; [contradiction|].
  inversion Hnd as [|? ? Hnot Hnd']; subst.
  destruct Hx as [->|Hx], Hy as [->|Hy]; auto.
  - exfalso. apply Hnot. rewrite E. now apply in_map.
  - exfalso. apply Hnot. rewrite <- E. now apply in_map.
Qed.

Lemma exec_clear_nodes (dataset : string) (s : Store) (n : node) :
  In n (st_nodes (exec_clear dataset s))
  <-> In n (st_nodes s) /\ tagged dataset (n_props n) = false.
Proof.
  unfold exec_clear. simpl. rewrite filter_In.
  now rewrite negb_true_iff.
Qed.

Lemma exec_clear_rels (dataset : string) (s : Store) (r : rel) :
  In r (st_rels (exec_clear dataset s))
  <-> In r (st_rels s)
      /\ ~ (exists n, In n (st_nodes s)
                      /\ tagged dataset (n_props n) = true
                      /\ (n_id n = r_src r \/ n_id n = r_dst r)).
Proof.
  unfold exec_clear. simpl. rewrite filter_In.
  rewrite negb_true_iff, orb_false_iff.
  split; intros [Hin H]; (split; [exact Hin|]).
  - destruct H as [Hs Hd]. intros (n & Hn & Ht & [E|E]).
    + assert (X : mem_nat (r_src r)
                    (map n_id (filter (fun n => tagged dataset (n_props n))
                                      (st_nodes s))) = true).
      { apply mem_nat_In, in_map_iff. exists n. split; [exact E|].
        apply filter_In. auto. }
      congruence.
    + assert (X : mem_nat (r_dst r)
                    (map n_id (filter (fun n => tagged dataset (n_props n))
                                      (st_nodes s))) = true).
      { apply mem_nat_In, in_map_iff. exists n. split; [exact E|].
        apply filter_In. auto. }
      congruence.
  - split.
    + destruct (mem_nat (r_src r) _) eqn:X; [|reflexivity].
      exfalso. apply H. apply mem_nat_In, in_map_iff in X.
      destruct X as (n & E & Hf). apply filter_In in Hf.
      exists n. tauto.
    + destruct (mem_nat (r_dst r) _) eqn:X; [|reflexivity].
      exfalso. apply H. apply mem_nat_In, in_map_iff in X.
      destruct X as (n & E & Hf). apply filter_In in Hf.
      exists n. tauto.
Qed.

(** C4, as the code has it.  [clear_graph A] keeps exactly the nodes not
    tagged [A], unchanged, so every node tagged with another dataset [B]
    stays whatever its name or id; it keeps exactly the relationships
    that touch no node tagged [A], so a relationship joining two kept
    nodes stays, and one attached to a node of [A] goes, whatever tag the
    relationship itself carries. *)
Theorem clear_graph_frame :
  forall (storage_refuses : Store -> query -> bool) (A : string)
         (w w' : World) (t : list event),
    clear_graph storage_refuses A w = (Ok tt, w', t) ->
    (forall n, In n (st_nodes (db w'))
               <-> In n (st_nodes (db w)) /\ tagged A (n_props n) = false)
    /\ (forall B n, B <> A -> In n (st_nodes (db w)) ->
                    tagged B (n_props n) = true -> In n (st_nodes (db w')))
    /\ (forall r, In r (st_rels (db w'))
                  <-> In r (st_rels (db w))
                      /\ ~ (exists n, In n (st_nodes (db w))
                                      /\ tagged A (n_props n) = true
                                      /\ (n_id n = r_src r
                                          \/ n_id n = r_dst r)))
    /\ (forall r a b,
          NoDup (map n_id (st_nodes (db w))) ->
          In r (st_rels (db w)) ->
          In a (st_nodes (db w)) -> n_id a = r_src r ->
          In b (st_nodes (db w)) -> n_id b = r_dst r ->
          tagged A (n_props a) = false -> tagged A (n_props b) = false ->
          In r (st_rels (db w'))).
Proof.
  intros refuses A w w' t H. apply clear_graph_ok in H. rewrite H.
  split; [|split; [|split]].
  - intros n. apply exec_clear_nodes.
  - intros B n HB Hin Ht. apply exec_clear_nodes. split; [exact Hin|].
    apply (tagged_other A B); congruence.
  - intros r. apply exec_clear_rels.
  - intros r a b Hnd Hr Ha Ea Hb Eb Ta Tb. apply exec_clear_rels.
    split; [exact Hr|]. intros (n & Hn & Tn & [E|E]).
    + assert (n = a)
        by (apply (NoDup_map_eq n_id (st_nodes (db w))); congruence).
      subst. congruence.
    + assert (n = b)
        by (apply (NoDup_map_eq n_id (st_nodes (db w))); congruence).
      subst. congruence.
Qed.

Lemma clear_graph_frame_witness :
  clear_graph accepts_all "A" (mkWorld connected_loader two_dataset_store)
  = (Ok tt,
     mkWorld connected_loader
       (mkStore
          [mkNode 1 ["Entity"] [("name", JStr "x"); ("dataset", JStr "B")]]
          [] 2),
     [EvSessionOpen;
      EvRun (QClear "A") two_dataset_store
        (mkStore
           [mkNode 1 ["Entity"] [("name", JStr "x"); ("dataset", JStr "B")]]
           [] 2);
      EvSessionClose])
  /\ (forall B n,
        B <> "A" -> In n (st_nodes two_dataset_store) ->
        tagged B (n_props n) = true ->
        In n [mkNode 1 ["Entity"]
                [("name", JStr "x"); ("dataset", JStr "B")]]).
Proof.
  split; [reflexivity|].
  apply (clear_graph_frame accepts_all "A"
           (mkWorld connected_loader two_dataset_store)
           (mkWorld connected_loader
              (mkStore
                 [mkNode 1 ["Entity"]
                    [("name", JStr "x"); ("dataset", JStr "B")]]
                 [] 2))
           [EvSessionOpen;
            EvRun (QClear "A") two_dataset_store
              (mkStore
                 [mkNode 1 ["Entity"]
                    [("name", JStr "x"); ("dataset", JStr "B")]]
                 [] 2);
            EvSessionClose]).
  reflexivity.
Defined.

(** C4, as stated, fails on relationships.  Loading [retagging_record]
    into dataset ["B"] leaves a relationship tagged ["B"] whose start node
    is tagged ["A"]; [clear_graph "A"] removes that relationship together
    with the node. *)
Lemma clear_removes_edge_of_other_dataset :
  let r := mkRel 2 0 1 "RELATES" [("dataset", JStr "B"); ("type", JStr "r")] in
  let '(res, w, t) :=
    clear_graph accepts_all "A" (mkWorld connected_loader retagged_store) in
  res = Ok tt
  /\ In r (st_rels retagged_store)
  /\ tagged "B" (r_props r) = true
  /\ tagged "A" (r_props r) = false
  /\ ~ In r (st_rels (db w)).
Proof.
  vm_compute. repeat split; auto.
Qed.

(** ** The connection protocol *)

Lemma conn_run_app (c : bool * nat) (t1 t2 : list event) :
  conn_run c (t1 ++ t2)
  = match conn_run c t1 with
    | Some c' => conn_run c' t2
    | None => None
    end.
Proof.
  revert c. induction t1 as [|e t1 IH]; intros c; simpl; [reflexivity|].
  destruct (conn_step c e); [apply IH|reflexivity].
Qed.

Lemma inside_nil : inside [].
Proof. intros n. reflexivity. Qed.

Lemma inside_app (t1 t2 : list event) :
  inside t1 -> inside t2 -> inside (t1 ++ t2).
Proof. intros H1 H2 n. now rewrite conn_run_app, H1. Qed.

Lemma neutral_nil : neutral [].
Proof. intros n. reflexivity. Qed.

Lemma neutral_app (t1 t2 : list event) :
  neutral t1 -> neutral t2 -> neutral (t1 ++ t2).
Proof. intros H1 H2 n. now rewrite conn_run_app, H1. Qed.

Lemma neutral_session (t : list event) :
  inside t -> neutral (EvSessionOpen :: t ++ [EvSessionClose]).
Proof.
  intros H n. simpl. now rewrite conn_run_app, H.
Qed.

Lemma inside_statements (sends : query -> Prop) (t : list event) :
  Forall (statement_event sends) t -> inside t.
Proof.
  induction 1 as [|e t He _ IH]; intros n; [reflexivity|].
  destruct e; simpl in *; try contradiction; apply IH.
Qed.

Section Keeps.

Variable P : list event -> Prop.
Hypothesis P_nil : P [].
Hypothesis P_app : forall t1 t2, P t1 -> P t2 -> P (t1 ++ t2).

Lemma keeps_ret {A : Type} (a : A) : keeps P (ret a).
Proof. intros w. simpl. auto. Qed.

Lemma keeps_raise {A : Type} (e : exn) : keeps P (@raise A e).
Proof. intros w. simpl. auto. Qed.

Lemma keeps_bind {A B : Type} (m : M A) (k : A -> M B) :
  keeps P m -> (forall a, keeps P (k a)) -> keeps P (bind m k).
Proof.
  intros Hm Hk w. unfold bind. specialize (Hm w).
  destruct (m w) as [[[a|e] w1] t1]; simpl in *; [|exact Hm].
  specialize (Hk a w1). destruct (k a w1) as [[r w2] t2]. simpl in *.
  destruct Hm as [Hs1 Ht1], Hk as [Hs2 Ht2]. split; [congruence|auto].
Qed.

Lemma keeps_try_except {A : Type} (m : M A) (h : exn -> M A) :
  keeps P m -> (forall e, keeps P (h e)) -> keeps P (try_except m h).
Proof.
  intros Hm Hh w. unfold try_except. specialize (Hm w).
  destruct (m w) as [[[a|e] w1] t1]; simpl in *; [exact Hm|].
  specialize (Hh e w1). destruct (h e w1) as [[r w2] t2]. simpl in *.
  destruct Hm as [Hs1 Ht1], Hh as [Hs2 Ht2]. split; [congruence|auto].
Qed.

Lemma keeps_py_get (x : json) (k : string) (d : json) :
  keeps P (py_get x k d).
Proof. destruct x; simpl; first [apply keeps_raise | apply keeps_ret]. Qed.

Lemma keeps_py_len (x : json) : keeps P (py_len x).
Proof. destruct x; simpl; first [apply keeps_raise | apply keeps_ret]. Qed.

Lemma keeps_py_iter (x : json) : keeps P (py_iter x).
Proof. destruct x; simpl; first [apply keeps_raise | apply keeps_ret]. Qed.

End Keeps.

Section KeepsLoader.

Variable storage_refuses : Store -> query -> bool.
Variable read_file : string -> file_state.
Variable dataset_name : string.

Lemma keeps_session_run (q : query) :
  keeps inside (session_run storage_refuses q).
Proof.
  intros w. unfold session_run.
  destruct (storage_refuses (db w) q); simpl.
  - split; [reflexivity|]. intros n. reflexivity.
  - destruct (exec q (db w)) as [s' rows]. simpl.
    split; [reflexivity|]. intros n. reflexivity.
Qed.

Lemma keeps_log (l : log_line) : keeps neutral (log l).
Proof. intros w. simpl. split; [reflexivity|]. intros n. reflexivity. Qed.

Lemma keeps_with_session {A : Type} (m : M A) :
  keeps inside m -> keeps neutral (with_session m).
Proof.
  intros Hm w. unfold with_session. destruct (driver (self w)).
  - specialize (Hm w). destruct (m w) as [[r w1] t]. simpl in *.
    destruct Hm as [Hs Ht]. split; [exact Hs|]. now apply neutral_session.
  - simpl. split; [reflexivity|apply neutral_nil].
Qed.

Lemma keeps_loop {A C : Type} (body : A -> C -> M C) (sends : query -> Prop)
    (warns : log_line -> Prop) (xs : list A) (acc : C) :
  (forall x acc w,
     item_outcome storage_refuses sends warns acc w (body x acc w)) ->
  keeps inside (for_each body xs acc).
Proof.
  intros Hbody w.
  destruct (loop_outcome storage_refuses body sends warns Hbody xs acc w)
    as (_ & Hs & Ht).
  split; [exact Hs|]. exact (inside_statements _ _ Ht).
Qed.

Lemma keeps_require_driver : keeps neutral require_driver.
Proof.
  intros w. unfold require_driver. destruct (driver (self w)); simpl;
    (split; [reflexivity|apply neutral_nil]).
Qed.

Lemma keeps_clear_graph :
  keeps neutral (clear_graph storage_refuses dataset_name).
Proof.
  unfold clear_graph.
  apply (keeps_bind neutral neutral_app); [apply keeps_require_driver|].
  intros _. apply (keeps_try_except neutral neutral_app).
  - apply (keeps_bind neutral neutral_app).
    + apply keeps_with_session, keeps_session_run.
    + intros _. apply (keeps_ret neutral neutral_nil).
  - intros e. apply (keeps_bind neutral neutral_app); [apply keeps_log|].
    intros _. apply (keeps_raise neutral neutral_nil).
Qed.

Lemma keeps_load_relationship_list (graph_data : list json) :
  keeps neutral
    (_load_relationship_list_format storage_refuses graph_data dataset_name).
Proof.
  unfold _load_relationship_list_format.
  apply (keeps_bind neutral neutral_app).
  - apply keeps_with_session.
    apply (keeps_loop _ _ _ _ _
             (relationship_item_outcome storage_refuses dataset_name)).
  - intros acc. apply (keeps_ret neutral neutral_nil).
Qed.

Lemma keeps_load_standard (graph_data : items) :
  keeps neutral (_load_standard_format storage_refuses graph_data dataset_name).
Proof.
  unfold _load_standard_format.
  apply (keeps_bind neutral neutral_app);
    [apply (keeps_py_len neutral neutral_nil)|]. intros _.
  apply (keeps_bind neutral neutral_app);
    [apply (keeps_py_len neutral neutral_nil)|]. intros _.
  apply (keeps_bind neutral neutral_app).
  - apply keeps_with_session.
    apply (keeps_bind inside inside_app);
      [apply (keeps_py_iter inside inside_nil)|]. intros node_list.
    apply (keeps_bind inside inside_app).
    { apply (keeps_loop _ _ _ _ _
               (node_item_outcome storage_refuses dataset_name)). }
    intros nc.
    apply (keeps_bind inside inside_app);
      [apply (keeps_py_iter inside inside_nil)|]. intros edge_list.
    apply (keeps_bind inside inside_app).
    { apply (keeps_loop _ _ _ _ _
               (edge_item_outcome storage_refuses dataset_name)). }
    intros rc. apply (keeps_ret inside inside_nil).
  - intros acc. apply (keeps_ret neutral neutral_nil).
Qed.

Lemma keeps_load_graph_from_json (graph_path : string)
    (clear_existing : bool) :
  keeps neutral
    (load_graph_from_json storage_refuses read_file graph_path dataset_name
       clear_existing).
Proof.
  unfold load_graph_from_json.
  apply (keeps_bind neutral neutral_app); [apply keeps_require_driver|].
  intros _. destruct (read_file graph_path) as [| |graph_data|e0];
    try apply (keeps_raise neutral neutral_nil).
  apply (keeps_bind neutral neutral_app).
  - destruct clear_existing;
      [apply keeps_clear_graph|apply (keeps_ret neutral neutral_nil)].
  - intros _. destruct graph_data;
      try apply (keeps_raise neutral neutral_nil).
    + apply keeps_load_relationship_list.
    + destruct (dict_mem "nodes" d);
        [apply keeps_load_standard|apply (keeps_raise neutral neutral_nil)].
Qed.

End KeepsLoader.

(** ** The module-level function *)

Lemma bind_ok_inv {A B : Type} (m : M A) (k : A -> M B) (w w' : World)
    (b : B) (t : list event) :
  bind m k w = (Ok b, w', t) ->
  exists a w1 t1 t2,
    m w = (Ok a, w1, t1) /\ k a w1 = (Ok b, w', t2) /\ t = t1 ++ t2.
Proof.
  unfold bind. destruct (m w) as [[[a|e] w1] t1]; [|discriminate].
  destruct (k a w1) as [[r w2] t2] eqn:E. intros H. injection H as -> -> <-.
  exists a, w1, t1, t2. auto.
Qed.

Section TopLevel.

Variable storage_refuses : Store -> query -> bool.
Variable driver_fails : Neo4jLoader -> bool.
Variable read_file : string -> file_state.

Lemma connect_run (u us p d : string) (b : bool) (s : Store) :
  let l := mkLoader u us p d b in
  connect storage_refuses driver_fails (mkWorld l s)
  = if driver_fails l then (Ok false, mkWorld l s, [EvLog ErrorConnect])
    else
      let w1 := mkWorld (mkLoader u us p d true) s in
      if storage_refuses s QPing then
        (Ok false, w1,
         [EvDriverOpen; EvSessionOpen; EvRefused QPing s; EvSessionClose;
          EvLog ErrorConnect])
      else
        (Ok true, w1,
         [EvDriverOpen; EvSessionOpen; EvRun QPing s s; EvSessionClose]).
Proof.
  intros l.
  unfold connect, try_except, bind, new_driver, with_session, session_run.
  simpl. destruct (driver_fails l); [reflexivity|]. simpl.
  destruct (storage_refuses s QPing); reflexivity.
Qed.

Lemma load_relationship_list_returns (graph_data : list json)
    (dataset_name : string) (w w' : World) (j : json) (t : list event) :
  _load_relationship_list_format storage_refuses graph_data dataset_name w
  = (Ok j, w', t) ->
  exists n r, j = stats n r "relationship_list".
Proof.
  unfold _load_relationship_list_format. intros H.
  apply bind_ok_inv in H as (acc & w1 & t1 & t2 & _ & H & _).
  injection H as <- _ _. eauto.
Qed.

Lemma load_standard_returns (graph_data : items) (dataset_name : string)
    (w w' : World) (j : json) (t : list event) :
  _load_standard_format storage_refuses graph_data dataset_name w
  = (Ok j, w', t) ->
  exists n r, j = stats n r "standard".
Proof.
  unfold _load_standard_format. intros H.
  apply bind_ok_inv in H as (? & ? & ? & ? & _ & H & _).
  apply bind_ok_inv in H as (? & ? & ? & ? & _ & H & _).
  apply bind_ok_inv in H as (acc & w1 & t1 & t2 & _ & H & _).
  injection H as <- _ _. eauto.
Qed.

Lemma load_graph_from_json_returns (graph_path dataset_name : string)
    (clear_existing : bool) (w w' : World) (j : json) (t : list event) :
  load_graph_from_json storage_refuses read_file graph_path dataset_name
    clear_existing w = (Ok j, w', t) ->
  exists n r f,
    j = stats n r f /\ (f = "relationship_list" \/ f = "standard").
Proof.
  unfold load_graph_from_json. intros H.
  apply bind_ok_inv in H as (? & w1 & ? & ? & _ & H & _).
  destruct (read_file graph_path) as [| |graph_data|e0]; try discriminate.
  apply bind_ok_inv in H as (? & w2 & ? & ? & _ & H & _).
  destruct graph_data; try discriminate.
  - apply load_relationship_list_returns in H as (n & r & ->). eauto 6.
  - destruct (dict_mem "nodes" d); [|discriminate].
    apply load_standard_returns in H as (n & r & ->). eauto 6.
Qed.

(** The exits of [load_graph_to_neo4j], one by one. *)
Lemma load_graph_to_neo4j_run (graph_path dataset_name : string)
    (uri user password database : string) (clear_existing : bool)
    (s : Store) :
  let opened :=
    mkWorld (mkLoader uri user password database true) s in
  load_graph_to_neo4j storage_refuses driver_fails read_file graph_path
    dataset_name uri user password database clear_existing s
  = if driver_fails (mkLoader uri user password database false) then
      (Ok None, s, [EvLog ErrorConnect])
    else if storage_refuses s QPing then
      (Ok None, s,
       [EvDriverOpen; EvSessionOpen; EvRefused QPing s; EvSessionClose;
        EvLog ErrorConnect; EvDriverClose])
    else
      match load_graph_from_json storage_refuses read_file graph_path
              dataset_name clear_existing opened with
      | (Ok stats, w, t) =>
          (Ok (Some stats), db w,
           [EvDriverOpen; EvSessionOpen; EvRun QPing s s; EvSessionClose]
           ++ t ++ [EvDriverClose])
      | (Raise _, w, t) =>
          (Ok None, db w,
           [EvDriverOpen; EvSessionOpen; EvRun QPing s s; EvSessionClose]
           ++ t ++ [EvLog ErrorLoad; EvDriverClose])
      end.
Proof.
  intros opened. unfold load_graph_to_neo4j, try_finally, try_except.
  unfold bind at 1. rewrite connect_run. cbv zeta.
  destruct (driver_fails _); [reflexivity|].
  destruct (storage_refuses s QPing); [reflexivity|].
  cbn [negb]. cbv iota.
  pose proof (keeps_load_graph_from_json storage_refuses read_file
                dataset_name graph_path clear_existing opened) as [Hs _].
  fold opened. unfold bind.
  destruct (load_graph_from_json _ _ _ _ _ opened) as [[[j|e] w] t];
    simpl in Hs; unfold close; simpl; rewrite Hs; simpl.
  - now rewrite app_nil_r.
  - now rewrite <- app_assoc.
Qed.

End TopLevel.

(** C8.  On every exit of [load_graph_to_neo4j] the connection is closed:
    read as connection events, the trace of any call is a valid run of
    the protocol that starts with no driver and ends with the driver
    closed and no session open. *)
Theorem connection_always_closed :
  forall (storage_refuses : Store -> query -> bool)
         (driver_fails : Neo4jLoader -> bool)
         (read_file : string -> file_state)
         (graph_path dataset_name uri user password database : string)
         (clear_existing : bool) (s : Store),
    conn_run (false, O)
      (snd (load_graph_to_neo4j storage_refuses driver_fails read_file
              graph_path dataset_name uri user password database
              clear_existing s))
    = Some (false, O).
Proof.
  intros refuses dfails rf path ds u us pw dbn clear s.
  rewrite load_graph_to_neo4j_run.
  destruct (dfails _); [reflexivity|].
  destruct (refuses s QPing); [reflexivity|].
  pose proof (keeps_load_graph_from_json refuses rf ds path clear
                (mkWorld (mkLoader u us pw dbn true) s))
    as [_ Hn].
  destruct (load_graph_from_json _ _ _ _ _ _) as [[[j|e] w] t];
    simpl in *; rewrite conn_run_app, (Hn O); reflexivity.
Qed.

(** C9.  [load_graph_to_neo4j] never raises.  It returns [None] when the
    driver cannot be created, when the test statement is refused and when
    [load_graph_from_json] raises, whatever it raises; otherwise it
    returns what [load_graph_from_json] returned, which is a stats dict
    with the keys [nodes_created], [relationships_created] and
    [format]. *)
Theorem load_graph_to_neo4j_never_raises :
  forall (storage_refuses : Store -> query -> bool)
         (driver_fails : Neo4jLoader -> bool)
         (read_file : string -> file_state)
         (graph_path dataset_name uri user password database : string)
         (clear_existing : bool) (s : Store),
    let out :=
      fst (fst (load_graph_to_neo4j storage_refuses driver_fails read_file
                  graph_path dataset_name uri user password database
                  clear_existing s)) in
    out
    = (if driver_fails (mkLoader uri user password database false)
       then Ok None
       else if storage_refuses s QPing then Ok None
       else
         match fst (fst (load_graph_from_json storage_refuses read_file
                           graph_path dataset_name clear_existing
                           (mkWorld
                              (mkLoader uri user password database true) s)))
         with
         | Ok j => Ok (Some j)
         | Raise _ => Ok None
         end)
    /\ exists v,
         out = Ok v
         /\ (v = None
             \/ exists n r f,
                  v = Some (stats n r f)
                  /\ (f = "relationship_list" \/ f = "standard")).
Proof.
  intros refuses dfails rf path ds u us pw dbn clear s. cbv zeta.
  rewrite load_graph_to_neo4j_run.
  destruct (dfails _); [split; [reflexivity|exists None; auto]|].
  destruct (refuses s QPing); [split; [reflexivity|exists None; auto]|].
  destruct (load_graph_from_json _ _ _ _ _ _) as [[[j|e] w] t] eqn:E.
  - split; [reflexivity|].
    exists (Some j). split; [reflexivity|]. right.
    apply load_graph_from_json_returns in E as (n & r & f & -> & Hf).
    eauto 6.
  - split; [reflexivity|]. exists None. auto.
Qed.

(** ** Nodes before edges *)

Section EdgeStatement.

Variables (relation weight : json) (dataset : string).

Lemma edge_row_invariant (s0 : Store) (rows : list (nat * nat))
    (ab : nat * nat) (s : Store) :
  In ab rows -> rows_invariant s0 rows s ->
  rows_invariant s0 rows
    (fst (merge_edge_row relation weight dataset ab s)).
Proof.
  intros Hab [Hn Hr]. unfold merge_edge_row, merge_relates.
  destruct (existsb _ (st_rels s)); simpl.
  - split; [exact Hn|]. intros r Hin. apply in_map_iff in Hin.
    destruct Hin as (r1 & E & Hin). specialize (Hr r1 Hin).
    assert (S : same_edge r1 r /\ (r_src r1, r_dst r1) = (r_src r, r_dst r)).
    { destruct (existsb _ _) in E; subst r; repeat split; reflexivity. }
    destruct S as [S Epair]. destruct Hr as [(r0 & H0 & S0)|Hnew].
    + left. exists r0. split; [exact H0|].
      unfold same_edge in *. intuition congruence.
    + right. now rewrite <- Epair.
  - split; [exact Hn|]. intros r Hin. apply in_map_iff in Hin.
    destruct Hin as (r1 & E & Hin).
    assert (S : same_edge r1 r /\ (r_src r1, r_dst r1) = (r_src r, r_dst r)).
    { destruct (existsb _ _) in E; subst r; repeat split; reflexivity. }
    destruct S as [S Epair]. apply in_app_iff in Hin.
    destruct Hin as [Hin|[<-|[]]].
    + destruct (Hr r1 Hin) as [(r0 & H0 & S0)|Hnew].
      * left. exists r0. split; [exact H0|].
        unfold same_edge in *. intuition congruence.
      * right. now rewrite <- Epair.
    + right. rewrite <- Epair. simpl. now destruct ab.
Qed.

Lemma per_row_invariant (s0 : Store) (rows todo : list (nat * nat))
    (s : Store) :
  incl todo rows -> rows_invariant s0 rows s ->
  rows_invariant s0 rows
    (fst (per_row (merge_edge_row relation weight dataset) todo s)).
Proof.
  revert s. induction todo as [|ab todo IH]; intros s Hincl Hinv;
    [exact Hinv|].
  simpl. pose proof (edge_row_invariant s0 rows ab s
                       (Hincl ab (or_introl eq_refl)) Hinv) as H1.
  destruct (merge_edge_row relation weight dataset ab s) as [s1 out].
  simpl in H1.
  assert (Hincl' : incl todo rows)
    by (intros x Hx; apply Hincl; now right).
  specialize (IH s1 Hincl' H1).
  destruct (per_row (merge_edge_row relation weight dataset) todo s1)
    as [s2 out']. exact IH.
Qed.

Lemma exec_match_merge_edge_joins (source target : json) (s : Store) :
  edge_joins_stored_nodes source target dataset s
    (exec_match_merge_edge source target relation weight dataset s).
Proof.
  unfold exec_match_merge_edge.
  set (rows := list_prod _ _).
  assert (H0 : rows_invariant s rows s).
  { split; [reflexivity|]. intros r Hr. left. exists r.
    split; [exact Hr|]. repeat split. }
  pose proof (per_row_invariant s rows rows s (incl_refl _) H0) as [Hn Hr].
  fold (merge_edge_row relation weight dataset). split; [exact Hn|].
  intros r Hin. destruct (Hr r Hin) as [Hold|Hnew]; [left; exact Hold|].
  right. unfold rows in Hnew. apply in_prod_iff in Hnew as [Ha Hb].
  apply in_map_iff in Ha as (a & Ea & Ha).
  apply in_map_iff in Hb as (b & Eb & Hb).
  apply filter_In in Ha as [Ha Ma]. apply filter_In in Hb as [Hb Mb].
  exists a, b. auto 10.
Qed.

End EdgeStatement.

Lemma py_len_sized (x : json) :
  if sized x then exists n, py_len x = ret n else py_len x = raise TypeError.
Proof. destruct x; simpl; eauto. Qed.

Lemma py_iter_sized (x : json) :
  sized x = true -> exists l, py_iter x = ret l.
Proof. destruct x; simpl; try discriminate; eauto. Qed.

Section StandardTrace.

Variable storage_refuses : Store -> query -> bool.
Variable dataset_name : string.

(** The shape of a run of [_load_standard_format]: nothing at all when it
    raises before the session, else the session around the events of the
    node loop followed by the events of the edge loop; the edge loop only
    starts once the node loop has gone through the whole list. *)
Ltac empty_run :=
  exists [], []; simpl; split; [left; auto|];
  repeat split; auto; intros H; now contradiction H.

Lemma load_standard_trace (g : items) (w : World) :
  exists tn te,
    (snd (_load_standard_format storage_refuses g dataset_name w) = []
     /\ tn = [] /\ te = []
     \/ snd (_load_standard_format storage_refuses g dataset_name w)
        = EvSessionOpen :: tn ++ te ++ [EvSessionClose])
    /\ Forall (statement_event (is_merge_node dataset_name)) tn
    /\ Forall (statement_event (is_match_merge_edge dataset_name)) te
    /\ (te <> [] ->
        exists node_list nc w1,
          py_iter (dict_get g "nodes" (JList [])) w = (Ok node_list, w, [])
          /\ for_each (node_item storage_refuses dataset_name) node_list 0 w
             = (Ok nc, w1, tn)).
Proof.
  remember (_load_standard_format storage_refuses g dataset_name w) as out
    eqn:Eout.
  unfold _load_standard_format in Eout.
  set (nodes := dict_get g "nodes" (JList [])) in *.
  set (edges := dict_get g "edges" (JList [])) in *.
  pose proof (py_len_sized nodes) as Hn.
  pose proof (py_len_sized edges) as He.
  destruct (sized nodes) eqn:Sn;
    [|rewrite Hn in Eout; subst out; empty_run].
  destruct Hn as [ln Hn]. rewrite Hn, bind_ret_l in Eout.
  destruct (sized edges) eqn:Se;
    [|rewrite He in Eout; subst out; empty_run].
  destruct He as [le He]. rewrite He, bind_ret_l in Eout.
  destruct (py_iter_sized nodes Sn) as [node_list Hnl].
  destruct (py_iter_sized edges Se) as [edge_list Hel].
  unfold bind at 1 in Eout. unfold with_session in Eout.
  destruct (driver (self w));
    [|subst out; empty_run].
  rewrite Hnl, bind_ret_l in Eout.
  destruct (loop_outcome storage_refuses _ _ _
              (node_item_outcome storage_refuses dataset_name)
              node_list 0 w) as (_ & _ & Htn).
  unfold bind at 1 in Eout.
  destruct (for_each (node_item storage_refuses dataset_name) node_list 0 w)
    as [[[nc|e] w1] tn] eqn:En.
  - rewrite Hel, bind_ret_l in Eout.
    destruct (loop_outcome storage_refuses _ _ _
                (edge_item_outcome storage_refuses dataset_name)
                edge_list 0 w1) as (_ & _ & Hte).
    unfold bind at 1 in Eout.
    destruct (for_each (edge_item storage_refuses dataset_name) edge_list 0 w1)
      as [[[rc|e] w2] te] eqn:Ee; simpl in *; subst out; simpl.
    + exists tn, te. repeat split; auto.
      * right. now rewrite !app_nil_r, <- app_assoc.
      * intros _. exists node_list, nc, w1. now rewrite Hnl.
    + exists tn, te. repeat split; auto.
      * right. now rewrite <- app_assoc.
      * intros _. exists node_list, nc, w1. now rewrite Hnl.
  - simpl in *. subst out. simpl. exists tn, []. split; [now right|].
    repeat split; auto. intros H. now contradiction H.
Qed.

End StandardTrace.

(** C5.  In standard-format loading the statements of the whole node list
    are issued before any edge statement: a run is the session around the
    node loop's events followed by the edge loop's events, and the edge
    loop has events only after the node loop has completed over all of
    [nodes].  Every edge statement that runs leaves the nodes alone and
    stores no relationship other than those already there and those
    joining two nodes that were stored, for the dataset, when it ran. *)
Theorem nodes_written_before_edges :
  forall (storage_refuses : Store -> query -> bool) (dataset_name : string)
         (g : items) (w : World),
    exists tn te,
      (snd (_load_standard_format storage_refuses g dataset_name w) = []
       /\ tn = [] /\ te = []
       \/ snd (_load_standard_format storage_refuses g dataset_name w)
          = EvSessionOpen :: tn ++ te ++ [EvSessionClose])
      /\ Forall (statement_event (is_merge_node dataset_name)) tn
      /\ Forall (statement_event (is_match_merge_edge dataset_name)) te
      /\ (te <> [] ->
          exists node_list nc w1,
            py_iter (dict_get g "nodes" (JList [])) w = (Ok node_list, w, [])
            /\ for_each (node_item storage_refuses dataset_name) node_list 0 w
               = (Ok nc, w1, tn))
      /\ (forall source target relation weight d s s',
            In (EvRun (QMatchMergeEdge source target relation weight d) s s')
               te ->
            d = dataset_name
            /\ edge_joins_stored_nodes source target d s s').
Proof.
  intros refuses ds g w.
  destruct (load_standard_trace refuses ds g w)
    as (tn & te & Hshape & Htn & Hte & Hdone).
  exists tn, te. do 4 (split; [assumption|]).
  intros source target relation weight d s s' Hin.
  rewrite Forall_forall in Hte. specialize (Hte _ Hin).
  destruct Hte as [Hd ->]. split; [exact Hd|].
  apply exec_match_merge_edge_joins.
Qed.

Lemma nodes_written_before_edges_witness :
  exists tn te,
    (snd (_load_standard_format accepts_all friends "demo2"
            (mkWorld connected_loader empty_store)) = []
     /\ tn = [] /\ te = []
     \/ snd (_load_standard_format accepts_all friends "demo2"
               (mkWorld connected_loader empty_store))
        = EvSessionOpen :: tn ++ te ++ [EvSessionClose])
    /\ Forall (statement_event (is_merge_node "demo2")) tn
    /\ Forall (statement_event (is_match_merge_edge "demo2")) te.
Proof.
  destruct (nodes_written_before_edges accepts_all "demo2" friends
              (mkWorld connected_loader empty_store))
    as (tn & te & H1 & H2 & H3 & _).
  exists tn, te. auto.
Defined.

(** ** Property maps *)

Lemma pget_premove (k k' : string) (p : props) :
  pget k (premove k' p) = if String.eqb k k' then None else pget k p.
Proof.
  unfold pget, premove. induction p as [|[k0 v0] p IH]; simpl.
  - now destruct (String.eqb k k').
  - destruct (String.eqb k' k0) eqn:E0; simpl.
    + apply String.eqb_eq in E0. subst k0. rewrite IH.
      destruct (String.eqb k k') eqn:E; [reflexivity|].
      reflexivity.
    + destruct (String.eqb k k0) eqn:E1.
      * apply String.eqb_eq in E1. subst k0.
        rewrite String.eqb_sym in E0. now rewrite E0.
      * exact IH.
Qed.

Lemma pget_pset (k k' : string) (v : json) (p : props) :
  pget k (pset k' v p)
  = if String.eqb k k'
    then match v with JNull => None | _ => Some v end
    else pget k p.
Proof.
  unfold pset.
  destruct v; try (rewrite pget_premove; reflexivity);
    unfold pget at 1; simpl; fold (pget k (premove k' p));
    rewrite pget_premove; destruct (String.eqb k k'); reflexivity.
Qed.

Lemma pget_pupdate (k : string) (m : items) (p : props) :
  pget k (pupdate m p)
  = match assoc k m with
    | Some v => match v with JNull => None | _ => Some v end
    | None => pget k p
    end.
Proof.
  induction m as [|[k' v] m IH]; simpl; [reflexivity|].
  rewrite pget_pset. simpl. destruct (String.eqb k k'); [reflexivity|].
  exact IH.
Qed.

Lemma keeps_tag_inv (dataset : string) (m : items) :
  keeps_tag dataset m = true ->
  assoc "dataset" m = None \/ assoc "dataset" m = Some (JStr dataset).
Proof.
  unfold keeps_tag. destruct (assoc "dataset" m) as [v|]; [|now left].
  intros H. right. now rewrite (json_eqb_str _ _ H).
Qed.

(** ** Merging one endpoint *)

Lemma existsb_filter {X : Type} (f : X -> bool) (l : list X) :
  existsb f l = match filter f l with [] => false | _ => true end.
Proof.
  induction l as [|x l IH]; simpl; [reflexivity|].
  destruct (f x); simpl; [reflexivity|exact IH].
Qed.

Section Endpoint.

Variable dataset : string.

Lemma entity_matches_name_inv (a : string) (n : node) :
  entity_matches "name" (JStr a) dataset n = true ->
  has_label "Entity" n = true
  /\ pget "name" (n_props n) = Some (JStr a)
  /\ pget "dataset" (n_props n) = Some (JStr dataset).
Proof.
  unfold entity_matches, prop_is. intros H.
  apply andb_true_iff in H as [H Hd]. apply andb_true_iff in H as [Hl Hn].
  destruct (pget "name" (n_props n)) as [v|]; [|discriminate].
  destruct (pget "dataset" (n_props n)) as [v'|]; [|discriminate].
  rewrite (json_eqb_str _ _ Hn), (json_eqb_str _ _ Hd). auto.
Qed.

Lemma entity_matches_same_key (v : json) (n n' : node) :
  n_labels n' = n_labels n ->
  pget "name" (n_props n') = pget "name" (n_props n) ->
  pget "dataset" (n_props n') = pget "dataset" (n_props n) ->
  entity_matches "name" v dataset n' = entity_matches "name" v dataset n.
Proof.
  intros Hl Hn Hd. unfold entity_matches, has_label, prop_is.
  now rewrite Hl, Hn, Hd.
Qed.

(** [x += $map] on a node the pattern matched changes neither its name
    nor its tag, when the map carries that name and keeps the tag. *)
Lemma update_keeps_key (a : string) (m : items) (n : node) (v : json) :
  entity_matches "name" (JStr a) dataset n = true ->
  assoc "name" m = Some (JStr a) ->
  keeps_tag dataset m = true ->
  entity_matches "name" v dataset (set_node_props (pupdate m) n)
  = entity_matches "name" v dataset n.
Proof.
  intros Hhit Hname Htag.
  destruct (entity_matches_name_inv _ _ Hhit) as (_ & Hn & Hd).
  apply entity_matches_same_key; simpl; [reflexivity| |].
  - now rewrite pget_pupdate, Hname, Hn.
  - rewrite pget_pupdate.
    destruct (keeps_tag_inv _ _ Htag) as [->| ->]; [reflexivity|].
    now rewrite Hd.
Qed.

Lemma named_ids_map (c : string) (f : node -> node) (l : list node) :
  (forall n, In n l ->
     n_id (f n) = n_id n
     /\ entity_matches "name" (JStr c) dataset (f n)
        = entity_matches "name" (JStr c) dataset n) ->
  map n_id (filter (entity_matches "name" (JStr c) dataset) (map f l))
  = map n_id (filter (entity_matches "name" (JStr c) dataset) l).
Proof.
  induction l as [|n l IH]; intros H; simpl; [reflexivity|].
  destruct (H n (or_introl eq_refl)) as [Hid Hm]. rewrite Hm.
  assert (IH' := IH (fun x Hx => H x (or_intror Hx))).
  destruct (entity_matches "name" (JStr c) dataset n); simpl;
    [now rewrite Hid, IH'|exact IH'].
Qed.

(** The node a [MERGE] creates matches its own pattern and no other
    name. *)
Lemma created_node_named (a c : string) (t : json) (m : items) (i : nat) :
  assoc "name" m = Some (JStr a) ->
  keeps_tag dataset m = true ->
  entity_matches "name" (JStr c) dataset
    (mkNode i ["Entity"]
       (pupdate m
          (pset "type" t
             (pset "dataset" (JStr dataset) (pset "name" (JStr a) [])))))
  = String.eqb a c.
Proof.
  intros Hname Htag. unfold entity_matches, has_label, prop_is. simpl n_props.
  rewrite !pget_pupdate, Hname.
  destruct (keeps_tag_inv _ _ Htag) as [->| ->].
  - rewrite !pget_pset. simpl. rewrite String.eqb_refl. now rewrite andb_true_r.
  - simpl. rewrite String.eqb_refl. now rewrite andb_true_r.
Qed.

Variables (a : string) (t : json) (m : items).
Hypothesis m_name : assoc "name" m = Some (JStr a).
Hypothesis m_tag : keeps_tag dataset m = true.

Lemma merge_named_spec (s : Store) :
  st_rels (fst (merge_named dataset a t m s)) = st_rels s
  /\ snd (merge_named dataset a t m s)
     = named_ids dataset a (fst (merge_named dataset a t m s))
  /\ snd (merge_named dataset a t m s) <> []
  /\ (forall c, named_ids dataset c s <> [] ->
                named_ids dataset c (fst (merge_named dataset a t m s))
                = named_ids dataset c s)
  /\ (named_ids dataset a s <> [] ->
      List.length (st_nodes (fst (merge_named dataset a t m s)))
      = List.length (st_nodes s)).
Proof.
  unfold merge_named, merge_entity.
  assert (Hupd : forall c,
    map n_id
      (filter (entity_matches "name" (JStr c) dataset)
         (map (fun n => if entity_matches "name" (JStr a) dataset n
                        then set_node_props (pupdate m) n else n)
              (st_nodes s)))
    = named_ids dataset c s).
  { intros c. apply named_ids_map. intros n _.
    destruct (entity_matches "name" (JStr a) dataset n) eqn:Hhit;
      [|auto].
    split; [reflexivity|]. now apply update_keeps_key with (a := a). }
  rewrite existsb_filter.
  destruct (filter (entity_matches "name" (JStr a) dataset) (st_nodes s))
    as [|n0 rest] eqn:Ef; simpl.
  - assert (Ha : named_ids dataset a s = [])
      by (unfold named_ids; now rewrite Ef).
    assert (Hnew : forall c,
      named_ids dataset c
        (mkStore
           (st_nodes s ++
            [mkNode (st_next s) ["Entity"]
               (pupdate m
                  (pset "type" t
                     (pset "dataset" (JStr dataset)
                        (pset "name" (JStr a) []))))])
           (st_rels s) (S (st_next s)))
      = named_ids dataset c s
        ++ (if String.eqb a c then [st_next s] else [])).
    { intros c. unfold named_ids. simpl st_nodes.
      rewrite filter_app, map_app. f_equal. simpl.
      rewrite (created_node_named a c t m _ m_name m_tag).
      now destruct (String.eqb a c). }
    repeat split.
    + rewrite Hnew, Ha, String.eqb_refl. reflexivity.
    + discriminate.
    + intros c Hc. rewrite Hnew.
      destruct (String.eqb a c) eqn:E; [|apply app_nil_r].
      apply String.eqb_eq in E. subst c. contradiction.
    + intros H. contradiction.
  - repeat split.
    + unfold named_ids at 1. simpl st_nodes. rewrite Hupd.
      unfold named_ids. now rewrite Ef.
    + discriminate.
    + intros c _. unfold named_ids at 1. simpl st_nodes. apply Hupd.
    + intros _. apply length_map.
Qed.

End Endpoint.

(** ** The rows of the second and third [MERGE] *)

Lemma per_row_cons {A B : Type} (f : A -> Store -> Store * list B) (x : A)
    (rest : list A) (s : Store) :
  per_row f (x :: rest) s
  = (fst (per_row f rest (fst (f x s))),
     snd (f x s) ++ snd (per_row f rest (fst (f x s)))).
Proof.
  simpl. destruct (f x s) as [s1 out]. simpl.
  destruct (per_row f rest s1) as [s2 out']. reflexivity.
Qed.

Section Rows.

Variable dataset : string.

Lemma named_ids_nodes (c : string) (s s' : Store) :
  st_nodes s' = st_nodes s -> named_ids dataset c s' = named_ids dataset c s.
Proof. unfold named_ids. now intros ->. Qed.

Variables (b : string) (t : json) (m : items).
Hypothesis m_name : assoc "name" m = Some (JStr b).
Hypothesis m_tag : keeps_tag dataset m = true.

Lemma merge_end_rows_spec (rows : list nat) (s : Store) :
  st_rels (fst (per_row (merge_end_row dataset b t m) rows s)) = st_rels s
  /\ (forall c, named_ids dataset c s <> [] ->
                named_ids dataset c
                  (fst (per_row (merge_end_row dataset b t m) rows s))
                = named_ids dataset c s)
  /\ (named_ids dataset b s <> [] ->
      List.length
        (st_nodes (fst (per_row (merge_end_row dataset b t m) rows s)))
      = List.length (st_nodes s))
  /\ (rows <> [] ->
      named_ids dataset b
        (fst (per_row (merge_end_row dataset b t m) rows s)) <> []
      /\ forall i j,
           In (i, j) (snd (per_row (merge_end_row dataset b t m) rows s))
           <-> In i rows
               /\ In j (named_ids dataset b
                          (fst (per_row (merge_end_row dataset b t m)
                                  rows s)))).
Proof.
  revert s. induction rows as [|x rest IH]; intros s.
  - simpl. split; [reflexivity|]. split; [auto|]. split; [auto|].
    intros H. now contradiction H.
  - rewrite per_row_cons.
    assert (Hf : fst (merge_end_row dataset b t m x s)
                 = fst (merge_named dataset b t m s))
      by (unfold merge_end_row; now destruct (merge_named dataset b t m s)).
    assert (Hs : snd (merge_end_row dataset b t m x s)
                 = map (pair x) (snd (merge_named dataset b t m s)))
      by (unfold merge_end_row; now destruct (merge_named dataset b t m s)).
    rewrite Hf, Hs. clear Hf Hs.
    destruct (merge_named_spec dataset b t m m_name m_tag s)
      as (Hr1 & Hrows1 & Hne1 & Hkeep1 & Hlen1).
    destruct (merge_named dataset b t m s) as [s1 bs]. simpl in *.
    specialize (IH s1). destruct IH as (Hr2 & Hkeep2 & Hlen2 & Hrows2).
    assert (Hb1 : named_ids dataset b s1 <> []) by now rewrite <- Hrows1.
    split; [congruence|]. split; [|split].
    + intros c Hc. rewrite Hkeep2; [now apply Hkeep1|].
      now rewrite Hkeep1.
    + intros Hb. rewrite Hlen2; [now apply Hlen1|exact Hb1].
    + intros _. rewrite (Hkeep2 b Hb1). split; [exact Hb1|].
      intros i j. rewrite in_app_iff, in_map_iff.
      destruct rest as [|y rest'].
      * simpl. subst bs. split.
        -- intros [(j' & E & Hj)|[]]. injection E as <- <-. auto.
        -- intros [[<-|[]] Hj]. left. exists j. auto.
      * destruct Hrows2 as [_ Hrows2]; [discriminate|].
        rewrite Hrows2, (Hkeep2 b Hb1). subst bs. split.
        -- intros [(j' & E & Hj)|[Hi Hj]].
           ++ injection E as <- <-. split; [now left|exact Hj].
           ++ split; [now right|exact Hj].
        -- intros [[<-|Hi] Hj].
           ++ left. exists j. auto.
           ++ right. auto.
Qed.

End Rows.

Section RelatesRows.

Variables (dataset r : string).

Lemma created_relates_matches (i j k : nat) :
  relates_matches i j (JStr r) dataset
    (mkRel k i j "RELATES"
       (pset "dataset" (JStr dataset) (pset "type" (JStr r) [])))
  = true.
Proof.
  unfold relates_matches, prop_is.
  cbn [r_src r_dst r_type r_props]. rewrite !Nat.eqb_refl, !pget_pset.
  simpl. now rewrite !String.eqb_refl.
Qed.

Lemma merge_relates_row_spec (ab : nat * nat) (s : Store) :
  st_nodes (fst (merge_relates_row dataset r ab s)) = st_nodes s
  /\ (exists extra,
        st_rels (fst (merge_relates_row dataset r ab s)) = st_rels s ++ extra)
  /\ existsb (relates_matches (fst ab) (snd ab) (JStr r) dataset)
       (st_rels (fst (merge_relates_row dataset r ab s))) = true
  /\ (existsb (relates_matches (fst ab) (snd ab) (JStr r) dataset)
        (st_rels s) = true ->
      fst (merge_relates_row dataset r ab s) = s).
Proof.
  unfold merge_relates_row, merge_relates.
  destruct (existsb _ (st_rels s)) eqn:E; simpl.
  - repeat split; auto. exists []. now rewrite app_nil_r.
  - repeat split.
    + eexists. reflexivity.
    + rewrite existsb_app. simpl. rewrite created_relates_matches.
      now rewrite orb_true_r.
    + discriminate.
Qed.

Lemma merge_relates_rows_spec (rows : list (nat * nat)) (s : Store) :
  st_nodes (fst (per_row (merge_relates_row dataset r) rows s)) = st_nodes s
  /\ (exists extra,
        st_rels (fst (per_row (merge_relates_row dataset r) rows s))
        = st_rels s ++ extra)
  /\ (forall i j, In (i, j) rows ->
        existsb (relates_matches i j (JStr r) dataset)
          (st_rels (fst (per_row (merge_relates_row dataset r) rows s))) = true)
  /\ ((forall i j, In (i, j) rows ->
         existsb (relates_matches i j (JStr r) dataset) (st_rels s) = true) ->
      fst (per_row (merge_relates_row dataset r) rows s) = s).
Proof.
  revert s. induction rows as [|ab rest IH]; intros s.
  - simpl. split; [reflexivity|]. split; [exists []; now rewrite app_nil_r|].
    split; [intros i j []|reflexivity].
  - rewrite per_row_cons. simpl fst.
    destruct (merge_relates_row_spec ab s) as (Hn1 & [e1 He1] & Hm1 & Hid1).
    destruct (IH (fst (merge_relates_row dataset r ab s)))
      as (Hn2 & [e2 He2] & Hm2 & Hid2).
    split; [congruence|]. split; [|split].
    + exists (e1 ++ e2). rewrite He2, He1. now rewrite app_assoc.
    + intros i j [E|Hin]; [|now apply Hm2]. subst ab.
      rewrite He2, existsb_app. simpl in Hm1. now rewrite Hm1.
    + intros Hall.
      assert (H1 : fst (merge_relates_row dataset r ab s) = s)
        by (apply Hid1; destruct ab as [i j]; apply Hall; now left).
      rewrite H1 in *. apply Hid2. intros i j Hin. apply Hall. now right.
Qed.

End RelatesRows.

(** ** One record, merged *)

Lemma exec_merge_relationship_stages (dataset a b r : string) (st et : json)
    (sp ep : items) (s : Store) :
  let s1 := fst (merge_named dataset a st sp s) in
  let rows_a := snd (merge_named dataset a st sp s) in
  let s2 := fst (per_row (merge_end_row dataset b et ep) rows_a s1) in
  let rows_ab := snd (per_row (merge_end_row dataset b et ep) rows_a s1) in
  exec_merge_relationship (JStr a) (JStr b) dataset st et sp ep (JStr r) s
  = per_row (merge_relates_row dataset r) rows_ab s2.
Proof.
  unfold exec_merge_relationship.
  change (merge_entity "name" (JStr a) dataset
            (fun p => pupdate sp (pset "type" st p)) (pupdate sp) s)
    with (merge_named dataset a st sp s).
  destruct (merge_named dataset a st sp s) as [s1 rows_a]. simpl.
  change (fun (a0 : nat) (s0 : Store) =>
            let (s', bs) :=
              merge_entity "name" (JStr b) dataset
                (fun p => pupdate ep (pset "type" et p)) (pupdate ep) s0 in
            (s', map (pair a0) bs))
    with (merge_end_row dataset b et ep).
  destruct (per_row (merge_end_row dataset b et ep) rows_a s1)
    as [s2 rows_ab].
  reflexivity.
Qed.

Lemma exec_good (dataset : string) (q : query) (a b r : string) (s : Store) :
  good_query dataset q a b r ->
  settled dataset a b r (fst (exec q s))
  /\ (forall a' b' r',
        settled dataset a' b' r' s ->
        settled dataset a' b' r' (fst (exec q s)))
  /\ (settled dataset a b r s ->
      List.length (st_nodes (fst (exec q s))) = List.length (st_nodes s)
      /\ List.length (st_rels (fst (exec q s))) = List.length (st_rels s)).
Proof.
  intros G. destruct G as [a b r st et sp ep Hsp Hep Tsp Tep].
  assert (E : fst (exec (QMergeRelationship (JStr a) (JStr b) dataset st et
                           (JDict sp) (JDict ep) (JStr r)) s)
              = fst (exec_merge_relationship (JStr a) (JStr b) dataset st et
                       sp ep (JStr r) s)).
  { simpl. now destruct (exec_merge_relationship _ _ _ _ _ _ _ _ _). }
  rewrite E, exec_merge_relationship_stages. clear E. cbv zeta.
  destruct (merge_named_spec dataset a st sp Hsp Tsp s)
    as (Hr1 & Hrows1 & Hne1 & Hkeep1 & Hlen1).
  set (s1 := fst (merge_named dataset a st sp s)) in *.
  set (rows_a := snd (merge_named dataset a st sp s)) in *.
  destruct (merge_end_rows_spec dataset b et ep Hep Tep rows_a s1)
    as (Hr2 & Hkeep2 & Hlen2 & Hrows2).
  destruct (Hrows2 Hne1) as [Hb2 Hab]. clear Hrows2.
  set (s2 := fst (per_row (merge_end_row dataset b et ep) rows_a s1)) in *.
  set (rows_ab := snd (per_row (merge_end_row dataset b et ep) rows_a s1))
    in *.
  destruct (merge_relates_rows_spec dataset r rows_ab s2)
    as (Hn3 & [extra He3] & Hm3 & Hid3).
  set (s3 := fst (per_row (merge_relates_row dataset r) rows_ab s2)) in *.
  assert (Ha1 : named_ids dataset a s1 <> []) by now rewrite <- Hrows1.
  assert (Hnodes3 : forall c, named_ids dataset c s3 = named_ids dataset c s2)
    by (intros c; now apply named_ids_nodes).
  assert (Hmono : forall i j r',
            existsb (relates_matches i j (JStr r') dataset) (st_rels s)
            = true ->
            existsb (relates_matches i j (JStr r') dataset) (st_rels s3)
            = true).
  { intros i j r' H. rewrite He3, Hr2, Hr1, existsb_app, H. reflexivity. }
  split; [|split].
  - split; [|split].
    + now rewrite Hnodes3, (Hkeep2 a Ha1).
    + now rewrite Hnodes3.
    + intros i j Hi Hj. rewrite Hnodes3 in Hi, Hj.
      rewrite (Hkeep2 a Ha1) in Hi. apply Hm3, Hab.
      split; [now rewrite Hrows1|exact Hj].
  - intros a' b' r' (Ha' & Hb' & Hrel).
    assert (Ea : named_ids dataset a' s3 = named_ids dataset a' s).
    { rewrite Hnodes3, Hkeep2; [now apply Hkeep1|now rewrite Hkeep1]. }
    assert (Eb : named_ids dataset b' s3 = named_ids dataset b' s).
    { rewrite Hnodes3, Hkeep2; [now apply Hkeep1|now rewrite Hkeep1]. }
    split; [|split].
    + now rewrite Ea.
    + now rewrite Eb.
    + intros i j Hi Hj. rewrite Ea in Hi. rewrite Eb in Hj. auto.
  - intros (Ha & Hb & Hrel).
    assert (Hb1 : named_ids dataset b s1 = named_ids dataset b s)
      by now apply Hkeep1.
    assert (Hb1' : named_ids dataset b s1 <> []) by now rewrite Hb1.
    assert (Hsame : s3 = s2).
    { apply Hid3. intros i j Hin. apply Hab in Hin as [Hi Hj].
      rewrite Hr2, Hr1. apply Hrel.
      - rewrite <- (Hkeep1 a Ha). now rewrite <- Hrows1.
      - rewrite <- Hb1. now rewrite <- (Hkeep2 b Hb1'). }
    rewrite Hsame. split.
    + rewrite (Hlen2 Hb1'). now apply Hlen1.
    + now rewrite Hr2, Hr1.
Qed.

(** ** Well-formed records *)

Lemma well_formed_record_inv (d : items) :
  well_formed_record (JDict d) = true ->
  is_descriptor (start_of d) = true
  /\ is_descriptor (end_of d) = true
  /\ is_str (name_of (start_of d)) = true
  /\ is_str (name_of (end_of d)) = true
  /\ is_str (dict_get d "relation" (JStr "RELATED_TO")) = true.
Proof.
  unfold well_formed_record. rewrite !andb_true_iff. tauto.
Qed.

Lemma guarded_run (storage_refuses : Store -> query -> bool) {C : Type}
    (q : query) (l : log_line) (K : nat -> M C) (f : nat -> C) (acc : C)
    (w : World) :
  (forall rows w', K rows w' = (Ok (f rows), w', [])) ->
  try_except
    (rows <- session_run storage_refuses q ;; K rows)
    (fun _ => log l ;; ret acc) w
  = if storage_refuses (db w) q then
      (Ok acc, w, [EvRefused q (db w); EvLog l])
    else
      (Ok (f (snd (exec q (db w)))),
       mkWorld (self w) (fst (exec q (db w))),
       [EvRun q (db w) (fst (exec q (db w)))]).
Proof.
  intros HK. unfold try_except, bind, session_run.
  destruct (storage_refuses (db w) q); [reflexivity|].
  destruct (exec q (db w)) as [s' rows]. now rewrite HK.
Qed.

Lemma relationship_item_query (storage_refuses : Store -> query -> bool)
    (dataset_name : string) (item : json) (acc : Z * Z) (w : World) :
  well_formed_record item = true ->
  relationship_item storage_refuses dataset_name item acc w
  = match query_of dataset_name item with
    | None => (Ok acc, w, [])
    | Some q =>
        if storage_refuses (db w) q then
          (Ok acc, w, [EvRefused q (db w); EvLog WarnRelationship])
        else
          (Ok (if (0 <? snd (exec q (db w)))%nat
               then (fst acc + 2, snd acc + 1) else acc),
           mkWorld (self w) (fst (exec q (db w))),
           [EvRun q (db w) (fst (exec q (db w)))])
    end.
Proof.
  intros Hwf. destruct item; try reflexivity.
  apply well_formed_record_inv in Hwf as (Hs & He & _).
  destruct (is_descriptor_inv _ Hs) as (sd & sp & Es & Esp).
  destruct (is_descriptor_inv _ He) as (ed & ep & Ee & Eep).
  unfold query_of, name_of. rewrite Esp, Eep, Es, Ee. simpl items_of.
  unfold properties_of in Esp, Eep. rewrite Es in Esp. rewrite Ee in Eep.
  unfold start_of in Es. unfold end_of in Ee. simpl items_of in *.
  unfold relationship_item.
  change (negb (is_dict (JDict d))) with false. cbv iota.
  do 3 (rewrite bind_py_get; cbv iota). rewrite Es, Ee.
  do 2 (rewrite bind_py_get; cbv iota). rewrite Esp, Eep.
  do 2 (rewrite bind_py_get; cbv iota).
  destruct (negb (truthy (dict_get sp "name" (JStr "")))
            || negb (truthy (dict_get ep "name" (JStr "")))); [reflexivity|].
  do 4 (rewrite bind_py_get; cbv iota).
  apply (guarded_run storage_refuses _ WarnRelationship _
           (fun rows => if (0 <? rows)%nat
                        then (fst acc + 2, snd acc + 1) else acc)).
  intros rows w'. now destruct (0 <? rows)%nat.
Qed.

Lemma truthy_str_assoc (m : items) (k a : string) :
  dict_get m k (JStr "") = JStr a -> truthy (JStr a) = true ->
  assoc k m = Some (JStr a).
Proof.
  unfold dict_get. destruct (assoc k m) as [v|]; [now intros ->|].
  intros E. injection E as <-. discriminate.
Qed.

Lemma query_of_good (dataset_name : string) (item : json) (q : query) :
  well_formed_record item = true ->
  keeps_tags dataset_name item = true ->
  query_of dataset_name item = Some q ->
  exists a b r, good_query dataset_name q a b r.
Proof.
  intros Hwf Htags Hq. destruct item; try discriminate.
  apply well_formed_record_inv in Hwf as (Hs & He & Hsn & Hen & Hrel).
  unfold keeps_tags in Htags. apply andb_true_iff in Htags as [Ts Te].
  destruct (is_descriptor_inv _ Hs) as (sd & sp & Es & Esp).
  destruct (is_descriptor_inv _ He) as (ed & ep & Ee & Eep).
  unfold query_of in Hq. unfold name_of in *.
  rewrite Esp, Eep in *. simpl items_of in *.
  destruct (dict_get sp "name" (JStr "")) as [| | | |a| |] eqn:Ea;
    try discriminate.
  destruct (dict_get ep "name" (JStr "")) as [| | | |b| |] eqn:Eb;
    try discriminate.
  destruct (dict_get d "relation" (JStr "RELATED_TO")) as [| | | |r| |];
    try discriminate.
  destruct (truthy (JStr a)) eqn:Ta; [|discriminate].
  destruct (truthy (JStr b)) eqn:Tb; [|discriminate].
  simpl in Hq. injection Hq as <-.
  exists a, b, r. constructor; auto using truthy_str_assoc.
Qed.

(** ** Loading a relationship list twice *)

Lemma for_each_cons_ok {A C : Type} (body : A -> C -> M C) (x : A)
    (rest : list A) (acc acc1 : C) (w w1 : World) (t1 : list event) :
  body x acc w = (Ok acc1, w1, t1) ->
  for_each body (x :: rest) acc w
  = (let '(r, w2, t2) := for_each body rest acc1 w1 in (r, w2, t1 ++ t2)).
Proof. intros H. simpl. unfold bind. now rewrite H. Qed.

Section Idempotence.

Variable storage_refuses : Store -> query -> bool.
Variable dataset_name : string.

Let body := relationship_item storage_refuses dataset_name.

Lemma record_step_total (item : json) (acc : Z * Z) (w : World) :
  loadable dataset_name item ->
  record_step dataset_name item acc w (body item acc w).
Proof.
  intros [Hwf Htags]. unfold body.
  rewrite (relationship_item_query _ _ _ _ _ Hwf).
  destruct (query_of dataset_name item) as [q|] eqn:Eq;
    [|now apply step_skip].
  destruct (storage_refuses (db w) q); [now apply step_refused|].
  destruct (query_of_good _ _ _ Hwf Htags Eq) as (a & b & r & G).
  now apply step_run with (a := a) (b := b) (r := r).
Qed.

Lemma good_query_fun (q : query) (a b r a' b' r' : string) :
  good_query dataset_name q a b r -> good_query dataset_name q a' b' r' ->
  a' = a /\ b' = b /\ r' = r.
Proof.
  intros G G'. destruct G. inversion G'. auto.
Qed.

(** Records settled before a batch are settled after it. *)
Lemma batch_keeps_settled (xs : list json) (acc : Z * Z) (w : World)
    (a b r : string) :
  Forall (loadable dataset_name) xs ->
  settled dataset_name a b r (db w) ->
  settled dataset_name a b r (db (snd (fst (for_each body xs acc w)))).
Proof.
  intros Hxs. revert acc w.
  induction Hxs as [|x xs Hx _ IH]; intros acc w Hs; [exact Hs|].
  pose proof (record_step_total x acc w Hx) as Hstep.
  remember (body x acc w) as out eqn:Eout.
  destruct Hstep as [Hq|q Hq|q a0 b0 r0 acc' Hq G];
    match goal with
    | H : _ = body x acc w |- _ =>
        rewrite (for_each_cons_ok body x xs _ _ _ _ _ (eq_sym H))
    end.
  - specialize (IH acc w Hs).
    now destruct (for_each body xs acc w) as [[? ?] ?].
  - specialize (IH acc w Hs).
    now destruct (for_each body xs acc w) as [[? ?] ?].
  - destruct (exec_good dataset_name q a0 b0 r0 (db w) G) as (_ & Hkeep & _).
    specialize (IH acc' (mkWorld (self w) (fst (exec q (db w))))
                  (Hkeep _ _ _ Hs)).
    now destruct (for_each body xs acc' _) as [[? ?] ?].
Qed.

(** After a batch in which no statement was refused, every record of the
    batch is settled. *)
Lemma batch_settles (xs : list json) (acc : Z * Z) (w : World) :
  Forall (loadable dataset_name) xs ->
  (forall q s, ~ In (EvRefused q s) (snd (for_each body xs acc w))) ->
  forall x q a b r,
    In x xs -> query_of dataset_name x = Some q ->
    good_query dataset_name q a b r ->
    settled dataset_name a b r (db (snd (fst (for_each body xs acc w)))).
Proof.
  intros Hxs. revert acc w.
  induction Hxs as [|x xs Hx Hxs IH]; intros acc w Hno y qy a b r Hin Hqy Gy;
    [contradiction|].
  pose proof (record_step_total x acc w Hx) as Hstep.
  remember (body x acc w) as out eqn:Eout.
  destruct Hstep as [Hq|q Hq|q a0 b0 r0 acc' Hq G];
    match goal with
    | H : _ = body x acc w |- _ =>
        rewrite (for_each_cons_ok body x xs _ _ _ _ _ (eq_sym H)) in *
    end.
  - specialize (IH acc w).
    destruct (for_each body xs acc w) as [[r1 w1] t1]. simpl in *.
    destruct Hin as [<-|Hin]; [congruence|]. eapply IH; eauto.
  - exfalso.
    destruct (for_each body xs acc w) as [[r1 w1] t1]. simpl in Hno.
    apply (Hno q (db w)). now left.
  - set (w1 := mkWorld (self w) (fst (exec q (db w)))) in *.
    specialize (IH acc' w1).
    pose proof (batch_keeps_settled xs acc' w1) as Hkeep.
    destruct (for_each body xs acc' w1) as [[r1 w2] t1]. simpl in *.
    destruct Hin as [<-|Hin].
    + assert (qy = q) by congruence. subst qy.
      destruct (good_query_fun _ _ _ _ _ _ _ G Gy) as (-> & -> & ->).
      apply Hkeep; [exact Hxs|].
      now destruct (exec_good dataset_name q a0 b0 r0 (db w) G).
    + eapply IH; eauto. intros q' s' H'. apply (Hno q' s'). now right.
Qed.

(** A batch whose records are all settled leaves the counts alone. *)
Lemma settled_batch_counts (xs : list json) (acc : Z * Z) (w : World) :
  Forall (loadable dataset_name) xs ->
  (forall x q a b r,
     In x xs -> query_of dataset_name x = Some q ->
     good_query dataset_name q a b r ->
     settled dataset_name a b r (db w)) ->
  List.length (st_nodes (db (snd (fst (for_each body xs acc w)))))
  = List.length (st_nodes (db w))
  /\ List.length (st_rels (db (snd (fst (for_each body xs acc w)))))
     = List.length (st_rels (db w)).
Proof.
  intros Hxs. revert acc w.
  induction Hxs as [|x xs Hx Hxs IH]; intros acc w Hall; [auto|].
  assert (Hrest : forall y q a b r,
            In y xs -> query_of dataset_name y = Some q ->
            good_query dataset_name q a b r ->
            settled dataset_name a b r (db w))
    by (intros; eapply Hall; eauto; now right).
  pose proof (record_step_total x acc w Hx) as Hstep.
  remember (body x acc w) as out eqn:Eout.
  destruct Hstep as [Hq|q Hq|q a0 b0 r0 acc' Hq G];
    match goal with
    | H : _ = body x acc w |- _ =>
        rewrite (for_each_cons_ok body x xs _ _ _ _ _ (eq_sym H))
    end.
  - specialize (IH acc w Hrest).
    now destruct (for_each body xs acc w) as [[? ?] ?].
  - specialize (IH acc w Hrest).
    now destruct (for_each body xs acc w) as [[? ?] ?].
  - destruct (exec_good dataset_name q a0 b0 r0 (db w) G)
      as (_ & Hkeep & Hcount).
    destruct Hcount as [Hn Hr];
      [eapply Hall; eauto; now left|].
    set (w1 := mkWorld (self w) (fst (exec q (db w)))) in *.
    assert (Hrest1 : forall y q' a b r,
              In y xs -> query_of dataset_name y = Some q' ->
              good_query dataset_name q' a b r ->
              settled dataset_name a b r (db w1))
      by (intros; apply Hkeep; eapply Hrest; eauto).
    specialize (IH acc' w1 Hrest1).
    destruct (for_each body xs acc' w1) as [[? ?] ?]. simpl in *.
    destruct IH as [IHn IHr]. split; congruence.
Qed.

End Idempotence.

Lemma load_list_run (storage_refuses : Store -> query -> bool)
    (read_file : string -> file_state) (graph_path dataset_name : string)
    (l : list json) (w : World) :
  driver (self w) = true ->
  read_file graph_path = FileDecoded (JList l) ->
  load_graph_from_json storage_refuses read_file graph_path dataset_name
    false w
  = (let '(r, w', t) :=
       for_each (relationship_item storage_refuses dataset_name) l (0, 0) w in
     (match r with
      | Ok acc => Ok (stats (fst acc) (snd acc) "relationship_list")
      | Raise e => Raise e
      end, w', EvSessionOpen :: t ++ [EvSessionClose])).
Proof.
  intros Hd Hf. unfold load_graph_from_json.
  rewrite Hf, (require_driver_ok _ _ Hd), bind_ret_l.
  unfold _load_relationship_list_format, bind, with_session. rewrite Hd.
  destruct (for_each _ l (0, 0) w) as [[[acc|e] w'] t]; simpl;
    [now rewrite app_nil_r|reflexivity].
Qed.

(** C3, as the code has it.  For a well-formed relationship list whose
    property maps leave the dataset tag alone, loaded into a dataset with
    [clear_existing = False] by a load in which no statement was refused,
    loading the same file again leaves the number of stored nodes and the
    number of stored relationships as they were after the first load. *)
Theorem merge_idempotence :
  forall (storage_refuses : Store -> query -> bool)
         (read_file : string -> file_state)
         (graph_path dataset_name : string) (l : list json)
         (w w1 w2 : World) (r1 r2 : result json) (t1 t2 : list event),
    driver (self w) = true ->
    read_file graph_path = FileDecoded (JList l) ->
    Forall (fun item => well_formed_record item = true) l ->
    Forall (fun item => keeps_tags dataset_name item = true) l ->
    load_graph_from_json storage_refuses read_file graph_path dataset_name
      false w = (r1, w1, t1) ->
    (forall q s, ~ In (EvRefused q s) t1) ->
    load_graph_from_json storage_refuses read_file graph_path dataset_name
      false w1 = (r2, w2, t2) ->
    List.length (st_nodes (db w2)) = List.length (st_nodes (db w1))
    /\ List.length (st_rels (db w2)) = List.length (st_rels (db w1)).
Proof.
  intros refuses rf path ds l w w1 w2 r1 r2 t1 t2 Hd Hf Hwf Htags H1 Hno H2.
  assert (Hl : Forall (loadable ds) l).
  { rewrite Forall_forall in *. intros x Hx. split; auto. }
  assert (Hd1 : driver (self w1) = true).
  { destruct (keeps_load_graph_from_json refuses rf ds path false w)
      as [Hs _]. rewrite H1 in Hs. simpl in Hs. now rewrite Hs. }
  rewrite (load_list_run _ _ _ _ _ _ Hd Hf) in H1.
  rewrite (load_list_run _ _ _ _ _ _ Hd1 Hf) in H2.
  pose proof (batch_settles refuses ds l (0, 0) w Hl) as Hset.
  destruct (for_each (relationship_item refuses ds) l (0, 0) w)
    as [[ra wa] ta]. injection H1 as _ <- <-. simpl in Hset.
  assert (Hset' : forall x q a b r,
            In x l -> query_of ds x = Some q -> good_query ds q a b r ->
            settled ds a b r (db wa)).
  { apply Hset. intros q s Hin. apply (Hno q s).
    right. apply in_or_app. now left. }
  pose proof (settled_batch_counts refuses ds l (0, 0) wa Hl Hset') as Hc.
  destruct (for_each (relationship_item refuses ds) l (0, 0) wa)
    as [[rb wb] tb]. injection H2 as _ <- _. exact Hc.
Qed.

Lemma merge_idempotence_witness :
  let rf := fun _ : string => FileDecoded (JList [a_in_b; JInt 42]) in
  let w := mkWorld connected_loader demo_store in
  let out1 := load_graph_from_json accepts_all rf "graph.json" "demo" false w in
  let out2 :=
    load_graph_from_json accepts_all rf "graph.json" "demo" false
      (snd (fst out1)) in
  (driver (self w) = true
   /\ Forall (fun item => well_formed_record item = true) [a_in_b; JInt 42]
   /\ Forall (fun item => keeps_tags "demo" item = true) [a_in_b; JInt 42]
   /\ (forall q s, ~ In (EvRefused q s) (snd out1)))
  /\ List.length (st_nodes (db (snd (fst out2))))
     = List.length (st_nodes (db (snd (fst out1))))
  /\ List.length (st_rels (db (snd (fst out2))))
     = List.length (st_rels (db (snd (fst out1)))).
Proof.
  intros rf w out1 out2.
  assert (Hwf : Forall (fun item => well_formed_record item = true)
                  [a_in_b; JInt 42]) by (repeat constructor).
  assert (Htags : Forall (fun item => keeps_tags "demo" item = true)
                    [a_in_b; JInt 42]) by (repeat constructor).
  assert (Hno : forall q s, ~ In (EvRefused q s) (snd out1)).
  { intros q s H. vm_compute in H.
    repeat (destruct H as [H|H]; [discriminate|]). exact H. }
  split; [repeat split; assumption|].
  apply (merge_idempotence accepts_all rf "graph.json" "demo"
           [a_in_b; JInt 42] w (snd (fst out1)) (snd (fst out2))
           (fst (fst out1)) (fst (fst out2)) (snd out1) (snd out2));
    try assumption; reflexivity.
Defined.

(** C3, as stated, fails: a record whose start properties carry their own
    [dataset] key is a well-formed relationship record, and loading it
    twice into dataset ["B"] with [clear_existing = False], every
    statement accepted, stores three nodes and two relationships where
    one load stores two and one. *)
Lemma merge_idempotence_counterexample :
  let rf := fun _ : string => FileDecoded (JList [retagging_record]) in
  let w := mkWorld connected_loader empty_store in
  let out1 := load_graph_from_json accepts_all rf "graph.json" "B" false w in
  let out2 :=
    load_graph_from_json accepts_all rf "graph.json" "B" false
      (snd (fst out1)) in
  well_formed_record retagging_record = true
  /\ fst (fst out1) = Ok (stats 2 1 "relationship_list")
  /\ fst (fst out2) = Ok (stats 2 1 "relationship_list")
  /\ List.length (st_nodes (db (snd (fst out1)))) = 2%nat
  /\ List.length (st_rels (db (snd (fst out1)))) = 1%nat
  /\ List.length (st_nodes (db (snd (fst out2)))) = 3%nat
  /\ List.length (st_rels (db (snd (fst out2)))) = 2%nat.
Proof. vm_compute. repeat split. Qed.

(** ** Traces and the store *)

Lemma replay_app (s : Store) (t1 t2 : list event) :
  replay s (t1 ++ t2) = replay (replay s t1) t2.
Proof.
  revert s. induction t1 as [|e t1 IH]; intros s; [reflexivity|].
  destruct e; simpl; apply IH.
Qed.

Lemma faithful_app (s : Store) (t1 t2 : list event) :
  faithful s t1 -> faithful (replay s t1) t2 -> faithful s (t1 ++ t2).
Proof.
  revert s. induction t1 as [|e t1 IH]; intros s H1 H2; [exact H2|].
  destruct e; simpl in *; try (apply IH; assumption).
  - destruct H1 as (-> & -> & H1). repeat split. now apply IH.
  - destruct H1 as (-> & H1). split; [reflexivity|]. now apply IH.
Qed.

Lemma sends_only_app (allowed : query -> Prop) (t1 t2 : list event) :
  sends_only allowed t1 -> sends_only allowed t2 ->
  sends_only allowed (t1 ++ t2).
Proof. unfold sends_only. intros. apply Forall_app. auto. Qed.

Lemma sends_only_weaken (allowed allowed' : query -> Prop)
    (t : list event) :
  (forall q, allowed q -> allowed' q) ->
  sends_only allowed t -> sends_only allowed' t.
Proof.
  intros Hw. unfold sends_only. apply Forall_impl. intros e.
  destruct (event_query e); auto.
Qed.

(** What holds of the store before a trace and is kept by each of its
    statements holds of the store the trace leads to. *)
Lemma replay_invariant (allowed : query -> Prop) (R : Store -> Prop)
    (t : list event) :
  (forall q s, allowed q -> R s -> R (fst (exec q s))) ->
  sends_only allowed t -> forall s, R s -> R (replay s t).
Proof.
  intros Hstep Ht. induction Ht as [|e t He _ IH]; intros s Hs; [exact Hs|].
  destruct e; simpl in *; auto.
Qed.

Section Tracks.

Variable storage_refuses : Store -> query -> bool.
Variable allowed : query -> Prop.

Lemma tracks_ret {A : Type} (a : A) : tracks allowed (ret a).
Proof. intros w. simpl. repeat split. constructor. Qed.

Lemma tracks_raise {A : Type} (e : exn) : tracks allowed (@raise A e).
Proof. intros w. simpl. repeat split. constructor. Qed.

Lemma tracks_emit (e : event) :
  event_query e = None -> tracks allowed (emit e).
Proof.
  intros He w. destruct e; try discriminate; simpl; repeat split;
    constructor; simpl; auto; constructor.
Qed.

Lemma tracks_bind {A B : Type} (m : M A) (k : A -> M B) :
  tracks allowed m -> (forall a, tracks allowed (k a)) ->
  tracks allowed (bind m k).
Proof.
  intros Hm Hk w. unfold bind. specialize (Hm w).
  destruct (m w) as [[[a|e] w1] t1]; simpl in *; [|exact Hm].
  specialize (Hk a w1). destruct (k a w1) as [[r w2] t2]. simpl in *.
  destruct Hm as (F1 & R1 & S1), Hk as (F2 & R2 & S2).
  split; [|split].
  - apply faithful_app; [exact F1|now rewrite R1].
  - now rewrite replay_app, R1.
  - now apply sends_only_app.
Qed.

Lemma tracks_try_except {A : Type} (m : M A) (h : exn -> M A) :
  tracks allowed m -> (forall e, tracks allowed (h e)) ->
  tracks allowed (try_except m h).
Proof.
  intros Hm Hh w. unfold try_except. specialize (Hm w).
  destruct (m w) as [[[a|e] w1] t1]; simpl in *; [exact Hm|].
  specialize (Hh e w1). destruct (h e w1) as [[r w2] t2]. simpl in *.
  destruct Hm as (F1 & R1 & S1), Hh as (F2 & R2 & S2).
  split; [|split].
  - apply faithful_app; [exact F1|now rewrite R1].
  - now rewrite replay_app, R1.
  - now apply sends_only_app.
Qed.

Lemma tracks_try_finally {A : Type} (m : M A) (c : M unit) :
  tracks allowed m -> tracks allowed c -> tracks allowed (try_finally m c).
Proof.
  intros Hm Hc w. unfold try_finally. specialize (Hm w).
  destruct (m w) as [[r w1] t1]. simpl in *.
  specialize (Hc w1). destruct (c w1) as [[[u|e] w2] t2]; simpl in *;
    destruct Hm as (F1 & R1 & S1), Hc as (F2 & R2 & S2);
    (split; [|split]);
    first [ apply faithful_app; [exact F1|now rewrite R1]
          | now rewrite replay_app, R1
          | now apply sends_only_app ].
Qed.

Lemma tracks_for_each {A C : Type} (body : A -> C -> M C) (xs : list A)
    (acc : C) :
  (forall x acc', tracks allowed (body x acc')) ->
  tracks allowed (for_each body xs acc).
Proof.
  intros Hbody. revert acc. induction xs as [|x xs IH]; intros acc.
  - apply tracks_ret.
  - simpl. apply tracks_bind; [apply Hbody|exact IH].
Qed.

Lemma tracks_with_session {A : Type} (m : M A) :
  tracks allowed m -> tracks allowed (with_session m).
Proof.
  intros Hm w. unfold with_session. destruct (driver (self w)).
  - specialize (Hm w). destruct (m w) as [[r w1] t]. simpl in *.
    destruct Hm as (F & R & S). split; [|split].
    + apply faithful_app; [exact F|]. simpl. exact I.
    + now rewrite replay_app, R.
    + constructor; [exact I|]. apply sends_only_app; [exact S|].
      constructor; [exact I|constructor].
  - simpl. repeat split. constructor.
Qed.

Lemma tracks_session_run (q : query) :
  allowed q -> tracks allowed (session_run storage_refuses q).
Proof.
  intros Hq w. unfold session_run.
  destruct (storage_refuses (db w) q); simpl.
  - repeat split. constructor; [exact Hq|constructor].
  - destruct (exec q (db w)) as [s' rows] eqn:E. simpl. rewrite E. simpl.
    repeat split. constructor; [exact Hq|constructor].
Qed.

Lemma tracks_py_get (x : json) (k : string) (d : json) :
  tracks allowed (py_get x k d).
Proof. destruct x; simpl; first [apply tracks_raise | apply tracks_ret]. Qed.

Lemma tracks_py_len (x : json) : tracks allowed (py_len x).
Proof. destruct x; simpl; first [apply tracks_raise | apply tracks_ret]. Qed.

Lemma tracks_py_iter (x : json) : tracks allowed (py_iter x).
Proof. destruct x; simpl; first [apply tracks_raise | apply tracks_ret]. Qed.

Lemma tracks_require_driver : tracks allowed require_driver.
Proof.
  intros w. unfold require_driver. destruct (driver (self w)); simpl;
    repeat split; constructor.
Qed.

End Tracks.

(** One step of a structural proof of [tracks]. *)
Ltac tracks_step :=
  first
    [ apply tracks_ret
    | apply tracks_raise
    | apply tracks_py_get
    | apply tracks_py_len
    | apply tracks_py_iter
    | apply tracks_require_driver
    | apply tracks_emit; reflexivity
    | apply tracks_session_run
    | apply tracks_with_session
    | apply tracks_for_each; intros
    | apply tracks_try_except; [|intros]
    | apply tracks_bind; [|intros]
    | match goal with
      | |- tracks _ (if ?b then _ else _) => destruct b
      end ].

Section TracksLoader.

Variable storage_refuses : Store -> query -> bool.
Variable driver_fails : Neo4jLoader -> bool.
Variable read_file : string -> file_state.
Variable dataset_name : string.
Variable clear_existing : bool.

Let allowed := load_statement dataset_name clear_existing.

Ltac tracks_all :=
  repeat tracks_step;
  try (split; [reflexivity|discriminate]).

Lemma tracks_relationship_item (item : json) (acc : Z * Z) :
  tracks allowed (relationship_item storage_refuses dataset_name item acc).
Proof. unfold relationship_item, log. tracks_all. Qed.

Lemma tracks_node_item (node : json) (acc : Z) :
  tracks allowed (node_item storage_refuses dataset_name node acc).
Proof. unfold node_item, log. tracks_all. Qed.

Lemma tracks_edge_item (edge : json) (acc : Z) :
  tracks allowed (edge_item storage_refuses dataset_name edge acc).
Proof. unfold edge_item, log. tracks_all. Qed.

Lemma tracks_clear_graph (allowed' : query -> Prop) :
  allowed' (QClear dataset_name) ->
  tracks allowed' (clear_graph storage_refuses dataset_name).
Proof. intros H. unfold clear_graph, log. repeat tracks_step. exact H. Qed.

Lemma tracks_load_relationship_list (graph_data : list json) :
  tracks allowed
    (_load_relationship_list_format storage_refuses graph_data dataset_name).
Proof.
  unfold _load_relationship_list_format.
  apply tracks_bind; [|intros; apply tracks_ret].
  apply tracks_with_session, tracks_for_each.
  intros. apply tracks_relationship_item.
Qed.

Lemma tracks_load_standard (graph_data : items) :
  tracks allowed
    (_load_standard_format storage_refuses graph_data dataset_name).
Proof.
  unfold _load_standard_format.
  do 2 (apply tracks_bind; [apply tracks_py_len|intros _]).
  apply tracks_bind; [|intros; apply tracks_ret].
  apply tracks_with_session.
  apply tracks_bind; [apply tracks_py_iter|intros node_list].
  apply tracks_bind;
    [apply tracks_for_each; intros; apply tracks_node_item|intros nc].
  apply tracks_bind; [apply tracks_py_iter|intros edge_list].
  apply tracks_bind;
    [apply tracks_for_each; intros; apply tracks_edge_item|intros rc].
  apply tracks_ret.
Qed.

Lemma tracks_load_graph_from_json (graph_path : string) :
  tracks allowed
    (load_graph_from_json storage_refuses read_file graph_path dataset_name
       clear_existing).
Proof.
  unfold load_graph_from_json.
  apply tracks_bind; [apply tracks_require_driver|intros _].
  destruct (read_file graph_path) as [| |graph_data|e0];
    try apply tracks_raise.
  apply tracks_bind.
  - unfold allowed. destruct clear_existing; [|apply tracks_ret].
    apply tracks_clear_graph. split; [reflexivity|auto].
  - intros _. destruct graph_data; try apply tracks_raise.
    + apply tracks_load_relationship_list.
    + destruct (dict_mem "nodes" d);
        [apply tracks_load_standard|apply tracks_raise].
Qed.

(** The same for the module-level function, whose trace also holds the
    test statement of [connect]. *)
Lemma tracks_load_graph_to_neo4j
    (graph_path uri user password database : string) (s : Store) :
  let '(r, s', t) :=
    load_graph_to_neo4j storage_refuses driver_fails read_file graph_path
      dataset_name uri user password database clear_existing s in
  faithful s t
  /\ replay s t = s'
  /\ sends_only (fun q => q = QPing \/ allowed q) t.
Proof.
  rewrite load_graph_to_neo4j_run.
  destruct (driver_fails _).
  { simpl. repeat split. constructor; [exact I|constructor]. }
  destruct (storage_refuses s QPing).
  { simpl. repeat split.
    repeat (constructor; simpl; auto). }
  destruct (tracks_load_graph_from_json graph_path
              (mkWorld (mkLoader uri user password database true) s))
    as (F & R & S).
  cbn [db] in F, R.
  destruct (load_graph_from_json _ _ _ _ _ _) as [[[j|e] w] t];
    simpl fst in *; simpl snd in *.
  - split; [|split].
    + simpl. repeat split. apply faithful_app; [exact F|]. exact I.
    + simpl. now rewrite replay_app, R.
    + unfold sends_only. simpl.
      repeat (constructor; [simpl; auto|]).
      apply Forall_app. split; [|repeat constructor].
      apply (sends_only_weaken allowed); auto.
  - split; [|split].
    + simpl. repeat split. apply faithful_app; [exact F|]. exact I.
    + simpl. now rewrite replay_app, R.
    + unfold sends_only. simpl.
      repeat (constructor; [simpl; auto|]).
      apply Forall_app. split; [|repeat constructor].
      apply (sends_only_weaken allowed); auto.
Qed.

End TracksLoader.

(** ** What a statement leaves alone *)

Lemma per_row_rel {A B : Type} (R : Store -> Store -> Prop)
    (f : A -> Store -> Store * list B) (rows : list A) (s : Store) :
  (forall x, R x x) ->
  (forall x y z, R x y -> R y z -> R x z) ->
  (forall a x, R x (fst (f a x))) ->
  R s (fst (per_row f rows s)).
Proof.
  intros Hrefl Htrans Hf. revert s.
  induction rows as [|a rows IH]; intros s; [apply Hrefl|].
  rewrite per_row_cons. simpl. eapply Htrans; [apply Hf|apply IH].
Qed.

Lemma fst_let_pair {A B C : Type} (p : A * B) (f : B -> C) :
  fst (let (a, b) := p in (a, f b)) = fst p.
Proof. now destruct p. Qed.

Section OthersKept.

Variable dataset : string.

Lemma others_kept_refl (s : Store) : others_kept dataset s s.
Proof. intros n Hn _. exact Hn. Qed.

Lemma others_kept_trans (x y z : Store) :
  others_kept dataset x y -> others_kept dataset y z ->
  others_kept dataset x z.
Proof. intros H1 H2 n Hn Ht. apply H2; [now apply H1|exact Ht]. Qed.

Lemma others_kept_nodes (s s' : Store) :
  st_nodes s' = st_nodes s -> others_kept dataset s s'.
Proof. intros E n Hn _. now rewrite E. Qed.

Lemma entity_matches_tagged (key : string) (v : json) (n : node) :
  entity_matches key v dataset n = true -> tagged dataset (n_props n) = true.
Proof.
  unfold entity_matches, tagged. intros H.
  now apply andb_true_iff in H as [_ H].
Qed.

Lemma merge_entity_others_kept (key : string) (v : json)
    (on_create on_match : props -> props) (s : Store) :
  others_kept dataset s
    (fst (merge_entity key v dataset on_create on_match s)).
Proof.
  unfold merge_entity. destruct (existsb _ (st_nodes s)); simpl.
  - intros n Hn Ht. apply in_map_iff. exists n. split; [|exact Hn].
    destruct (entity_matches key v dataset n) eqn:E; [|reflexivity].
    apply entity_matches_tagged in E. congruence.
  - intros n Hn _. simpl. apply in_or_app. now left.
Qed.

Lemma merge_relates_nodes (a b : nat) (relation : json) (s : Store) :
  st_nodes (fst (merge_relates a b relation dataset s)) = st_nodes s.
Proof. unfold merge_relates. now destruct (existsb _ (st_rels s)). Qed.

Lemma exec_others_kept (q : query) (s : Store) :
  scoped_to dataset q -> others_kept dataset s (fst (exec q s)).
Proof.
  destruct q as [|d|sn en d st et sp ep r|i nm ty at_ d|a b r wt d];
    unfold scoped_to; simpl; intros Hd; subst.
  - apply others_kept_refl.
  - intros n Hn Ht. unfold exec_clear. simpl. apply filter_In.
    split; [exact Hn|now rewrite Ht].
  - rewrite fst_let_pair. unfold exec_merge_relationship.
    pose proof (merge_entity_others_kept "name" sn
                  (fun p => pupdate (items_of sp) (pset "type" st p))
                  (pupdate (items_of sp)) s) as H1.
    destruct (merge_entity "name" sn dataset _ _ s) as [s1 rows_a].
    simpl in H1.
    match goal with
    | |- context [per_row ?f rows_a s1] =>
        pose proof (per_row_rel (others_kept dataset) f rows_a s1
                      others_kept_refl others_kept_trans) as H2
    end.
    destruct (per_row _ rows_a s1) as [s2 rows_ab]. simpl in H2.
    eapply others_kept_trans; [exact H1|].
    eapply others_kept_trans.
    + apply H2. intros a0 x. rewrite fst_let_pair.
      apply merge_entity_others_kept.
    + apply per_row_rel;
        [apply others_kept_refl|apply others_kept_trans|].
      intros ab x. rewrite fst_let_pair.
      apply others_kept_nodes, merge_relates_nodes.
  - unfold exec_merge_node. apply merge_entity_others_kept.
  - unfold exec_match_merge_edge.
    apply per_row_rel; [apply others_kept_refl|apply others_kept_trans|].
    intros ab x. apply others_kept_nodes.
    pose proof (merge_relates_nodes (fst ab) (snd ab) r x) as H.
    destruct (merge_relates (fst ab) (snd ab) r dataset x) as [s' rs].
    simpl in *. exact H.
Qed.

End OthersKept.

Lemma grows_refl (s : Store) : grows s s.
Proof. split; exists []; now rewrite app_nil_r. Qed.

Lemma grows_trans (x y z : Store) : grows x y -> grows y z -> grows x z.
Proof.
  intros [[n1 Hn1] [r1 Hr1]] [[n2 Hn2] [r2 Hr2]]. split.
  - exists (n1 ++ n2). now rewrite Hn2, Hn1, app_assoc.
  - exists (r1 ++ r2). now rewrite Hr2, Hr1, app_assoc.
Qed.

Lemma merge_entity_grows (key : string) (v : json) (dataset : string)
    (on_create on_match : props -> props) (s : Store) :
  grows s (fst (merge_entity key v dataset on_create on_match s)).
Proof.
  unfold merge_entity. destruct (existsb _ (st_nodes s)); simpl; split; simpl.
  - exists []. rewrite app_nil_r, map_map. apply map_ext.
    intros n. now destruct (entity_matches key v dataset n).
  - exists []. now rewrite app_nil_r.
  - eexists. now rewrite map_app.
  - exists []. now rewrite app_nil_r.
Qed.

Lemma merge_relates_grows (a b : nat) (relation : json) (dataset : string)
    (s : Store) :
  grows s (fst (merge_relates a b relation dataset s)).
Proof.
  unfold merge_relates. destruct (existsb _ (st_rels s)); simpl;
    [apply grows_refl|].
  split; simpl.
  - exists []. now rewrite app_nil_r.
  - eexists. now rewrite map_app.
Qed.

Lemma set_weight_grows (weight : json) (ids : list nat) (s : Store) :
  grows s (set_weight weight ids s).
Proof.
  split; simpl.
  - exists []. now rewrite app_nil_r.
  - exists []. rewrite app_nil_r, map_map. apply map_ext.
    intros r. now destruct (existsb _ ids).
Qed.

Lemma exec_grows (q : query) (s : Store) :
  is_clear q = false -> grows s (fst (exec q s)).
Proof.
  destruct q as [|d|sn en d st et sp ep r|i nm ty at_ d|a b r wt d];
    simpl; intros Hc; try discriminate.
  - apply grows_refl.
  - rewrite fst_let_pair. unfold exec_merge_relationship.
    pose proof (merge_entity_grows "name" sn d
                  (fun p => pupdate (items_of sp) (pset "type" st p))
                  (pupdate (items_of sp)) s) as H1.
    destruct (merge_entity "name" sn d _ _ s) as [s1 rows_a].
    simpl in H1.
    match goal with
    | |- context [per_row ?f rows_a s1] =>
        pose proof (per_row_rel grows f rows_a s1 grows_refl grows_trans)
          as H2
    end.
    destruct (per_row _ rows_a s1) as [s2 rows_ab]. simpl in H2.
    eapply grows_trans; [exact H1|]. eapply grows_trans.
    + apply H2. intros a0 x. rewrite fst_let_pair. apply merge_entity_grows.
    + apply per_row_rel; [apply grows_refl|apply grows_trans|].
      intros ab x. rewrite fst_let_pair. apply merge_relates_grows.
  - unfold exec_merge_node. apply merge_entity_grows.
  - unfold exec_match_merge_edge.
    apply per_row_rel; [apply grows_refl|apply grows_trans|].
    intros ab x.
    pose proof (merge_relates_grows (fst ab) (snd ab) r d x) as H.
    destruct (merge_relates (fst ab) (snd ab) r d x) as [s' rs].
    simpl in *. eapply grows_trans; [exact H|apply set_weight_grows].
Qed.

(** X9.  A load touches only its own dataset's nodes: whatever
    [load_graph_to_neo4j] does for [dataset_name], clearing included,
    every node stored before the call and not tagged with [dataset_name]
    is stored after it, unchanged. *)
Theorem load_keeps_other_datasets :
  forall (storage_refuses : Store -> query -> bool)
         (driver_fails : Neo4jLoader -> bool)
         (read_file : string -> file_state)
         (graph_path dataset_name uri user password database : string)
         (clear_existing : bool) (s : Store) (n : node),
    In n (st_nodes s) ->
    tagged dataset_name (n_props n) = false ->
    In n (st_nodes
            (snd (fst (load_graph_to_neo4j storage_refuses driver_fails
                         read_file graph_path dataset_name uri user password
                         database clear_existing s)))).
Proof.
  intros refuses dfails rf path ds u us pw dbn clear s n Hin Ht.
  pose proof (tracks_load_graph_to_neo4j refuses dfails rf ds clear path
                u us pw dbn s) as H.
  destruct (load_graph_to_neo4j _ _ _ _ _ _ _ _ _ _ _) as [[r s'] t].
  destruct H as (_ & <- & Hs). simpl.
  apply (replay_invariant _ (others_kept ds s) t) with (s := s) in Hs;
    [now apply Hs| |apply others_kept_refl].
  intros q x Hq Hx. eapply others_kept_trans; [exact Hx|].
  apply exec_others_kept. unfold scoped_to.
  destruct Hq as [->|[Hq _]]; [exact I|now rewrite Hq].
Qed.

Lemma load_keeps_other_datasets_witness :
  let n := mkNode 1 ["Entity"] [("name", JStr "x"); ("dataset", JStr "B")] in
  (In n (st_nodes two_dataset_store) /\ tagged "A" (n_props n) = false)
  /\ In n (st_nodes
             (snd (fst (load_graph_to_neo4j accepts_all driver_opens
                          (fun _ => FileDecoded (JList [retagging_record]))
                          "graph.json" "A" "bolt://localhost:7687" "neo4j"
                          "password" "neo4j" true two_dataset_store)))).
Proof.
  intros n.
  assert (Hin : In n (st_nodes two_dataset_store)) by (right; now left).
  split; [split; [exact Hin|reflexivity]|].
  apply (load_keeps_other_datasets accepts_all driver_opens
           (fun _ => FileDecoded (JList [retagging_record]))
           "graph.json" "A" "bolt://localhost:7687" "neo4j" "password"
           "neo4j" true two_dataset_store n Hin).
  reflexivity.
Defined.

(** X10.  An additive load deletes nothing: with [clear_existing] off,
    [load_graph_from_json] leaves every stored node and relationship in
    place (ids, endpoints and type; properties may be updated), new ones
    following, whatever the document and whatever the server refuses. *)
Theorem additive_load_never_deletes :
  forall (storage_refuses : Store -> query -> bool)
         (read_file : string -> file_state)
         (graph_path dataset_name : string) (w : World),
    grows (db w)
      (db (snd (fst (load_graph_from_json storage_refuses read_file
                       graph_path dataset_name false w)))).
Proof.
  intros refuses rf path ds w.
  destruct (tracks_load_graph_from_json refuses rf ds false path w)
    as (_ & <- & Hs).
  apply (replay_invariant _ (grows (db w)) _) with (s := db w) in Hs;
    [exact Hs| |apply grows_refl].
  intros q x [_ Hq] Hx. eapply grows_trans; [exact Hx|].
  apply exec_grows. destruct (is_clear q); [|reflexivity].
  now specialize (Hq eq_refl).
Qed.

(** ** Clearing, again and in turn *)

Lemma filter_filter_comm {X : Type} (f g : X -> bool) (l : list X) :
  filter f (filter g l) = filter g (filter f l).
Proof.
  induction l as [|x l IH]; simpl; [reflexivity|].
  destruct (g x) eqn:G, (f x) eqn:F; simpl; rewrite ?G, ?F, IH; reflexivity.
Qed.

Lemma filter_filter_absorb {X : Type} (f g : X -> bool) (l : list X) :
  (forall x, f x = true -> g x = true) ->
  filter f (filter g l) = filter f l.
Proof.
  intros H. induction l as [|x l IH]; simpl; [reflexivity|].
  destruct (g x) eqn:G; simpl.
  - now rewrite IH.
  - destruct (f x) eqn:F; [|exact IH]. apply H in F. congruence.
Qed.

Lemma filter_all {X : Type} (f : X -> bool) (l : list X) :
  (forall x, f x = true) -> filter f l = l.
Proof.
  intros H. induction l as [|x l IH]; simpl; [reflexivity|].
  now rewrite H, IH.
Qed.

Lemma filter_none {X : Type} (f g : X -> bool) (l : list X) :
  (forall x, g x = true -> f x = false) -> filter f (filter g l) = [].
Proof.
  intros H. induction l as [|x l IH]; simpl; [reflexivity|].
  destruct (g x) eqn:G; simpl; [|exact IH]. now rewrite (H x G).
Qed.

Lemma exec_clear_idempotent (dataset : string) (s : Store) :
  exec_clear dataset (exec_clear dataset s) = exec_clear dataset s.
Proof.
  unfold exec_clear. simpl. f_equal.
  - apply filter_filter_absorb. auto.
  - rewrite (filter_none (fun n => tagged dataset (n_props n))).
    + simpl. apply filter_all. reflexivity.
    + intros n H. now apply negb_true_iff in H.
Qed.

Lemma exec_clear_comm (a b : string) (s : Store) :
  exec_clear a (exec_clear b s) = exec_clear b (exec_clear a s).
Proof.
  destruct (String.eqb_spec a b) as [->|Hab]; [reflexivity|].
  assert (Ha : forall n : node,
            tagged a (n_props n) = true ->
            negb (tagged b (n_props n)) = true).
  { intros n H. apply negb_true_iff. apply (tagged_other b a); auto. }
  assert (Hb : forall n : node,
            tagged b (n_props n) = true ->
            negb (tagged a (n_props n)) = true).
  { intros n H. apply negb_true_iff. apply (tagged_other a b); auto. }
  unfold exec_clear. simpl. f_equal.
  - apply filter_filter_comm.
  - rewrite (filter_filter_absorb (fun n => tagged a (n_props n)) _ _ Ha).
    rewrite (filter_filter_absorb (fun n => tagged b (n_props n)) _ _ Hb).
    apply filter_filter_comm.
Qed.

(** X4.  Clearing is idempotent: a second [clear_graph] of the same
    dataset, right after a first that succeeded, changes nothing. *)
Theorem clear_graph_idempotent :
  forall (storage_refuses : Store -> query -> bool) (dataset_name : string)
         (w w1 w2 : World) (t1 t2 : list event),
    clear_graph storage_refuses dataset_name w = (Ok tt, w1, t1) ->
    clear_graph storage_refuses dataset_name w1 = (Ok tt, w2, t2) ->
    db w2 = db w1.
Proof.
  intros refuses ds w w1 w2 t1 t2 H1 H2.
  apply clear_graph_ok in H1. apply clear_graph_ok in H2.
  rewrite H2, H1. apply exec_clear_idempotent.
Qed.

Lemma clear_graph_idempotent_witness :
  let w := mkWorld connected_loader two_dataset_store in
  let out1 := clear_graph accepts_all "A" w in
  let out2 := clear_graph accepts_all "A" (snd (fst out1)) in
  (fst (fst out1) = Ok tt /\ fst (fst out2) = Ok tt)
  /\ db (snd (fst out2)) = db (snd (fst out1)).
Proof.
  intros w out1 out2. split; [split; reflexivity|].
  apply (clear_graph_idempotent accepts_all "A" w (snd (fst out1))
           (snd (fst out2)) (snd out1) (snd out2)); reflexivity.
Defined.

(** X5.  Clears of two datasets commute: clearing [a] then [b] leaves the
    database that clearing [b] then [a] leaves. *)
Theorem clear_graph_commutes :
  forall (storage_refuses : Store -> query -> bool) (a b : string)
         (w wa wab wb wba : World) (ta tab tb tba : list event),
    clear_graph storage_refuses a w = (Ok tt, wa, ta) ->
    clear_graph storage_refuses b wa = (Ok tt, wab, tab) ->
    clear_graph storage_refuses b w = (Ok tt, wb, tb) ->
    clear_graph storage_refuses a wb = (Ok tt, wba, tba) ->
    db wab = db wba.
Proof.
  intros refuses a b w wa wab wb wba ta tab tb tba Ha Hab Hb Hba.
  apply clear_graph_ok in Ha, Hab, Hb, Hba.
  rewrite Hab, Ha, Hba, Hb. apply exec_clear_comm.
Qed.

Lemma clear_graph_commutes_witness :
  let w := mkWorld connected_loader retagged_store in
  let oa := clear_graph accepts_all "A" w in
  let oab := clear_graph accepts_all "B" (snd (fst oa)) in
  let ob := clear_graph accepts_all "B" w in
  let oba := clear_graph accepts_all "A" (snd (fst ob)) in
  (fst (fst oa) = Ok tt /\ fst (fst oab) = Ok tt
   /\ fst (fst ob) = Ok tt /\ fst (fst oba) = Ok tt)
  /\ db (snd (fst oab)) = db (snd (fst oba)).
Proof.
  intros w oa oab ob oba. split; [repeat split|].
  apply (clear_graph_commutes accepts_all "A" "B" w (snd (fst oa))
           (snd (fst oab)) (snd (fst ob)) (snd (fst oba))
           (snd oa) (snd oab) (snd ob) (snd oba)); reflexivity.
Defined.

(** ** Connecting, and failing early *)

(** X1.  [connect] never raises and never changes the database.  It
    returns [True] exactly when the driver could be created and the test
    statement was accepted; a driver that was created stays set when only
    the test statement fails, so that [close] still closes it. *)
Theorem connect_never_raises :
  forall (storage_refuses : Store -> query -> bool)
         (driver_fails : Neo4jLoader -> bool) (w : World),
    let out := connect storage_refuses driver_fails w in
    fst (fst out)
    = Ok (negb (driver_fails (self w))
          && negb (storage_refuses (db w) QPing))
    /\ db (snd (fst out)) = db w
    /\ driver (self (snd (fst out)))
       = (driver (self w) || negb (driver_fails (self w))).
Proof.
  intros refuses dfails [[u us p d b] s]. cbv zeta.
  rewrite (connect_run refuses dfails u us p d b s). cbv zeta. simpl.
  destruct (dfails _); simpl.
  - now rewrite orb_false_r.
  - destruct (refuses s QPing); simpl; now rewrite orb_true_r.
Qed.

Lemma load_unreadable_run (storage_refuses : Store -> query -> bool)
    (read_file : string -> file_state) (graph_path dataset_name : string)
    (clear_existing : bool) (w : World) :
  driver (self w) = true ->
  (read_file graph_path = FileAbsent ->
   load_graph_from_json storage_refuses read_file graph_path dataset_name
     clear_existing w = (Raise FileNotFoundError, w, []))
  /\ (read_file graph_path = FileMalformed ->
      load_graph_from_json storage_refuses read_file graph_path dataset_name
        clear_existing w = (Raise JSONDecodeError, w, [])).
Proof.
  intros Hd. unfold load_graph_from_json.
  split; intros Hf; now rewrite (require_driver_ok _ _ Hd), Hf.
Qed.

Lemma load_read_error_run (storage_refuses : Store -> query -> bool)
    (read_file : string -> file_state) (graph_path dataset_name : string)
    (clear_existing : bool) (w : World) (e : exn) :
  driver (self w) = true ->
  read_file graph_path = FileUnreadable e ->
  load_graph_from_json storage_refuses read_file graph_path dataset_name
    clear_existing w = (Raise e, w, []).
Proof.
  intros Hd Hf. unfold load_graph_from_json.
  now rewrite (require_driver_ok _ _ Hd), Hf.
Qed.

(** X2.  [load_graph_from_json] checks the loader and the file before it
    sends anything: without a driver it raises [RuntimeError], for a
    missing file [FileNotFoundError], for text that is not JSON
    [JSONDecodeError], and for a file whose opening or reading raises
    (an [OSError], a [UnicodeDecodeError] for bytes that are not UTF-8)
    that very error; in each case no statement has been sent and the
    database is untouched, also when [clear_existing] is set. *)
Theorem load_fails_before_any_statement :
  forall (storage_refuses : Store -> query -> bool)
         (read_file : string -> file_state)
         (graph_path dataset_name : string) (clear_existing : bool)
         (w : World),
    let out :=
      load_graph_from_json storage_refuses read_file graph_path dataset_name
        clear_existing w in
    (driver (self w) = false -> out = (Raise RuntimeError, w, []))
    /\ (driver (self w) = true -> read_file graph_path = FileAbsent ->
        out = (Raise FileNotFoundError, w, []))
    /\ (driver (self w) = true -> read_file graph_path = FileMalformed ->
        out = (Raise JSONDecodeError, w, []))
    /\ (forall e,
          driver (self w) = true ->
          read_file graph_path = FileUnreadable e ->
          out = (Raise e, w, [])).
Proof.
  intros refuses rf path ds clear w. cbv zeta. split; [|split; [|split]].
  - intros Hd. unfold load_graph_from_json, bind, require_driver.
    now rewrite Hd.
  - intros Hd. now apply load_unreadable_run.
  - intros Hd. now apply load_unreadable_run.
  - intros e Hd Hf. now apply load_read_error_run.
Qed.

(** A file that is not UTF-8, read with [clear_existing] set. *)
Lemma load_fails_before_any_statement_witness :
  (driver (self (mkWorld connected_loader demo_store)) = true
   /\ (fun _ : string => FileUnreadable UnicodeDecodeError) "graph.json"
      = FileUnreadable UnicodeDecodeError)
  /\ load_graph_from_json accepts_all
       (fun _ => FileUnreadable UnicodeDecodeError) "graph.json"
       "demo" true (mkWorld connected_loader demo_store)
     = (Raise UnicodeDecodeError, mkWorld connected_loader demo_store, []).
Proof.
  split; [split; reflexivity|].
  destruct (load_fails_before_any_statement accepts_all
              (fun _ => FileUnreadable UnicodeDecodeError) "graph.json"
              "demo" true (mkWorld connected_loader demo_store))
    as (_ & _ & _ & H).
  apply H; reflexivity.
Defined.

(** X3.  A refused clear aborts the load: when [clear_existing] is set
    and the server refuses the clear, [load_graph_from_json] logs the
    error and raises it for every document, the database is as it was,
    and no ingestion statement is sent. *)
Theorem refused_clear_aborts_load :
  forall (storage_refuses : Store -> query -> bool)
         (read_file : string -> file_state)
         (graph_path dataset_name : string) (graph_data : json) (w : World),
    driver (self w) = true ->
    read_file graph_path = FileDecoded graph_data ->
    storage_refuses (db w) (QClear dataset_name) = true ->
    load_graph_from_json storage_refuses read_file graph_path dataset_name
      true w
    = (Raise Neo4jError, w,
       [EvSessionOpen; EvRefused (QClear dataset_name) (db w);
        EvSessionClose; EvLog ErrorClearing]).
Proof.
  intros refuses rf path ds j w Hd Hf Hr.
  unfold load_graph_from_json.
  rewrite (require_driver_ok _ _ Hd), Hf. unfold bind at 1.
  now rewrite (clear_graph_run _ _ _ Hd), Hr.
Qed.

(** A server that refuses every clear and nothing else. *)
Lemma refused_clear_aborts_load_witness :
  let refuses := fun (_ : Store) (q : query) => is_clear q in
  (driver (self (mkWorld connected_loader demo_store)) = true
   /\ refuses demo_store (QClear "demo") = true)
  /\ load_graph_from_json refuses (fun _ => FileDecoded (JList [a_in_b]))
       "graph.json" "demo" true (mkWorld connected_loader demo_store)
     = (Raise Neo4jError, mkWorld connected_loader demo_store,
        [EvSessionOpen; EvRefused (QClear "demo") demo_store;
         EvSessionClose; EvLog ErrorClearing]).
Proof.
  intros refuses. split; [split; reflexivity|].
  apply (refused_clear_aborts_load refuses
           (fun _ => FileDecoded (JList [a_in_b])) "graph.json" "demo"
           (JList [a_in_b]) (mkWorld connected_loader demo_store));
    reflexivity.
Defined.

(** X6.  A call of [load_graph_to_neo4j] that fails before ingestion
    leaves the database as it found it and returns [None]: when the
    driver cannot be created, when the test statement is refused, when
    the file is missing, is not JSON, or cannot be opened or read. *)
Theorem early_failure_leaves_database :
  forall (storage_refuses : Store -> query -> bool)
         (driver_fails : Neo4jLoader -> bool)
         (read_file : string -> file_state)
         (graph_path dataset_name uri user password database : string)
         (clear_existing : bool) (s : Store),
    driver_fails (mkLoader uri user password database false) = true
    \/ storage_refuses s QPing = true
    \/ read_file graph_path = FileAbsent
    \/ read_file graph_path = FileMalformed
    \/ (exists e, read_file graph_path = FileUnreadable e) ->
    fst (load_graph_to_neo4j storage_refuses driver_fails read_file
           graph_path dataset_name uri user password database
           clear_existing s)
    = (Ok None, s).
Proof.
  intros refuses dfails rf path ds u us pw dbn clear s H.
  rewrite load_graph_to_neo4j_run.
  destruct (dfails _) eqn:D; [reflexivity|].
  destruct (refuses s QPing) eqn:P; [reflexivity|].
  destruct (load_unreadable_run refuses rf path ds clear
              (mkWorld (mkLoader u us pw dbn true) s) eq_refl) as (Ha & Hm).
  destruct H as [H|[H|[H|[H|[e H]]]]]; try discriminate.
  - now rewrite (Ha H).
  - now rewrite (Hm H).
  - now rewrite (load_read_error_run refuses rf path ds clear
                   (mkWorld (mkLoader u us pw dbn true) s) e eq_refl H).
Qed.

Lemma early_failure_leaves_database_witness :
  ((fun _ : string => FileMalformed) "graph.json" = FileMalformed)
  /\ fst (load_graph_to_neo4j accepts_all driver_opens
            (fun _ => FileMalformed) "graph.json" "demo"
            "bolt://localhost:7687" "neo4j" "password" "neo4j" true
            demo_store)
     = (Ok None, demo_store).
Proof.
  split; [reflexivity|].
  apply (early_failure_leaves_database accepts_all driver_opens
           (fun _ => FileMalformed) "graph.json" "demo"
           "bolt://localhost:7687" "neo4j" "password" "neo4j" true
           demo_store).
  right. right. right. left. reflexivity.
Defined.

(** ** What the counters count *)

Lemma count_runs_app (kind : query -> bool) (t1 t2 : list event) :
  count_runs kind (t1 ++ t2)
  = (count_runs kind t1 + count_runs kind t2)%nat.
Proof.
  induction t1 as [|e t1 IH]; [reflexivity|].
  destruct e; simpl; try exact IH.
  destruct (kind q); simpl; now rewrite IH.
Qed.

Lemma count_runs_other (kind : query -> bool) (sends : query -> Prop)
    (t : list event) :
  (forall q, sends q -> kind q = false) ->
  Forall (statement_event sends) t -> count_runs kind t = O.
Proof.
  intros Hk. induction 1 as [|e t He _ IH]; [reflexivity|].
  destruct e; simpl in *; try exact IH.
  destruct He as [Hq _]. now rewrite (Hk q Hq).
Qed.

Lemma with_session_ok_inv {A : Type} (m : M A) (w w' : World) (a : A)
    (t : list event) :
  with_session m w = (Ok a, w', t) ->
  exists t0,
    m w = (Ok a, w', t0) /\ t = EvSessionOpen :: t0 ++ [EvSessionClose].
Proof.
  unfold with_session. destruct (driver (self w)); [|discriminate].
  destruct (m w) as [[r w1] t0]. intros H. injection H as -> -> <-.
  now exists t0.
Qed.

(** The relationship statement always returns a row: each of its three
    [MERGE] clauses matches or creates. *)
Lemma merge_entity_rows (key : string) (v : json) (dataset : string)
    (on_create on_match : props -> props) (s : Store) :
  snd (merge_entity key v dataset on_create on_match s) <> [].
Proof.
  unfold merge_entity. rewrite existsb_filter.
  destruct (filter _ (st_nodes s)); simpl; discriminate.
Qed.

Lemma merge_relates_rows (a b : nat) (relation : json) (dataset : string)
    (s : Store) :
  snd (merge_relates a b relation dataset s) <> [].
Proof.
  unfold merge_relates. rewrite existsb_filter.
  destruct (filter _ (st_rels s)); simpl; discriminate.
Qed.

Lemma per_row_rows {A B : Type} (f : A -> Store -> Store * list B)
    (rows : list A) (s : Store) :
  (forall a x, snd (f a x) <> []) -> rows <> [] ->
  snd (per_row f rows s) <> [].
Proof.
  intros Hf Hrows. destruct rows as [|a rows]; [contradiction|].
  rewrite per_row_cons. simpl. specialize (Hf a s).
  destruct (snd (f a s)); [contradiction|discriminate].
Qed.

Lemma snd_let_pair_map {A B C : Type} (p : A * list B) (g : B -> C) :
  snd (let (a, b) := p in (a, map g b)) = map g (snd p).
Proof. now destruct p. Qed.

Lemma exec_merge_relationship_rows (sn en : json) (dataset : string)
    (st et : json) (sp ep : items) (r : json) (s : Store) :
  snd (exec_merge_relationship sn en dataset st et sp ep r s) <> [].
Proof.
  unfold exec_merge_relationship.
  pose proof (merge_entity_rows "name" sn dataset
                (fun p => pupdate sp (pset "type" st p)) (pupdate sp) s)
    as H1.
  destruct (merge_entity "name" sn dataset _ _ s) as [s1 rows_a].
  simpl in H1.
  match goal with
  | |- context [per_row ?f rows_a s1] =>
      assert (H2 : snd (per_row f rows_a s1) <> [])
  end.
  { apply per_row_rows; [|exact H1]. intros a x.
    rewrite snd_let_pair_map. intros E. apply map_eq_nil in E.
    now apply merge_entity_rows in E. }
  destruct (per_row _ rows_a s1) as [s2 rows_ab]. simpl in H2.
  apply per_row_rows; [|exact H2]. intros ab x.
  rewrite snd_let_pair_map. intros E. apply map_eq_nil in E.
  now apply merge_relates_rows in E.
Qed.

Lemma exec_relationship_rows (sn en : json) (d : string) (st et sp ep r : json)
    (s : Store) :
  (0 <? snd (exec (QMergeRelationship sn en d st et sp ep r) s))%nat = true.
Proof.
  simpl.
  pose proof (exec_merge_relationship_rows sn en d st et (items_of sp)
                (items_of ep) r s) as H.
  destruct (exec_merge_relationship _ _ _ _ _ _ _ _ _) as [s' rows].
  simpl in *. destruct rows; [contradiction|reflexivity].
Qed.

Section Counting.

Context {A C : Type}.
Variable body : A -> C -> M C.
Variable kind : query -> bool.
Variable add : C -> nat -> C.
Hypothesis add_0 : forall c, add c O = c.
Hypothesis add_add : forall c n m, add (add c n) m = add c (n + m).

Hypothesis body_counts :
  forall x acc w, counts_step kind add acc (body x acc w) 1.

Lemma loop_counts (xs : list A) (acc : C) (w : World) :
  counts_step kind add acc (for_each body xs acc w) (List.length xs).
Proof.
  revert acc w. induction xs as [|x xs IH]; intros acc w.
  - simpl. split; [now rewrite add_0|lia].
  - simpl. unfold bind. specialize (body_counts x acc w).
    destruct (body x acc w) as [[[acc1|e] w1] t1]; [|exact I].
    specialize (IH acc1 w1).
    destruct (for_each body xs acc1 w1) as [[[acc2|e] w2] t2]; [|exact I].
    simpl in *. destruct body_counts as [-> B1], IH as [-> B2].
    rewrite count_runs_app, add_add. split; [reflexivity|lia].
Qed.

End Counting.

Section Counters.

Variable storage_refuses : Store -> query -> bool.
Variable dataset_name : string.

Ltac read_or_raise :=
  rewrite bind_py_get;
  match goal with
  | |- context [match ?x with JDict _ => _ | _ => _ end] =>
      destruct x; try exact I
  end.

Lemma add_pair_0 (acc : Z * Z) : add_pair acc 0 = acc.
Proof. destruct acc. unfold add_pair. cbn [fst snd]. f_equal; lia. Qed.

Lemma add_pair_add (acc : Z * Z) (n m : nat) :
  add_pair (add_pair acc n) m = add_pair acc (n + m)%nat.
Proof. unfold add_pair. cbn [fst snd]. f_equal; lia. Qed.

Lemma relationship_item_counts (item : json) (acc : Z * Z) (w : World) :
  counts_step is_relationship_query add_pair acc
    (relationship_item storage_refuses dataset_name item acc w) 1.
Proof.
  assert (Hskip : counts_step is_relationship_query add_pair acc
                    (Ok acc, w, []) 1).
  { simpl. split; [now rewrite add_pair_0|lia]. }
  unfold relationship_item. destruct item; try exact Hskip.
  change (negb (is_dict (JDict d))) with false. cbv iota.
  do 3 (rewrite bind_py_get; cbv iota).
  do 4 read_or_raise.
  destruct (negb (truthy _) || negb (truthy _)); [exact Hskip|].
  do 4 (rewrite bind_py_get; cbv iota).
  rewrite (guarded_run storage_refuses _ WarnRelationship _
             (fun rows => if (0 <? rows)%nat
                          then (fst acc + 2, snd acc + 1) else acc))
    by (intros rows w'; now destruct (0 <? rows)%nat).
  destruct (storage_refuses (db w) _); [exact Hskip|].
  rewrite exec_relationship_rows. simpl. split; [|lia].
  unfold add_pair. simpl. reflexivity.
Qed.

Lemma node_item_counts (node : json) (acc : Z) (w : World) :
  counts_step is_node_query add_one acc
    (node_item storage_refuses dataset_name node acc w) 1.
Proof.
  assert (Hskip : counts_step is_node_query add_one acc (Ok acc, w, []) 1).
  { simpl. split; [unfold add_one; simpl; lia|lia]. }
  unfold node_item. read_or_raise.
  do 3 (rewrite bind_py_get; cbv iota).
  destruct (negb (truthy _)); [exact Hskip|].
  rewrite (guarded_run storage_refuses _ _ _ (fun _ => acc + 1))
    by reflexivity.
  destruct (storage_refuses (db w) _); [exact Hskip|].
  simpl. split; [reflexivity|lia].
Qed.

Lemma edge_item_counts (edge : json) (acc : Z) (w : World) :
  counts_step is_edge_query add_one acc
    (edge_item storage_refuses dataset_name edge acc w) 1.
Proof.
  assert (Hskip : counts_step is_edge_query add_one acc (Ok acc, w, []) 1).
  { simpl. split; [unfold add_one; simpl; lia|lia]. }
  unfold edge_item. read_or_raise.
  do 3 (rewrite bind_py_get; cbv iota).
  destruct (negb (truthy _) || negb (truthy _)); [exact Hskip|].
  rewrite (guarded_run storage_refuses _ _ _ (fun _ => acc + 1))
    by reflexivity.
  destruct (storage_refuses (db w) _); [exact Hskip|].
  simpl. split; [reflexivity|lia].
Qed.

End Counters.

Lemma py_len_trace (x : json) (w w' : World) (r : result Z)
    (t : list event) :
  py_len x w = (r, w', t) -> t = [].
Proof. destruct x; simpl; intros H; now injection H. Qed.

Lemma py_iter_trace (x : json) (w w' : World) (r : result (list json))
    (t : list event) :
  py_iter x w = (r, w', t) -> t = [].
Proof. destruct x; simpl; intros H; now injection H. Qed.

(** X7.  The relationship-list counters: [relationships_created] is the
    number of relationship statements that ran, at most one per element
    of the list, and [nodes_created] is always twice that. *)
Theorem relationship_list_stats :
  forall (storage_refuses : Store -> query -> bool)
         (graph_data : list json) (dataset_name : string)
         (w w' : World) (j : json) (t : list event),
    _load_relationship_list_format storage_refuses graph_data dataset_name w
    = (Ok j, w', t) ->
    j = stats (2 * Z.of_nat (count_runs is_relationship_query t))
          (Z.of_nat (count_runs is_relationship_query t))
          "relationship_list"
    /\ (count_runs is_relationship_query t <= List.length graph_data)%nat.
Proof.
  intros refuses l ds w w' j t H. unfold _load_relationship_list_format in H.
  apply bind_ok_inv in H as (acc & w1 & t1 & t2 & Hs & Hret & ->).
  injection Hret as <- _ <-.
  apply with_session_ok_inv in Hs as (t0 & Hloop & ->).
  pose proof (loop_counts (relationship_item refuses ds)
                is_relationship_query add_pair add_pair_0 add_pair_add
                (relationship_item_counts refuses ds) l (0, 0) w) as Hc.
  rewrite Hloop in Hc. simpl in Hc. destruct Hc as [-> Hb].
  rewrite app_nil_r. simpl. rewrite count_runs_app. simpl.
  rewrite Nat.add_0_r. split; [reflexivity|exact Hb].
Qed.

Lemma relationship_list_stats_witness :
  let out :=
    _load_relationship_list_format accepts_all
      [a_in_b; JInt 42; retagging_record] "demo"
      (mkWorld connected_loader empty_store) in
  fst (fst out) = Ok (stats 4 2 "relationship_list")
  /\ (count_runs is_relationship_query (snd out) <= 3)%nat.
Proof.
  intros out.
  destruct (relationship_list_stats accepts_all
              [a_in_b; JInt 42; retagging_record] "demo"
              (mkWorld connected_loader empty_store) (snd (fst out))
              (stats 4 2 "relationship_list") (snd out) eq_refl)
    as [_ H].
  split; [reflexivity|exact H].
Defined.

(** X8.  The standard counters: [nodes_created] is the number of node
    statements that ran and [relationships_created] the number of edge
    statements that ran, whether or not they stored anything new. *)
Theorem standard_stats :
  forall (storage_refuses : Store -> query -> bool) (graph_data : items)
         (dataset_name : string) (w w' : World) (j : json)
         (t : list event),
    _load_standard_format storage_refuses graph_data dataset_name w
    = (Ok j, w', t) ->
    j = stats (Z.of_nat (count_runs is_node_query t))
          (Z.of_nat (count_runs is_edge_query t)) "standard".
Proof.
  intros refuses g ds w w' j t H. unfold _load_standard_format in H.
  apply bind_ok_inv in H as (? & w1 & t1 & ? & Hl1 & H & ->).
  apply py_len_trace in Hl1 as ->.
  apply bind_ok_inv in H as (? & w2 & t2 & ? & Hl2 & H & ->).
  apply py_len_trace in Hl2 as ->.
  apply bind_ok_inv in H as (acc & w3 & t3 & ? & Hs & Hret & ->).
  injection Hret as <- _ <-.
  apply with_session_ok_inv in Hs as (t0 & H & ->).
  apply bind_ok_inv in H as (nl & w4 & t4 & ? & Hi1 & H & ->).
  apply py_iter_trace in Hi1 as ->.
  apply bind_ok_inv in H as (nc & w5 & tn & ? & Hn & H & ->).
  apply bind_ok_inv in H as (el & w6 & t6 & ? & Hi2 & H & ->).
  apply py_iter_trace in Hi2 as ->.
  apply bind_ok_inv in H as (rc & w7 & te & ? & He & Hret & ->).
  injection Hret as <- _ <-.
  pose proof (loop_counts (node_item refuses ds) is_node_query add_one
                (fun c => Z.add_0_r c)
                (fun c n m => eq_trans (eq_sym (Z.add_assoc _ _ _))
                                (f_equal (Z.add c)
                                   (eq_sym (Nat2Z.inj_add n m))))
                (node_item_counts refuses ds) nl 0 w4) as Hcn.
  pose proof (loop_counts (edge_item refuses ds) is_edge_query add_one
                (fun c => Z.add_0_r c)
                (fun c n m => eq_trans (eq_sym (Z.add_assoc _ _ _))
                                (f_equal (Z.add c)
                                   (eq_sym (Nat2Z.inj_add n m))))
                (edge_item_counts refuses ds) el 0 w6) as Hce.
  rewrite Hn in Hcn. rewrite He in Hce. simpl in Hcn, Hce.
  destruct Hcn as [-> _], Hce as [-> _].
  destruct (loop_outcome refuses _ _ _ (node_item_outcome refuses ds)
              nl 0 w4) as (_ & _ & Ftn).
  destruct (loop_outcome refuses _ _ _ (edge_item_outcome refuses ds)
              el 0 w6) as (_ & _ & Fte).
  rewrite Hn in Ftn. rewrite He in Fte. simpl in Ftn, Fte.
  assert (En : count_runs is_edge_query tn = O).
  { apply (count_runs_other _ (is_merge_node ds)); [|exact Ftn].
    intros q. destruct q; simpl; intros H; try contradiction; reflexivity. }
  assert (Ee : count_runs is_node_query te = O).
  { apply (count_runs_other _ (is_match_merge_edge ds)); [|exact Fte].
    intros q. destruct q; simpl; intros H; try contradiction; reflexivity. }
  simpl. rewrite !app_nil_r. rewrite !count_runs_app. simpl.
  rewrite En, Ee, !Nat.add_0_r. unfold add_one. simpl. reflexivity.
Qed.

Lemma standard_stats_witness :
  let out :=
    _load_standard_format accepts_all friends "demo2"
      (mkWorld connected_loader empty_store) in
  fst (fst out) = Ok (stats 2 1 "standard")
  /\ stats 2 1 "standard"
     = stats (Z.of_nat (count_runs is_node_query (snd out)))
         (Z.of_nat (count_runs is_edge_query (snd out))) "standard".
Proof.
  intros out. split; [reflexivity|].
  apply (standard_stats accepts_all friends "demo2"
           (mkWorld connected_loader empty_store) (snd (fst out))
           (stats 2 1 "standard") (snd out)).
  reflexivity.
Defined.

(** ** Documents the loops cannot read *)

Lemma for_each_abort {A C : Type} (body : A -> C -> M C) (x : A)
    (xs ys : list A) (acc acc1 : C) (w w1 : World) (t1 : list event)
    (e : exn) :
  for_each body xs acc w = (Ok acc1, w1, t1) ->
  body x acc1 w1 = (Raise e, w1, []) ->
  for_each body (xs ++ x :: ys) acc w = (Raise e, w1, t1).
Proof.
  intros Hxs Hx. rewrite for_each_app. unfold bind at 1. rewrite Hxs.
  simpl for_each. unfold bind. rewrite Hx. now rewrite app_nil_r.
Qed.

(** X11.  A [nodes] or [edges] value that has no length makes the
    standard ingester raise [TypeError] before it opens a session: nothing
    is written, not even the nodes when only [edges] is at fault. *)
Theorem unsized_nodes_or_edges_raise :
  forall (storage_refuses : Store -> query -> bool) (graph_data : items)
         (dataset_name : string) (w : World),
    sized (dict_get graph_data "nodes" (JList [])) = false
    \/ sized (dict_get graph_data "edges" (JList [])) = false ->
    _load_standard_format storage_refuses graph_data dataset_name w
    = (Raise TypeError, w, []).
Proof.
  intros refuses g ds w H. unfold _load_standard_format.
  pose proof (py_len_sized (dict_get g "nodes" (JList []))) as Hn.
  pose proof (py_len_sized (dict_get g "edges" (JList []))) as He.
  destruct (sized (dict_get g "nodes" (JList [])));
    [|now rewrite Hn].
  destruct Hn as [n ->]. rewrite bind_ret_l.
  destruct (sized (dict_get g "edges" (JList [])));
    [|now rewrite He].
  destruct H; discriminate.
Qed.

Lemma unsized_nodes_or_edges_raise_witness :
  sized (dict_get [("nodes", JList [alice]); ("edges", JNull)] "edges"
           (JList [])) = false
  /\ _load_standard_format accepts_all
       [("nodes", JList [alice]); ("edges", JNull)] "demo"
       (mkWorld connected_loader empty_store)
     = (Raise TypeError, mkWorld connected_loader empty_store, []).
Proof.
  split; [reflexivity|].
  apply (unsized_nodes_or_edges_raise accepts_all
           [("nodes", JList [alice]); ("edges", JNull)] "demo"
           (mkWorld connected_loader empty_store)).
  right. reflexivity.
Defined.

Lemma node_item_not_dict (storage_refuses : Store -> query -> bool)
    (dataset_name : string) (node : json) (acc : Z) (w : World) :
  is_dict node = false ->
  node_item storage_refuses dataset_name node acc w
  = (Raise AttributeError, w, []).
Proof. destruct node; try discriminate; reflexivity. Qed.

Lemma edge_item_not_dict (storage_refuses : Store -> query -> bool)
    (dataset_name : string) (edge : json) (acc : Z) (w : World) :
  is_dict edge = false ->
  edge_item storage_refuses dataset_name edge acc w
  = (Raise AttributeError, w, []).
Proof. destruct edge; try discriminate; reflexivity. Qed.

(** X12.  Unlike the relationship-list loop, the loops of the standard
    ingester do not pass over an element that is not a mapping: the load raises
    [AttributeError] at it.  What was written before it stays written, no
    later element is attempted, and for a node element no edge statement
    is sent at all. *)
Theorem non_mapping_element_aborts_standard :
  forall (storage_refuses : Store -> query -> bool) (graph_data : items)
         (dataset_name : string) (w : World) (x : json)
         (xs ys : list json),
    driver (self w) = true ->
    is_dict x = false ->
    (forall nc w1 t1,
       dict_get graph_data "nodes" (JList []) = JList (xs ++ x :: ys) ->
       sized (dict_get graph_data "edges" (JList [])) = true ->
       for_each (node_item storage_refuses dataset_name) xs 0 w
       = (Ok nc, w1, t1) ->
       _load_standard_format storage_refuses graph_data dataset_name w
       = (Raise AttributeError, w1,
          EvSessionOpen :: t1 ++ [EvSessionClose]))
    /\
    (forall node_list nc w1 tn rc w2 te,
       dict_get graph_data "nodes" (JList []) = JList node_list ->
       dict_get graph_data "edges" (JList []) = JList (xs ++ x :: ys) ->
       for_each (node_item storage_refuses dataset_name) node_list 0 w
       = (Ok nc, w1, tn) ->
       for_each (edge_item storage_refuses dataset_name) xs 0 w1
       = (Ok rc, w2, te) ->
       _load_standard_format storage_refuses graph_data dataset_name w
       = (Raise AttributeError, w2,
          EvSessionOpen :: (tn ++ te) ++ [EvSessionClose])).
Proof.
  intros refuses g ds w x xs ys Hd Hx. split.
  - intros nc w1 t1 Hn Hs Hloop. unfold _load_standard_format.
    rewrite Hn. unfold py_len at 1. rewrite bind_ret_l.
    pose proof (py_len_sized (dict_get g "edges" (JList []))) as He.
    rewrite Hs in He. destruct He as [le ->]. rewrite bind_ret_l.
    unfold bind at 1. unfold with_session. rewrite Hd.
    unfold py_iter at 1. rewrite bind_ret_l. unfold bind at 1.
    rewrite (for_each_abort _ x xs ys _ _ _ _ _ AttributeError Hloop
               (node_item_not_dict _ _ _ _ _ Hx)).
    reflexivity.
  - intros nl nc w1 tn rc w2 te Hn He Hnodes Hedges.
    unfold _load_standard_format. rewrite Hn, He.
    unfold py_len. rewrite !bind_ret_l.
    unfold bind at 1. unfold with_session. rewrite Hd.
    unfold py_iter. rewrite bind_ret_l. unfold bind at 1. rewrite Hnodes.
    rewrite bind_ret_l. unfold bind at 1.
    rewrite (for_each_abort _ x xs ys _ _ _ _ _ AttributeError Hedges
               (edge_item_not_dict _ _ _ _ _ Hx)).
    reflexivity.
Qed.

Lemma non_mapping_element_aborts_standard_witness :
  let g := [("nodes", JList ([alice] ++ JInt 7 :: [bob]));
            ("edges", JList [alice_knows_99])] in
  let w := mkWorld connected_loader empty_store in
  (driver (self w) = true /\ is_dict (JInt 7) = false)
  /\ fst (fst (_load_standard_format accepts_all g "demo" w))
     = Raise AttributeError
  /\ List.length
       (st_nodes (db (snd (fst (_load_standard_format accepts_all g
                                  "demo" w))))) = 1%nat.
Proof.
  intros g w. split; [split; reflexivity|].
  destruct (non_mapping_element_aborts_standard accepts_all g "demo" w
              (JInt 7) [alice] [bob] eq_refl eq_refl) as [H _].
  rewrite (H _ _ _ eq_refl eq_refl eq_refl). split; reflexivity.
Defined.

Lemma relationship_item_bad_descriptor
    (storage_refuses : Store -> query -> bool) (dataset_name : string)
    (d : items) (acc : Z * Z) (w : World) :
  is_descriptor (start_of d) = false \/ is_descriptor (end_of d) = false ->
  relationship_item storage_refuses dataset_name (JDict d) acc w
  = (Raise AttributeError, w, []).
Proof.
  unfold is_descriptor, properties_of, start_of, end_of.
  intros H. unfold relationship_item.
  change (negb (is_dict (JDict d))) with false. cbv iota.
  do 3 (rewrite bind_py_get; cbv iota).
  rewrite bind_py_get.
  destruct (dict_get d "start_node" (JDict [])) as [| | | | | |sd];
    try reflexivity.
  rewrite bind_py_get.
  destruct (dict_get d "end_node" (JDict [])) as [| | | | | |ed];
    try reflexivity.
  simpl in H. rewrite bind_py_get.
  destruct (dict_get sd "properties" (JDict [])); try reflexivity.
  rewrite bind_py_get.
  destruct (dict_get ed "properties" (JDict [])); try reflexivity.
  simpl in H. destruct H; discriminate.
Qed.

(** X13.  A relationship record one of whose node descriptors, or its
    [properties], is not a mapping is not a per-record failure: it raises
    [AttributeError] outside the loop's [try], and the load ends there,
    with the records before it written and the rest never attempted. *)
Theorem malformed_descriptor_aborts_load :
  forall (storage_refuses : Store -> query -> bool) (dataset_name : string)
         (d : items) (xs ys : list json) (w w1 : World) (acc1 : Z * Z)
         (t1 : list event),
    driver (self w) = true ->
    is_descriptor (start_of d) = false
    \/ is_descriptor (end_of d) = false ->
    for_each (relationship_item storage_refuses dataset_name) xs (0, 0) w
    = (Ok acc1, w1, t1) ->
    _load_relationship_list_format storage_refuses (xs ++ JDict d :: ys)
      dataset_name w
    = (Raise AttributeError, w1, EvSessionOpen :: t1 ++ [EvSessionClose]).
Proof.
  intros refuses ds d xs ys w w1 acc1 t1 Hd Hbad Hloop.
  unfold _load_relationship_list_format, bind, with_session. rewrite Hd.
  rewrite (for_each_abort _ (JDict d) xs ys _ _ _ _ _ AttributeError Hloop
             (relationship_item_bad_descriptor _ _ _ _ _ Hbad)).
  reflexivity.
Qed.

Lemma malformed_descriptor_aborts_load_witness :
  let d := [("start_node", JStr "A"); ("end_node", JDict [])] in
  let w := mkWorld connected_loader empty_store in
  (driver (self w) = true /\ is_descriptor (start_of d) = false)
  /\ fst (fst (_load_relationship_list_format accepts_all
                 ([] ++ JDict d :: [a_in_b]) "demo" w))
     = Raise AttributeError
  /\ db (snd (fst (_load_relationship_list_format accepts_all
                     ([] ++ JDict d :: [a_in_b]) "demo" w)))
     = empty_store.
Proof.
  intros d w. split; [split; reflexivity|].
  rewrite (malformed_descriptor_aborts_load accepts_all "demo" d []
             [a_in_b] w w (0, 0) [] eq_refl (or_introl eq_refl) eq_refl).
  split; reflexivity.
Defined.

(** ** The node statement *)

Section NodeStatement.

Variable dataset : string.
Variables (name type attributes : json).

Lemma set_node_get (k : string) (p : props) :
  pget k (set_node name type attributes p)
  = if String.eqb k "attributes" then stored attributes
    else if String.eqb k "type" then stored type
    else if String.eqb k "name" then stored name
    else pget k p.
Proof.
  unfold set_node. rewrite !pget_pset.
  destruct (String.eqb k "attributes"); [reflexivity|].
  destruct (String.eqb k "type"); [reflexivity|].
  destruct (String.eqb k "name"); reflexivity.
Qed.

Lemma set_node_keeps_key (v : json) (n : node) :
  entity_matches "id" v dataset
    (set_node_props (set_node name type attributes) n)
  = entity_matches "id" v dataset n.
Proof.
  unfold entity_matches, has_label, prop_is, set_node_props.
  cbn [n_labels n_props]. now rewrite !set_node_get.
Qed.

Lemma exec_merge_node_set (i : json) (s : Store) :
  exec_merge_node i name type attributes dataset s
  = fst (merge_entity "id" i dataset (set_node name type attributes)
           (set_node name type attributes) s).
Proof. reflexivity. Qed.

Lemma created_node_matches (i : string) (k : nat) :
  entity_matches "id" (JStr i) dataset
    (mkNode k ["Entity"]
       (set_node name type attributes
          (pset "dataset" (JStr dataset) (pset "id" (JStr i) []))))
  = true.
Proof.
  unfold entity_matches, has_label, prop_is. cbn [n_labels n_props].
  rewrite !set_node_get. cbn [String.eqb Ascii.eqb Bool.eqb].
  rewrite !pget_pset. simpl. now rewrite !String.eqb_refl.
Qed.

(** After the node statement, at least one node matches its pattern,
    every node that does carries the statement's name, type and
    attributes, and at most one node was added: none when a node matched
    before. *)
Lemma exec_merge_node_spec (i : string) (s : Store) :
  let s' := exec_merge_node (JStr i) name type attributes dataset s in
  id_ids dataset i s' <> []
  /\ (forall n, In n (st_nodes s') ->
        entity_matches "id" (JStr i) dataset n = true ->
        pget "name" (n_props n) = stored name
        /\ pget "type" (n_props n) = stored type
        /\ pget "attributes" (n_props n) = stored attributes)
  /\ List.length (st_nodes s')
     = (List.length (st_nodes s)
        + match id_ids dataset i s with [] => 1 | _ => 0 end)%nat
  /\ st_rels s' = st_rels s.
Proof.
  cbv zeta. rewrite exec_merge_node_set. unfold merge_entity, id_ids.
  rewrite existsb_filter.
  destruct (filter (entity_matches "id" (JStr i) dataset) (st_nodes s))
    as [|n0 rest] eqn:Ef; simpl.
  - split; [|split; [|split]].
    + rewrite filter_app. simpl. rewrite created_node_matches.
      rewrite map_app. simpl. intros E. apply app_eq_nil in E as [_ E].
      discriminate.
    + intros n Hin Hm. apply in_app_iff in Hin as [Hin|[<-|[]]].
      * assert (In n (filter (entity_matches "id" (JStr i) dataset)
                        (st_nodes s))) by (apply filter_In; auto).
        rewrite Ef in H. contradiction.
      * simpl. rewrite !set_node_get. simpl. auto.
    + rewrite length_app. reflexivity.
    + reflexivity.
  - assert (Hn0 : In n0 (st_nodes s)
                  /\ entity_matches "id" (JStr i) dataset n0 = true).
    { apply filter_In. rewrite Ef. now left. }
    destruct Hn0 as [Hin0 Hm0].
    split; [|split; [|split]].
    + intros E. apply map_eq_nil in E.
      assert (Hin : In (set_node_props (set_node name type attributes) n0)
                      (filter (entity_matches "id" (JStr i) dataset)
                         (map (fun n =>
                                 if entity_matches "id" (JStr i) dataset n
                                 then set_node_props
                                        (set_node name type attributes) n
                                 else n) (st_nodes s)))).
      { apply filter_In. split.
        - apply in_map_iff. exists n0. now rewrite Hm0.
        - now rewrite set_node_keeps_key. }
      rewrite E in Hin. contradiction.
    + intros n Hin Hm. apply in_map_iff in Hin as (n1 & E & Hin1).
      destruct (entity_matches "id" (JStr i) dataset n1) eqn:H1.
      * subst n. simpl. rewrite !set_node_get. simpl. auto.
      * subst n. congruence.
    + rewrite length_map. lia.
    + reflexivity.
Qed.

End NodeStatement.

Lemma node_item_run (storage_refuses : Store -> query -> bool)
    (dataset_name : string) (d : items) (acc : Z) (w : World) :
  truthy (dict_get d "id" (JStr "")) = true ->
  let q :=
    QMergeNode (dict_get d "id" (JStr ""))
      (dict_get d "name" (dict_get d "id" (JStr "")))
      (dict_get d "type" (JStr "Entity"))
      (dict_get d "attributes" (JList [])) dataset_name in
  node_item storage_refuses dataset_name (JDict d) acc w
  = if storage_refuses (db w) q then
      (Ok acc, w,
       [EvRefused q (db w); EvLog (WarnNode (dict_get d "id" (JStr "")))])
    else
      (Ok (acc + 1), mkWorld (self w) (fst (exec q (db w))),
       [EvRun q (db w) (fst (exec q (db w)))]).
Proof.
  intros Hid. cbv zeta. unfold node_item.
  do 4 (rewrite bind_py_get; cbv iota). rewrite Hid. cbn [negb].
  cbv iota.
  apply (guarded_run storage_refuses _ _ _ (fun _ => acc + 1)).
  reflexivity.
Qed.

(** X14.  The node upsert of the standard ingester is a full overwrite
    keyed by (id, dataset): once the statement of a node record with a non-empty
    string id has run, a node with that id is stored for the dataset,
    every such node carries the record's [name] (its id when the record
    has none), [type] and [attributes], at most one node was added (none
    when the id was already stored) and no relationship changed. *)
Theorem node_upsert_overwrites :
  forall (storage_refuses : Store -> query -> bool) (dataset_name : string)
         (d : items) (i : string) (acc : Z) (w : World),
    dict_get d "id" (JStr "") = JStr i ->
    i <> "" ->
    storage_refuses (db w)
      (QMergeNode (JStr i) (dict_get d "name" (JStr i))
         (dict_get d "type" (JStr "Entity"))
         (dict_get d "attributes" (JList [])) dataset_name) = false ->
    let out := node_item storage_refuses dataset_name (JDict d) acc w in
    let s' := db (snd (fst out)) in
    fst (fst out) = Ok (acc + 1)
    /\ id_ids dataset_name i s' <> []
    /\ (forall n, In n (st_nodes s') ->
          entity_matches "id" (JStr i) dataset_name n = true ->
          pget "name" (n_props n) = stored (dict_get d "name" (JStr i))
          /\ pget "type" (n_props n)
             = stored (dict_get d "type" (JStr "Entity"))
          /\ pget "attributes" (n_props n)
             = stored (dict_get d "attributes" (JList [])))
    /\ List.length (st_nodes s')
       = (List.length (st_nodes (db w))
          + match id_ids dataset_name i (db w) with [] => 1 | _ => 0 end)%nat
    /\ st_rels s' = st_rels (db w).
Proof.
  intros refuses ds d i acc w Hid Hne Hacc. cbv zeta.
  assert (Ht : truthy (dict_get d "id" (JStr "")) = true).
  { rewrite Hid. simpl. apply negb_true_iff. now apply String.eqb_neq. }
  rewrite (node_item_run refuses ds d acc w Ht). cbv zeta.
  rewrite Hid, Hacc. simpl fst. simpl snd. cbn [db].
  split; [reflexivity|].
  apply exec_merge_node_spec.
Qed.

Lemma node_upsert_overwrites_witness :
  let d := [("id", JStr "1"); ("name", JStr "Alicia")] in
  let w0 := mkWorld connected_loader empty_store in
  let w1 := snd (fst (node_item accepts_all "demo" alice 0 w0)) in
  let out := node_item accepts_all "demo" (JDict d) 1 w1 in
  (dict_get d "id" (JStr "") = JStr "1" /\ "1" <> "")
  /\ fst (fst out) = Ok 2
  /\ List.length (st_nodes (db (snd (fst out)))) = 1%nat
  /\ map (fun n => pget "name" (n_props n)) (st_nodes (db (snd (fst out))))
     = [Some (JStr "Alicia")].
Proof.
  intros d w0 w1 out.
  assert (Hne : "1" <> "") by discriminate.
  split; [split; [reflexivity|exact Hne]|].
  destruct (node_upsert_overwrites accepts_all "demo" d "1" 1 w1
              eq_refl Hne eq_refl) as (H1 & _).
  split; [exact H1|]. split; reflexivity.
Defined.

(** ** The command-line entry point *)


(** ** The statements of the standard ingester, settled *)

Lemma existsb_map_same {X : Type} (f : X -> bool) (g : X -> X)
    (l : list X) :
  (forall x, f (g x) = f x) -> existsb f (map g l) = existsb f l.
Proof.
  intros H. induction l as [|x l IH]; simpl; [reflexivity|].
  now rewrite H, IH.
Qed.

Section StandardStatements.

Variable dataset : string.

Lemma id_ids_nodes (j : string) (s s' : Store) :
  st_nodes s' = st_nodes s -> id_ids dataset j s' = id_ids dataset j s.
Proof. unfold id_ids. now intros ->. Qed.

Lemma id_ids_map (j : string) (f : node -> node) (l : list node) :
  (forall n, n_id (f n) = n_id n
             /\ entity_matches "id" (JStr j) dataset (f n)
                = entity_matches "id" (JStr j) dataset n) ->
  map n_id (filter (entity_matches "id" (JStr j) dataset) (map f l))
  = map n_id (filter (entity_matches "id" (JStr j) dataset) l).
Proof.
  intros H. induction l as [|n l IH]; simpl; [reflexivity|].
  destruct (H n) as [Hid Hm]. rewrite Hm.
  destruct (entity_matches "id" (JStr j) dataset n); simpl;
    [now rewrite Hid, IH|exact IH].
Qed.

Lemma steady_refl (s : Store) : steady dataset s s.
Proof. repeat split. Qed.

Lemma steady_trans (x y z : Store) :
  steady dataset x y -> steady dataset y z -> steady dataset x z.
Proof.
  intros (A1 & B1 & C1 & D1) (A2 & B2 & C2 & D2). repeat split.
  - intros j. now rewrite A2.
  - congruence.
  - intros a b r. now rewrite C2.
  - congruence.
Qed.

Lemma steady_settled (q : query) (s s' : Store) :
  steady dataset s s' ->
  standard_settled dataset q s -> standard_settled dataset q s'.
Proof.
  intros (Hids & _ & Hrel & _).
  destruct q as [| | |i nm ty at_ d|a b r wt d]; simpl; try tauto.
  - destruct i; try tauto. intros [-> H]. split; [reflexivity|].
    now rewrite Hids.
  - destruct a; try tauto. destruct b; try tauto. destruct r; try tauto.
    intros [-> H]. split; [reflexivity|].
    intros x y Hx Hy. rewrite Hids in Hx, Hy. rewrite Hrel. auto.
Qed.

(** The node statement. *)
Lemma created_node_id (name type attributes : json) (i j : string)
    (k : nat) :
  entity_matches "id" (JStr j) dataset
    (mkNode k ["Entity"]
       (set_node name type attributes
          (pset "dataset" (JStr dataset) (pset "id" (JStr i) []))))
  = String.eqb i j.
Proof.
  unfold entity_matches, has_label, prop_is. cbn [n_labels n_props].
  rewrite !set_node_get. cbn [String.eqb Ascii.eqb Bool.eqb].
  rewrite !pget_pset. simpl. rewrite String.eqb_refl.
  now rewrite andb_true_r.
Qed.

Lemma exec_merge_node_ids (name type attributes : json) (i : string)
    (s : Store) :
  let s' := exec_merge_node (JStr i) name type attributes dataset s in
  (forall j, id_ids dataset j s <> [] ->
             id_ids dataset j s' = id_ids dataset j s)
  /\ (id_ids dataset i s <> [] ->
      forall j, id_ids dataset j s' = id_ids dataset j s).
Proof.
  cbv zeta. rewrite exec_merge_node_set. unfold merge_entity.
  rewrite existsb_filter.
  destruct (filter (entity_matches "id" (JStr i) dataset) (st_nodes s))
    as [|n0 rest] eqn:Ef.
  - assert (Hi : id_ids dataset i s = [])
      by (unfold id_ids; now rewrite Ef).
    assert (Hnew : forall j,
      id_ids dataset j
        (fst (mkStore
                (st_nodes s ++
                 [mkNode (st_next s) ["Entity"]
                    (set_node name type attributes
                       (pset "dataset" (JStr dataset)
                          (pset "id" (JStr i) [])))])
                (st_rels s) (S (st_next s)), [st_next s]))
      = id_ids dataset j s ++ (if String.eqb i j then [st_next s] else [])).
    { intros j. unfold id_ids. cbn [st_nodes fst].
      rewrite filter_app, map_app. f_equal. cbn [filter].
      rewrite created_node_id. now destruct (String.eqb i j). }
    split.
    + intros j Hj. rewrite Hnew.
      destruct (String.eqb i j) eqn:E; [|apply app_nil_r].
      apply String.eqb_eq in E. subst j. contradiction.
    + intros H. contradiction.
  - assert (Hall : forall j,
      id_ids dataset j
        (fst (mkStore
                (map (fun n => if entity_matches "id" (JStr i) dataset n
                               then set_node_props
                                      (set_node name type attributes) n
                               else n) (st_nodes s))
                (st_rels s) (st_next s),
              map n_id (n0 :: rest)))
      = id_ids dataset j s).
    { intros j. unfold id_ids. cbn [st_nodes fst]. apply id_ids_map.
      intros n. destruct (entity_matches "id" (JStr i) dataset n);
        [|auto].
      split; [reflexivity|apply set_node_keeps_key]. }
    split; intros; apply Hall.
Qed.

Lemma exec_merge_node_settled (name type attributes : json) (i : string)
    (s : Store) :
  let q := QMergeNode (JStr i) name type attributes dataset in
  standard_settled dataset q (fst (exec q s))
  /\ (forall q', (exists j nm ty at_,
                    q' = QMergeNode (JStr j) nm ty at_ dataset) ->
                 standard_settled dataset q' s ->
                 standard_settled dataset q' (fst (exec q s)))
  /\ (standard_settled dataset q s -> steady dataset s (fst (exec q s))).
Proof.
  cbv zeta. simpl fst.
  destruct (exec_merge_node_spec dataset name type attributes i s)
    as (Hex & _ & Hlen & Hrels).
  destruct (exec_merge_node_ids name type attributes i s) as [Hkeep Hall].
  cbv zeta in *. split; [|split].
  - simpl. auto.
  - intros q' (j & nm & ty & at_ & ->). simpl. intros [_ Hj].
    split; [reflexivity|]. now rewrite Hkeep.
  - simpl. intros [_ Hi]. repeat split.
    + now apply Hall.
    + rewrite Hlen. destruct (id_ids dataset i s); [contradiction|lia].
    + intros x y r. unfold has_rel. now rewrite Hrels.
    + now rewrite Hrels.
Qed.

End StandardStatements.

Section EdgeStatement.

Variable dataset : string.
Variables (r : string) (weight : json).

Lemma relates_matches_set_weight (x y : nat) (relation : json) (ids : list nat)
    (e : rel) :
  relates_matches x y relation dataset
    (if existsb (Nat.eqb (r_id e)) ids
     then set_rel_props (pset "weight" weight) e else e)
  = relates_matches x y relation dataset e.
Proof.
  destruct (existsb _ ids); [|reflexivity].
  unfold relates_matches, prop_is, set_rel_props.
  cbn [r_src r_dst r_type r_props]. now rewrite !pget_pset.
Qed.

Lemma has_rel_set_weight (x y : nat) (r' : string) (ids : list nat)
    (s : Store) :
  has_rel dataset x y r' (set_weight weight ids s) = has_rel dataset x y r' s.
Proof.
  unfold has_rel, set_weight. cbn [st_rels].
  apply existsb_map_same. intros e. apply relates_matches_set_weight.
Qed.

(** One row of the edge statement: the pair is joined afterwards, what
    was joined stays joined, and a pair already joined changes nothing
    the statements can see. *)
Lemma merge_edge_row_spec (ab : nat * nat) (s : Store) :
  let s' := fst (merge_edge_row (JStr r) weight dataset ab s) in
  st_nodes s' = st_nodes s
  /\ has_rel dataset (fst ab) (snd ab) r s' = true
  /\ (forall x y r', has_rel dataset x y r' s = true ->
                     has_rel dataset x y r' s' = true)
  /\ (has_rel dataset (fst ab) (snd ab) r s = true ->
      (forall x y r', has_rel dataset x y r' s' = has_rel dataset x y r' s)
      /\ List.length (st_rels s') = List.length (st_rels s)).
Proof.
  cbv zeta. unfold merge_edge_row, merge_relates.
  destruct (existsb (relates_matches (fst ab) (snd ab) (JStr r) dataset)
              (st_rels s)) eqn:E; cbn [fst].
  - split; [reflexivity|]. split; [|split].
    + rewrite has_rel_set_weight. exact E.
    + intros x y r' H. now rewrite has_rel_set_weight.
    + intros _. split.
      * intros x y r'. apply has_rel_set_weight.
      * unfold set_weight. cbn [st_rels]. apply length_map.
  - split; [reflexivity|].
    assert (Hnew : forall x y r',
      has_rel dataset x y r'
        (set_weight weight [st_next s]
           (mkStore (st_nodes s)
              (st_rels s ++
               [mkRel (st_next s) (fst ab) (snd ab) "RELATES"
                  (pset "dataset" (JStr dataset)
                     (pset "type" (JStr r) []))])
              (S (st_next s))))
      = has_rel dataset x y r' s
        || relates_matches x y (JStr r') dataset
             (mkRel (st_next s) (fst ab) (snd ab) "RELATES"
                (pset "dataset" (JStr dataset) (pset "type" (JStr r) [])))).
    { intros x y r'. rewrite has_rel_set_weight. unfold has_rel.
      cbn [st_rels]. rewrite existsb_app. cbn [existsb].
      now rewrite orb_false_r. }
    split; [|split].
    + rewrite Hnew, created_relates_matches. apply orb_true_r.
    + intros x y r' H. rewrite Hnew, H. reflexivity.
    + unfold has_rel. intros H. rewrite H in E. discriminate.
Qed.

Lemma merge_edge_rows_spec (rows : list (nat * nat)) (s : Store) :
  let s' := fst (per_row (merge_edge_row (JStr r) weight dataset) rows s) in
  st_nodes s' = st_nodes s
  /\ (forall a b, In (a, b) rows -> has_rel dataset a b r s' = true)
  /\ (forall x y r', has_rel dataset x y r' s = true ->
                     has_rel dataset x y r' s' = true)
  /\ ((forall a b, In (a, b) rows -> has_rel dataset a b r s = true) ->
      (forall x y r', has_rel dataset x y r' s' = has_rel dataset x y r' s)
      /\ List.length (st_rels s') = List.length (st_rels s)).
Proof.
  cbv zeta. revert s. induction rows as [|ab rows IH]; intros s.
  - simpl. repeat split; auto.
  - rewrite per_row_cons. cbn [fst].
    destruct (merge_edge_row_spec ab s) as (N1 & J1 & M1 & I1).
    cbv zeta in *.
    destruct (IH (fst (merge_edge_row (JStr r) weight dataset ab s)))
      as (N2 & J2 & M2 & I2).
    split; [congruence|]. split; [|split].
    + intros a b [E|Hin]; [|now apply J2].
      subst ab. apply M2. exact J1.
    + intros x y r' H. apply M2, M1, H.
    + intros Hall.
      destruct I1 as [R1 L1]; [apply (Hall (fst ab) (snd ab)); left;
        now destruct ab|].
      destruct I2 as [R2 L2].
      { intros a b Hin. rewrite R1. apply Hall. now right. }
      split; [|congruence]. intros x y r'. now rewrite R2, R1.
Qed.

Lemma exec_match_merge_edge_rows (a b : string) (s : Store) :
  exec_match_merge_edge (JStr a) (JStr b) (JStr r) weight dataset s
  = fst (per_row (merge_edge_row (JStr r) weight dataset)
           (list_prod (id_ids dataset a s) (id_ids dataset b s)) s).
Proof. reflexivity. Qed.

Lemma exec_match_merge_edge_settled (a b : string) (s : Store) :
  let q := QMatchMergeEdge (JStr a) (JStr b) (JStr r) weight dataset in
  standard_settled dataset q (fst (exec q s))
  /\ (forall q', standard_settled dataset q' s ->
                 standard_settled dataset q' (fst (exec q s)))
  /\ (standard_settled dataset q s -> steady dataset s (fst (exec q s))).
Proof.
  cbv zeta. cbn [exec fst]. rewrite exec_match_merge_edge_rows.
  destruct (merge_edge_rows_spec
              (list_prod (id_ids dataset a s) (id_ids dataset b s)) s)
    as (N & J & M & I).
  cbv zeta in *.
  set (s' := fst (per_row _ _ s)) in *.
  assert (Hids : forall j, id_ids dataset j s' = id_ids dataset j s)
    by (intros j; now apply id_ids_nodes).
  split; [|split].
  - simpl. split; [reflexivity|]. intros x y Hx Hy.
    rewrite Hids in Hx, Hy. apply J. now apply in_prod.
  - intros q'.
    destruct q' as [| | |i nm ty at_ d|a' b' r' wt d]; simpl; try tauto.
    + destruct i; try tauto. intros [-> H]. split; [reflexivity|].
      now rewrite Hids.
    + destruct a'; try tauto. destruct b'; try tauto.
      destruct r'; try tauto. intros [-> H]. split; [reflexivity|].
      intros x y Hx Hy. rewrite Hids in Hx, Hy. apply M. auto.
  - simpl. intros [_ Hs].
    destruct I as [R L].
    { intros x y Hin. apply in_prod_iff in Hin as [Hx Hy]. auto. }
    repeat split; auto. now rewrite N.
Qed.

End EdgeStatement.

(** ** The loops of the standard ingester, record by record *)

Section Phase.

Context {A C : Type}.
Variable body : A -> C -> M C.
Variable query_of : A -> option query.
Variable ok : A -> Prop.

Hypothesis body_step :
  forall x acc w, ok x -> phase_step query_of x acc w (body x acc w).

(** What every statement of the loop keeps holds when the loop ends, and
    the loop does end without raising. *)
Lemma phase_inv (K : Store -> Prop) (xs : list A) (acc : C) (w : World) :
  Forall ok xs ->
  (forall x q s, In x xs -> query_of x = Some q ->
                 K s -> K (fst (exec q s))) ->
  K (db w) ->
  exists acc' w' t,
    for_each body xs acc w = (Ok acc', w', t)
    /\ self w' = self w /\ K (db w').
Proof.
  revert acc w. induction xs as [|x xs IH]; intros acc w Hok Hk K0.
  - exists acc, w, []. auto.
  - inversion Hok as [|? ? Hx Hxs]; subst.
    pose proof (body_step x acc w Hx) as Hstep.
    remember (body x acc w) as out eqn:Eout.
    assert (Hrest : forall x' q s, In x' xs -> query_of x' = Some q ->
                                   K s -> K (fst (exec q s)))
      by (intros x' q s Hin; apply Hk; now right).
    destruct Hstep as [Hq|q l Hq|q acc1 Hq]; symmetry in Eout.
    + destruct (IH acc w Hxs Hrest K0) as (a & w' & t & E & Hs & HK).
      exists a, w', ([] ++ t).
      rewrite (for_each_cons_ok _ _ _ _ _ _ _ _ Eout), E. auto.
    + destruct (IH acc w Hxs Hrest K0) as (a & w' & t & E & Hs & HK).
      exists a, w', ([EvRefused q (db w); EvLog l] ++ t).
      rewrite (for_each_cons_ok _ _ _ _ _ _ _ _ Eout), E. auto.
    + destruct (IH acc1 (mkWorld (self w) (fst (exec q (db w)))) Hxs Hrest)
        as (a & w' & t & E & Hs & HK).
      { cbn [db]. apply (Hk x q); [now left|exact Hq|exact K0]. }
      exists a, w', ([EvRun q (db w) (fst (exec q (db w)))] ++ t).
      rewrite (for_each_cons_ok _ _ _ _ _ _ _ _ Eout), E. auto.
Qed.

(** After a loop in which nothing was refused, the statement of every
    record is settled. *)
Lemma phase_settles (S : query -> Store -> Prop) (xs : list A) (acc : C)
    (w : World) :
  Forall ok xs ->
  (forall x q s, In x xs -> query_of x = Some q -> S q (fst (exec q s))) ->
  (forall x q x' q' s,
     In x xs -> query_of x = Some q ->
     In x' xs -> query_of x' = Some q' ->
     S q' s -> S q' (fst (exec q s))) ->
  (forall q s, ~ In (EvRefused q s) (snd (for_each body xs acc w))) ->
  forall x q, In x xs -> query_of x = Some q ->
              S q (db (snd (fst (for_each body xs acc w)))).
Proof.
  revert acc w. induction xs as [|x xs IH];
    intros acc w Hok Hset Hkeep Hno x' q' Hin' Hq'; [destruct Hin'|].
  inversion Hok as [|? ? Hx Hxs]; subst.
  pose proof (body_step x acc w Hx) as Hstep.
  remember (body x acc w) as out eqn:Eout.
  assert (Hset' : forall y q s, In y xs -> query_of y = Some q ->
                                S q (fst (exec q s)))
    by (intros y q s Hin; apply Hset; now right).
  assert (Hkeep' : forall y q y' q0 s,
            In y xs -> query_of y = Some q ->
            In y' xs -> query_of y' = Some q0 ->
            S q0 s -> S q0 (fst (exec q s))).
  { intros y q y' q0 s Hy Hq Hy' Hq0.
    apply (Hkeep y q y' q0); auto; now right. }
  destruct Hstep as [Hq|q l Hq|q acc1 Hq]; symmetry in Eout;
    rewrite (for_each_cons_ok _ _ _ _ _ _ _ _ Eout) in Hno |- *.
  - specialize (IH acc w Hxs Hset' Hkeep').
    destruct (for_each body xs acc w) as [[r2 w2] t2] eqn:E2.
    cbn [fst snd] in *. destruct Hin' as [->|Hin']; [congruence|].
    apply (IH Hno x' q' Hin' Hq').
  - exfalso. destruct (for_each body xs acc w) as [[r2 w2] t2].
    apply (Hno q (db w)). cbn [snd]. now left.
  - destruct Hin' as [->|Hin'].
    + assert (q' = q) by congruence. subst q'.
      destruct (phase_inv (S q) xs acc1
                  (mkWorld (self w) (fst (exec q (db w)))) Hxs)
        as (a & w' & t & E & _ & HK).
      * intros y q0 s Hy Hq0. apply (Hkeep y q0 x' q); auto; try now right.
        now left.
      * cbn [db]. apply (Hset x' q); [now left|exact Hq].
      * rewrite E. exact HK.
    + specialize (IH acc1 (mkWorld (self w) (fst (exec q (db w))))
                    Hxs Hset' Hkeep').
      destruct (for_each body xs acc1 _) as [[r2 w2] t2] eqn:E2.
      cbn [fst snd] in *. apply (IH (fun q0 s H => Hno q0 s (or_intror H))
                                   x' q' Hin' Hq').
Qed.

(** A loop all of whose statements are settled leaves the store as it
    was, up to [R]. *)
Lemma phase_steady (R : Store -> Store -> Prop)
    (S : query -> Store -> Prop) (xs : list A) (acc : C) (w : World) :
  (forall s, R s s) ->
  (forall x y z, R x y -> R y z -> R x z) ->
  Forall ok xs ->
  (forall x q s, In x xs -> query_of x = Some q ->
                 S q s -> R s (fst (exec q s))) ->
  (forall q s s', R s s' -> S q s -> S q s') ->
  (forall x q, In x xs -> query_of x = Some q -> S q (db w)) ->
  R (db w) (db (snd (fst (for_each body xs acc w)))).
Proof.
  intros Hrefl Htrans. revert acc w.
  induction xs as [|x xs IH]; intros acc w Hok Hin Hresp Hall;
    [apply Hrefl|].
  inversion Hok as [|? ? Hx Hxs]; subst.
  pose proof (body_step x acc w Hx) as Hstep.
  remember (body x acc w) as out eqn:Eout.
  assert (Hin' : forall y q s, In y xs -> query_of y = Some q ->
                               S q s -> R s (fst (exec q s)))
    by (intros y q s Hy; apply Hin; now right).
  destruct Hstep as [Hq|q l Hq|q acc1 Hq]; symmetry in Eout;
    rewrite (for_each_cons_ok _ _ _ _ _ _ _ _ Eout).
  - specialize (IH acc w Hxs Hin' Hresp).
    destruct (for_each body xs acc w) as [[r2 w2] t2]. cbn [fst snd] in *.
    apply IH. intros y q Hy. apply Hall. now right.
  - specialize (IH acc w Hxs Hin' Hresp).
    destruct (for_each body xs acc w) as [[r2 w2] t2]. cbn [fst snd] in *.
    apply IH. intros y q0 Hy. apply Hall. now right.
  - assert (R1 : R (db w) (fst (exec q (db w)))).
    { apply (Hin x q); [now left|exact Hq|].
      apply (Hall x q); [now left|exact Hq]. }
    specialize (IH acc1 (mkWorld (self w) (fst (exec q (db w))))
                  Hxs Hin' Hresp).
    destruct (for_each body xs acc1 _) as [[r2 w2] t2]. cbn [fst snd db] in *.
    apply (Htrans _ _ _ R1). apply IH.
    intros y q0 Hy Hq0. apply (Hresp q0 _ _ R1).
    apply (Hall y q0); [now right|exact Hq0].
Qed.

End Phase.

Section StandardLoops.

Variable storage_refuses : Store -> query -> bool.
Variable dataset_name : string.

Lemma edge_item_run (d : items) (acc : Z) (w : World) :
  truthy (dict_get d "source" (JStr "")) = true ->
  truthy (dict_get d "target" (JStr "")) = true ->
  let q :=
    QMatchMergeEdge (dict_get d "source" (JStr ""))
      (dict_get d "target" (JStr ""))
      (dict_get d "relation" (JStr "RELATED_TO"))
      (dict_get d "weight" (JFloat float_one)) dataset_name in
  edge_item storage_refuses dataset_name (JDict d) acc w
  = if storage_refuses (db w) q then
      (Ok acc, w,
       [EvRefused q (db w);
        EvLog (WarnEdge (dict_get d "source" (JStr ""))
                 (dict_get d "target" (JStr "")))])
    else
      (Ok (acc + 1), mkWorld (self w) (fst (exec q (db w))),
       [EvRun q (db w) (fst (exec q (db w)))]).
Proof.
  intros Hs Ht. cbv zeta. unfold edge_item.
  do 4 (rewrite bind_py_get; cbv iota). rewrite Hs, Ht. cbn [negb orb].
  cbv iota.
  apply (guarded_run storage_refuses _ _ _ (fun _ => acc + 1)).
  reflexivity.
Qed.

Lemma node_item_phase (node : json) (acc : Z) (w : World) :
  well_formed_node node = true ->
  phase_step (node_query dataset_name) node acc w
    (node_item storage_refuses dataset_name node acc w).
Proof.
  destruct node as [| | | | | |d]; try discriminate. intros _.
  destruct (truthy (dict_get d "id" (JStr ""))) eqn:Hid.
  - rewrite (node_item_run storage_refuses dataset_name d acc w Hid).
    cbv zeta.
    destruct (storage_refuses (db w) _).
    + apply phase_refused. unfold node_query. now rewrite Hid.
    + apply phase_run. unfold node_query. now rewrite Hid.
  - replace (node_item storage_refuses dataset_name (JDict d) acc w)
      with (@Ok Z acc, w, @nil event).
    + apply phase_skip. unfold node_query. now rewrite Hid.
    + unfold node_item. do 4 (rewrite bind_py_get; cbv iota).
      now rewrite Hid.
Qed.

Lemma edge_item_phase (edge : json) (acc : Z) (w : World) :
  well_formed_edge edge = true ->
  phase_step (edge_query dataset_name) edge acc w
    (edge_item storage_refuses dataset_name edge acc w).
Proof.
  destruct edge as [| | | | | |d]; try discriminate. intros _.
  destruct (truthy (dict_get d "source" (JStr ""))) eqn:Hs;
    [destruct (truthy (dict_get d "target" (JStr ""))) eqn:Ht|].
  - rewrite (edge_item_run d acc w Hs Ht). cbv zeta.
    destruct (storage_refuses (db w) _).
    + apply phase_refused. unfold edge_query. now rewrite Hs, Ht.
    + apply phase_run. unfold edge_query. now rewrite Hs, Ht.
  - replace (edge_item storage_refuses dataset_name (JDict d) acc w)
      with (@Ok Z acc, w, @nil event).
    + apply phase_skip. unfold edge_query. now rewrite Hs, Ht.
    + unfold edge_item. do 4 (rewrite bind_py_get; cbv iota).
      now rewrite Hs, Ht.
  - replace (edge_item storage_refuses dataset_name (JDict d) acc w)
      with (@Ok Z acc, w, @nil event).
    + apply phase_skip. unfold edge_query. now rewrite Hs.
    + unfold edge_item. do 4 (rewrite bind_py_get; cbv iota).
      now rewrite Hs.
Qed.

Lemma node_query_shape (node : json) (q : query) :
  well_formed_node node = true ->
  node_query dataset_name node = Some q ->
  exists i nm ty at_, q = QMergeNode (JStr i) nm ty at_ dataset_name.
Proof.
  destruct node as [| | | | | |d]; try discriminate.
  unfold well_formed_node, node_query.
  destruct (dict_get d "id" (JStr "")) as [| | | |i| |]; try discriminate.
  intros _. destruct (negb _); [discriminate|].
  intros [= <-]. eauto.
Qed.

Lemma edge_query_shape (edge : json) (q : query) :
  well_formed_edge edge = true ->
  edge_query dataset_name edge = Some q ->
  exists a b r wt,
    q = QMatchMergeEdge (JStr a) (JStr b) (JStr r) wt dataset_name.
Proof.
  destruct edge as [| | | | | |d]; try discriminate.
  unfold well_formed_edge, edge_query.
  destruct (dict_get d "source" (JStr "")) as [| | | |a| |];
    try discriminate.
  destruct (dict_get d "target" (JStr "")) as [| | | |b| |];
    try discriminate.
  destruct (dict_get d "relation" (JStr "RELATED_TO")) as [| | | |r| |];
    try discriminate.
  intros _. destruct (_ || _); [discriminate|].
  intros [= <-]. eauto.
Qed.

(** The statements of the node loop, one against the others. *)
Lemma node_statement_settles (x : json) (q : query) (s : Store) :
  well_formed_node x = true -> node_query dataset_name x = Some q ->
  standard_settled dataset_name q (fst (exec q s)).
Proof.
  intros Hx Hq.
  destruct (node_query_shape x q Hx Hq) as (i & nm & ty & at_ & ->).
  pose proof (exec_merge_node_settled dataset_name nm ty at_ i s) as H.
  cbv zeta in H. destruct H as (H & _). exact H.
Qed.

Lemma node_statement_keeps (x : json) (q : query) (x' : json) (q' : query)
    (s : Store) :
  well_formed_node x = true -> node_query dataset_name x = Some q ->
  well_formed_node x' = true -> node_query dataset_name x' = Some q' ->
  standard_settled dataset_name q' s ->
  standard_settled dataset_name q' (fst (exec q s)).
Proof.
  intros Hx Hq Hx' Hq'.
  destruct (node_query_shape x q Hx Hq) as (i & nm & ty & at_ & ->).
  pose proof (exec_merge_node_settled dataset_name nm ty at_ i s) as H.
  cbv zeta in H. destruct H as (_ & H & _). apply H.
  apply (node_query_shape x' q' Hx' Hq').
Qed.

Lemma node_statement_steady (x : json) (q : query) (s : Store) :
  well_formed_node x = true -> node_query dataset_name x = Some q ->
  standard_settled dataset_name q s ->
  steady dataset_name s (fst (exec q s)).
Proof.
  intros Hx Hq.
  destruct (node_query_shape x q Hx Hq) as (i & nm & ty & at_ & ->).
  pose proof (exec_merge_node_settled dataset_name nm ty at_ i s) as H.
  cbv zeta in H. destruct H as (_ & _ & H). exact H.
Qed.

Lemma edge_statement_settles (x : json) (q : query) (s : Store) :
  well_formed_edge x = true -> edge_query dataset_name x = Some q ->
  standard_settled dataset_name q (fst (exec q s)).
Proof.
  intros Hx Hq.
  destruct (edge_query_shape x q Hx Hq) as (a & b & r & wt & ->).
  pose proof (exec_match_merge_edge_settled dataset_name r wt a b s) as H.
  cbv zeta in H. destruct H as (H & _). exact H.
Qed.

Lemma edge_statement_keeps (x : json) (q q' : query) (s : Store) :
  well_formed_edge x = true -> edge_query dataset_name x = Some q ->
  standard_settled dataset_name q' s ->
  standard_settled dataset_name q' (fst (exec q s)).
Proof.
  intros Hx Hq.
  destruct (edge_query_shape x q Hx Hq) as (a & b & r & wt & ->).
  pose proof (exec_match_merge_edge_settled dataset_name r wt a b s) as H.
  cbv zeta in H. destruct H as (_ & H & _). apply H.
Qed.

Lemma edge_statement_steady (x : json) (q : query) (s : Store) :
  well_formed_edge x = true -> edge_query dataset_name x = Some q ->
  standard_settled dataset_name q s ->
  steady dataset_name s (fst (exec q s)).
Proof.
  intros Hx Hq.
  destruct (edge_query_shape x q Hx Hq) as (a & b & r & wt & ->).
  pose proof (exec_match_merge_edge_settled dataset_name r wt a b s) as H.
  cbv zeta in H. destruct H as (_ & _ & H). exact H.
Qed.

(** A load of a standard document whose [nodes] and [edges] are lists,
    through a connected loader and without clearing, is its two loops
    inside one session. *)
Lemma load_standard_run (read_file : string -> file_state)
    (graph_path : string) (g : items) (nl el : list json) (w : World) :
  driver (self w) = true ->
  read_file graph_path = FileDecoded (JDict g) ->
  dict_mem "nodes" g = true ->
  dict_get g "nodes" (JList []) = JList nl ->
  dict_get g "edges" (JList []) = JList el ->
  load_graph_from_json storage_refuses read_file graph_path dataset_name
    false w
  = (let '(rn, wn, tn) :=
       for_each (node_item storage_refuses dataset_name) nl 0 w in
     match rn with
     | Raise e => (Raise e, wn, EvSessionOpen :: tn ++ [EvSessionClose])
     | Ok nc =>
         let '(re, we, te) :=
           for_each (edge_item storage_refuses dataset_name) el 0 wn in
         (match re with
          | Ok rc => Ok (stats nc rc "standard")
          | Raise e => Raise e
          end, we, EvSessionOpen :: (tn ++ te) ++ [EvSessionClose])
     end).
Proof.
  intros Hd Hf Hmem Hn He. unfold load_graph_from_json.
  rewrite Hf, (require_driver_ok _ _ Hd), bind_ret_l, Hmem.
  unfold _load_standard_format. rewrite Hn, He.
  unfold py_len. rewrite !bind_ret_l.
  unfold bind at 1. unfold with_session. rewrite Hd.
  unfold py_iter. rewrite bind_ret_l. unfold bind at 1.
  destruct (for_each (node_item storage_refuses dataset_name) nl 0 w)
    as [[[nc|e] wn] tn]; [|reflexivity].
  rewrite bind_ret_l. unfold bind at 1.
  destruct (for_each (edge_item storage_refuses dataset_name) el 0 wn)
    as [[[rc|e] we] te]; simpl; rewrite ?app_nil_r; reflexivity.
Qed.

End StandardLoops.

(** X16.  Loading a standard document twice.  For a document whose
    [nodes] and [edges] are lists of mappings with string ids, sources,
    targets and relations, loaded into a dataset with
    [clear_existing = False] by a load in which no statement was refused,
    loading the same file again stores no further node and no further
    relationship. *)
Theorem standard_load_idempotent :
  forall (storage_refuses : Store -> query -> bool)
         (read_file : string -> file_state)
         (graph_path dataset_name : string) (g : items)
         (nl el : list json)
         (w w1 w2 : World) (r1 r2 : result json) (t1 t2 : list event),
    driver (self w) = true ->
    read_file graph_path = FileDecoded (JDict g) ->
    dict_mem "nodes" g = true ->
    dict_get g "nodes" (JList []) = JList nl ->
    dict_get g "edges" (JList []) = JList el ->
    Forall (fun node => well_formed_node node = true) nl ->
    Forall (fun edge => well_formed_edge edge = true) el ->
    load_graph_from_json storage_refuses read_file graph_path dataset_name
      false w = (r1, w1, t1) ->
    (forall q s, ~ In (EvRefused q s) t1) ->
    load_graph_from_json storage_refuses read_file graph_path dataset_name
      false w1 = (r2, w2, t2) ->
    List.length (st_nodes (db w2)) = List.length (st_nodes (db w1))
    /\ List.length (st_rels (db w2)) = List.length (st_rels (db w1)).
Proof.
  intros refuses rf path ds g nl el w w1 w2 r1 r2 t1 t2
    Hd Hf Hmem Hn He Hnl Hel H1 Hno H2.
  set (nodes_ok := fun node => well_formed_node node = true) in *.
  set (edges_ok := fun edge => well_formed_edge edge = true) in *.
  pose proof (node_item_phase refuses ds) as Pn.
  pose proof (edge_item_phase refuses ds) as Pe.
  set (nodes_settled := fun s : Store =>
         forall x q, In x nl -> node_query ds x = Some q ->
                     standard_settled ds q s).
  set (edges_settled := fun s : Store =>
         forall x q, In x el -> edge_query ds x = Some q ->
                     standard_settled ds q s).
  assert (Hin_n : forall x, In x nl -> well_formed_node x = true)
    by (intros x Hx; exact (proj1 (Forall_forall _ _) Hnl x Hx)).
  assert (Hin_e : forall x, In x el -> well_formed_edge x = true)
    by (intros x Hx; exact (proj1 (Forall_forall _ _) Hel x Hx)).
  (* the first load *)
  rewrite (load_standard_run refuses ds rf path g nl el w Hd Hf Hmem Hn He)
    in H1.
  destruct (phase_inv (node_item refuses ds) (node_query ds) nodes_ok Pn
              (fun _ => True) nl 0 w Hnl (fun _ _ _ _ _ _ => I) I)
    as (nc & wa & ta & Ea & Sa & _).
  pose proof (phase_settles (node_item refuses ds) (node_query ds) nodes_ok
                Pn (standard_settled ds) nl 0 w Hnl) as Na.
  rewrite Ea in Na, H1. cbn [fst snd] in Na.
  destruct (phase_inv (edge_item refuses ds) (edge_query ds) edges_ok Pe
              (fun s => nodes_settled (db wa) -> nodes_settled s)
              el 0 wa Hel)
    as (rc & wb & tb & Eb & Sb & Nb); [|exact (fun H => H)|].
  { intros x q s Hx Hq K K0 y q' Hy Hq'.
    apply (edge_statement_keeps ds x q q' s (Hin_e x Hx) Hq).
    apply (K K0 y q' Hy Hq'). }
  pose proof (phase_settles (edge_item refuses ds) (edge_query ds) edges_ok
                Pe (standard_settled ds) el 0 wa Hel) as Nbe.
  rewrite Eb in Nbe, H1. cbn [fst snd] in Nbe.
  injection H1 as _ <- <-.
  assert (Nset : nodes_settled (db wb)).
  { apply Nb. intros y q0 Hy Hq0. revert y q0 Hy Hq0. apply Na.
    - intros x q s Hx. now apply node_statement_settles; auto.
    - intros x q x' q' s Hx Hq Hx' Hq'.
      apply (node_statement_keeps ds x q x' q'); auto.
    - intros q s Hin. apply (Hno q s). right. apply in_or_app. left.
      apply in_or_app. now left. }
  assert (Eset : edges_settled (db wb)).
  { intros y q0 Hy Hq0. revert y q0 Hy Hq0. apply Nbe.
    - intros x q s Hx. now apply edge_statement_settles; auto.
    - intros x q x' q' s Hx Hq _ _.
      apply (edge_statement_keeps ds x q q'); auto.
    - intros q s Hin. apply (Hno q s). right. apply in_or_app. left.
      apply in_or_app. now right. }
  (* the second load *)
  assert (Hdb : driver (self wb) = true) by (rewrite Sb, Sa; exact Hd).
  rewrite (load_standard_run refuses ds rf path g nl el wb Hdb Hf Hmem Hn He)
    in H2.
  destruct (phase_inv (node_item refuses ds) (node_query ds) nodes_ok Pn
              (fun _ => True) nl 0 wb Hnl (fun _ _ _ _ _ _ => I) I)
    as (nc2 & wc & tc & Ec & Sc & _).
  pose proof (phase_steady (node_item refuses ds) (node_query ds) nodes_ok
                Pn (steady ds) (standard_settled ds) nl 0 wb
                (steady_refl ds) (steady_trans ds) Hnl) as Rc.
  rewrite Ec in Rc, H2. cbn [fst snd] in Rc.
  assert (Rbc : steady ds (db wb) (db wc)).
  { apply Rc.
    - intros x q s Hx. apply node_statement_steady; auto.
    - intros q s s'. apply steady_settled.
    - exact Nset. }
  destruct (phase_inv (edge_item refuses ds) (edge_query ds) edges_ok Pe
              (fun _ => True) el 0 wc Hel (fun _ _ _ _ _ _ => I) I)
    as (rc2 & wd & td & Ed & Sd & _).
  pose proof (phase_steady (edge_item refuses ds) (edge_query ds) edges_ok
                Pe (steady ds) (standard_settled ds) el 0 wc
                (steady_refl ds) (steady_trans ds) Hel) as Rd.
  rewrite Ed in Rd, H2. cbn [fst snd] in Rd.
  injection H2 as _ <- _.
  assert (Rcd : steady ds (db wc) (db wd)).
  { apply Rd.
    - intros x q s Hx. apply edge_statement_steady; auto.
    - intros q s s'. apply steady_settled.
    - intros x q Hx Hq. apply (steady_settled ds q _ _ Rbc).
      apply (Eset x q Hx Hq). }
  destruct (steady_trans ds _ _ _ Rbc Rcd) as (_ & Ln & _ & Lr).
  split; assumption.
Qed.

Lemma standard_load_idempotent_witness :
  let nl := [JDict [("id", JStr "1"); ("name", JStr "Alice");
                    ("type", JStr "person")];
             JDict [("id", JStr "2"); ("name", JStr "Bob");
                    ("type", JStr "person")]] in
  let el := [JDict [("source", JStr "1"); ("target", JStr "2");
                    ("relation", JStr "knows");
                    ("weight",
                     JFloat (S754_finite false 4503599627370496 (-51)))]] in
  let rf := fun _ : string => FileDecoded (JDict friends) in
  let w := mkWorld connected_loader demo_store in
  let out1 := load_graph_from_json accepts_all rf "graph.json" "demo" false w in
  let out2 :=
    load_graph_from_json accepts_all rf "graph.json" "demo" false
      (snd (fst out1)) in
  (driver (self w) = true
   /\ dict_mem "nodes" friends = true
   /\ dict_get friends "nodes" (JList []) = JList nl
   /\ dict_get friends "edges" (JList []) = JList el
   /\ Forall (fun node => well_formed_node node = true) nl
   /\ Forall (fun edge => well_formed_edge edge = true) el
   /\ (forall q s, ~ In (EvRefused q s) (snd out1)))
  /\ List.length (st_nodes (db (snd (fst out2))))
     = List.length (st_nodes (db (snd (fst out1))))
  /\ List.length (st_rels (db (snd (fst out2))))
     = List.length (st_rels (db (snd (fst out1)))).
Proof.
  intros nl el rf w out1 out2.
  assert (Hnl : Forall (fun node => well_formed_node node = true) nl)
    by (repeat constructor).
  assert (Hel : Forall (fun edge => well_formed_edge edge = true) el)
    by (repeat constructor).
  assert (Hno : forall q s, ~ In (EvRefused q s) (snd out1)).
  { intros q s H. vm_compute in H.
    repeat (destruct H as [H|H]; [discriminate|]). exact H. }
  split; [repeat split; assumption|].
  apply (standard_load_idempotent accepts_all rf "graph.json" "demo"
           friends nl el w (snd (fst out1)) (snd (fst out2))
           (fst (fst out1)) (fst (fst out2)) (snd out1) (snd out2));
    try assumption; reflexivity.
Defined.

